(** * camlistore pkg/fs: the read-only versioned view (rover.go, versions.go)

    A shallow embedding of the FUSE node types of [pkg/fs/rover.go]
    ([roDirV], [roFileLikeDir], [roFileVersion]) and [pkg/fs/versions.go]
    ([versionsDir]), and the properties of their directory population,
    listing, lookup, refresh and attribute code; and of the command
    [camtool versions] of [cmd/camtool/versions.go], which prints the
    claims that a [roFileLikeDir] lists as versions.

    Conventions of the embedding.
    - Go pointers to nodes are addresses into a heap ([list node]); a
      node is allocated by appending to the heap, so an address is fresh
      exactly when it is the heap's length.
    - A handler that reads or writes a node or calls the client runs in
      the monad [M]: it threads the heap, the state of the search client
      and the log of the queries issued so far, and has no result where
      the Go code panics (nil dereference, write to a nil map).
    - [sync.Mutex] sections are the atomic steps of the model: each
      handler holds [n.mu] from entry to return in the source, so a
      handler is one step here.  [log.Printf] calls are dropped.
    - A Go map that can be nil is an [option (gmap ...)]; [None] is nil.
    - [time.Time] is an integer count of nanoseconds since the zero time
      instant, so [IsZero] is comparison with 0. *)

From stdpp Require Import gmap strings list fin_maps pretty.
From Stdlib Require Import ZArith Lia Strings.Byte Strings.Ascii.

Local Open Scope string_scope.
Local Open Scope list_scope.
Local Open Scope Z_scope.

(** ** Collaborators outside pkg/fs *)

(** [camlistore.org/pkg/blob]: the operations of [blob.Ref] the file
    system calls, as an interface. *)
Class BlobAPI := {
  Ref : Type;
  zeroRef : Ref;                    (* blob.Ref{} *)
  Valid : Ref -> bool;              (* Ref.Valid *)
  Parse : string -> option Ref;     (* blob.Parse: [Some r] when ok *)
  ParseOrZero : string -> Ref;      (* blob.ParseOrZero *)
  RefString : Ref -> string;        (* Ref.String *)
  Sum64 : Ref -> Z;                 (* Ref.Sum64, a uint64 *)
}.

Definition Time := Z.

Definition IsZero (t : Time) : bool := t =? 0.
(** [t.After(u)] *)
Definition After (t u : Time) : bool := u <? t.
(** [t.Add(d)] *)
Definition Add (t : Time) (d : Z) : Time := t + d.

Definition Minute : Z := 60 * 1000000000.

(** [const versionsRefreshTime = 1 * time.Minute] *)
Definition versionsRefreshTime : Z := 1 * Minute.

(** [url.Values] and its [Get]: the first value of the key, or the empty
    string. *)
Abbreviation Values := (gmap string (list string)).

Definition Values_Get (v : Values) (k : string) : string :=
  match v !! k with
  | Some (x :: _) => x
  | _ => ""
  end.

Section Search.
Context `{BlobAPI}.

(** [search.DescribedPermanode], [search.DescribedBlob]: the fields the
    file system reads. *)
Record DescribedPermanode := { Attr : Values }.

Record FileInfo := { Size : Z (* int64 *) }.

Record DescribedBlob := {
  BlobRef : Ref;
  CamliType : string;
  Permanode : option DescribedPermanode;   (* nil when not a permanode *)
  File : option FileInfo;                  (* nil when not a file *)
}.

Record DescribeResponse := { Meta : gmap string DescribedBlob }.

Record DescribeRequest := {
  dr_BlobRef : Ref;
  dr_BlobRefs : list Ref;
  dr_Depth : Z;
  dr_At : Time;
}.

Record ClaimsRequest := { cr_Permanode : Ref; cr_AttrFilter : string }.

Record ClaimsItem := { Value : string; Date : Time }.

Record ClaimsResponse := { Claims : list ClaimsItem }.

Record WithAttrRequest := { wr_N : Z; wr_Attr : string }.

Record WithAttrItem := { wi_Permanode : Ref }.

Record WithAttrResponse := { WithAttr : list WithAttrItem }.

(** The queries of [n.fs.client].  A call returns [(res, err)] in Go:
    [None] is [err != nil].  The client has a state of its own, so the
    same request may succeed once and fail later. *)
Class SearchClient (C : Type) := {
  Describe : C -> DescribeRequest -> option DescribeResponse * C;
  GetClaims : C -> ClaimsRequest -> option ClaimsResponse * C;
  GetPermanodesWithAttr : C -> WithAttrRequest -> option WithAttrResponse * C;
}.

(** What a test double would count: the requests in the order issued. *)
Inductive Query :=
| QDescribe (r : DescribeRequest)
| QGetClaims (r : ClaimsRequest)
| QWithAttr (r : WithAttrRequest).

(** The helpers and globals of pkg/fs and its libraries that rover.go
    and versions.go use and that are defined in other files. *)
Class FsEnv := {
  isDir : DescribedPermanode -> bool;        (* fs.isDir *)
  xattr_load : DescribedPermanode -> option (gmap string (list byte));
                                             (* what xattr.load stores *)
  isWriteFlags : Z -> bool;                  (* fs.isWriteFlags *)
  serverStart : Time;                        (* var serverStart *)
  Getuid : Z;                                (* os.Getuid() *)
  Getgid : Z;                                (* os.Getgid() *)
  DateString : Time -> string;               (* cl.Date.String() *)
  FileReader : Type;
  NewFileReader : Ref -> option FileReader;  (* schema.NewFileReader *)
  OpenDirectIO : Z;                          (* fuse.OpenDirectIO *)
}.

End Search.

(** ** Nodes, the heap and the handler monad *)

(** [fuse.Error] values returned by the handlers. *)
Inductive fuseError := EIO | ENOENT | EPERM.

Inductive result (A : Type) :=
| Ok (a : A)
| Err (e : fuseError).
Arguments Ok {A} a.
Arguments Err {A} e.

(** Go's [error]: [None] is nil, [Some msg] is [errors.New(msg)]. *)
Abbreviation error := (option string).

Record Dirent := { Name : string; Inode : Z }.

Section Fs.
Context `{FsEnv} {C : Type} `{!SearchClient C}.

Definition addr := nat.

(** [type roDirV struct]; [fs] is the mount (the client lives in the
    world below), [mu] is the atomicity of a handler. *)
Record roDirV := {
  dv_permanode : Ref;
  dv_parent : option addr;       (* parent *roDirV, or nil *)
  dv_name : string;
  dv_children : option (gmap string addr);
  dv_xattrs : option (gmap string (list byte));
}.

(** [type roFileLikeDir struct] *)
Record roFileLikeDir := {
  fl_permanode : Ref;
  fl_parent : option addr;
  fl_name : string;
  fl_symLink : bool;
  fl_target : string;
  fl_children : option (gmap string addr);
  fl_xattrs : option (gmap string (list byte));
}.

(** [type roFileVersion struct] *)
Record roFileVersion := {
  fv_permanode : Ref;
  fv_parent : option addr;       (* parent *roFileLikeDir *)
  fv_name : string;
  fv_symLink : bool;
  fv_target : string;
  fv_content : Ref;
  fv_size : Z;                   (* int64 *)
  fv_mtime : Time;               (* if zero, use serverStart *)
  fv_atime : Time;
  fv_xattrs : option (gmap string (list byte));
}.

(** [type versionsDir struct]; the fields [ents] and [modTime] are never
    read or written in versions.go. *)
Record versionsDir := {
  lastQuery : Time;
  vd_m : option (gmap string Ref);         (* ent name => permanode *)
  vd_children : option (gmap string addr); (* ent name => child node *)
}.

(** The four node types, as the dynamic type of an [fs.Node] value. *)
Inductive node :=
| NVersions (n : versionsDir)
| NDirV (n : roDirV)
| NFileLikeDir (n : roFileLikeDir)
| NFileVersion (n : roFileVersion).

Record World := {
  heap : list node;
  client : C;
  queries : list Query;
}.

Definition M (A : Type) : Type := World -> option (A * World).

Definition ret {A} (a : A) : M A := fun w => Some (a, w).

Definition bind {A B} (m : M A) (k : A -> M B) : M B :=
  fun w => match m w with
           | Some (a, w') => k a w'
           | None => None
           end.

(** A Go run-time panic: the handler has no result. *)
Definition panic {A} : M A := fun _ => None.

Notation "'let*' x ':=' m 'in' k" := (bind m (fun x => k))
  (at level 10, x pattern, m at level 100, k at level 200).

(** [*p] *)
Definition deref (a : addr) : M node :=
  fun w => match heap w !! a with
           | Some n => Some (n, w)
           | None => None
           end.

(** [*p = n] *)
Definition store (a : addr) (n : node) : M unit :=
  fun w => Some (tt, {| heap := <[a := n]> (heap w);
                        client := client w; queries := queries w |}).

(** [&T{...}] *)
Definition new (n : node) : M addr :=
  fun w => Some (length (heap w),
                 {| heap := heap w ++ [n];
                    client := client w; queries := queries w |}).

Definition call_Describe (r : DescribeRequest) : M (option DescribeResponse) :=
  fun w => let '(res, c) := Describe (client w) r in
           Some (res, {| heap := heap w; client := c;
                         queries := queries w ++ [QDescribe r] |}).

Definition call_GetClaims (r : ClaimsRequest) : M (option ClaimsResponse) :=
  fun w => let '(res, c) := GetClaims (client w) r in
           Some (res, {| heap := heap w; client := c;
                         queries := queries w ++ [QGetClaims r] |}).

Definition call_GetPermanodesWithAttr (r : WithAttrRequest)
  : M (option WithAttrResponse) :=
  fun w => let '(res, c) := GetPermanodesWithAttr (client w) r in
           Some (res, {| heap := heap w; client := c;
                         queries := queries w ++ [QWithAttr r] |}).

(** A method call on a receiver of the given type. *)
Definition the_roDirV (a : addr) : M roDirV :=
  let* n := deref a in
  match n with NDirV d => ret d | _ => panic end.

Definition the_roFileLikeDir (a : addr) : M roFileLikeDir :=
  let* n := deref a in
  match n with NFileLikeDir d => ret d | _ => panic end.

Definition the_versionsDir (a : addr) : M versionsDir :=
  let* n := deref a in
  match n with NVersions d => ret d | _ => panic end.

(** ** rover.go: roDirV *)

(** [k[n:]] for [n <= len(k)] *)
Fixpoint string_drop (n : nat) (s : string) : string :=
  match n, s with
  | O, _ => s
  | S n', String _ s' => string_drop n' s'
  | S _, EmptyString => EmptyString
  end.

Definition camliPathPrefix : string := "camliPath:".

(** [func newRODirV(fs, permanode, name) *roDirV] (the value pointed to) *)
Definition newRODirV (permanode : Ref) (name : string) : roDirV :=
  {| dv_permanode := permanode; dv_parent := None; dv_name := name;
     dv_children := None; dv_xattrs := None |}.

Definition dv_with_children (n : roDirV) (ch : option (gmap string addr)) : roDirV :=
  {| dv_permanode := dv_permanode n; dv_parent := dv_parent n;
     dv_name := dv_name n; dv_children := ch; dv_xattrs := dv_xattrs n |}.

Definition fl_with_children (n : roFileLikeDir) (ch : option (gmap string addr))
  : roFileLikeDir :=
  {| fl_permanode := fl_permanode n; fl_parent := fl_parent n;
     fl_name := fl_name n; fl_symLink := fl_symLink n; fl_target := fl_target n;
     fl_children := ch; fl_xattrs := fl_xattrs n |}.

(** A node whose [xattrs] field is [x]. *)
Definition loaded (nd : node) (x : option (gmap string (list byte))) : node :=
  match nd with
  | NDirV d =>
      NDirV {| dv_permanode := dv_permanode d; dv_parent := dv_parent d;
               dv_name := dv_name d; dv_children := dv_children d;
               dv_xattrs := x |}
  | NFileLikeDir d =>
      NFileLikeDir
        {| fl_permanode := fl_permanode d; fl_parent := fl_parent d;
           fl_name := fl_name d; fl_symLink := fl_symLink d;
           fl_target := fl_target d; fl_children := fl_children d;
           fl_xattrs := x |}
  | NFileVersion d =>
      NFileVersion
        {| fv_permanode := fv_permanode d; fv_parent := fv_parent d;
           fv_name := fv_name d; fv_symLink := fv_symLink d;
           fv_target := fv_target d; fv_content := fv_content d;
           fv_size := fv_size d; fv_mtime := fv_mtime d;
           fv_atime := fv_atime d; fv_xattrs := x |}
  | NVersions d => NVersions d
  end.

(** [n.xattr().load(p)] on the node at [c]: the accessor holds pointers
    to the node's [mu] and [xattrs] only, and stores into [xattrs].
    Only the three node types of rover.go have an [xattr()]. *)
Definition node_load_xattrs (c : addr) (p : DescribedPermanode) : M unit :=
  let* nd := deref c in
  match nd with
  | NVersions _ => panic
  | _ => store c (loaded nd (xattr_load p))
  end.

(** [n.children[name] = c] for the roDirV at [a]; a write to a nil map
    panics. *)
Definition dv_set_child (a : addr) (name : string) (c : addr) : M unit :=
  let* n := the_roDirV a in
  match dv_children n with
  | Some ch => store a (NDirV (dv_with_children n (Some (<[name := c]> ch))))
  | None => panic
  end.

(** The three statements every creating branch of the loop of
    [roDirV.populate] runs: allocate the child, store it under [name],
    prime its xattrs from the described child. *)
Definition dv_add_child (a : addr) (name : string) (nd : node)
    (p : DescribedPermanode) : M unit :=
  let* c := new nd in
  let* _ := dv_set_child a name c in
  node_load_xattrs c p.

(** One iteration of [for k, v := range db.Permanode.Attr]. *)
Definition dv_populate_entry (a : addr) (res : DescribeResponse)
    (kv : string * list string) : M unit :=
  let '(k, v) := kv in
  if negb (String.prefix camliPathPrefix k) || (Z.of_nat (length v) <? 1)
  then ret tt
  else
    let name := string_drop (String.length camliPathPrefix) k in
    match v with
    | [] => panic
    | childRef :: _ =>
        match Meta res !! childRef with
        | None => ret tt                       (* child not described *)
        | Some child =>
            match Permanode child with
            | None => panic                    (* child.Permanode.Attr *)
            | Some cp =>
                let target := Values_Get (Attr cp) "camliSymlinkTarget" in
                if negb (String.eqb target "") then
                  dv_add_child a name
                    (NFileLikeDir
                       {| fl_permanode := ParseOrZero childRef;
                          fl_parent := Some a; fl_name := name;
                          fl_symLink := true; fl_target := target;
                          fl_children := None; fl_xattrs := None |}) cp
                else if isDir cp then
                  dv_add_child a name
                    (NDirV
                       {| dv_permanode := ParseOrZero childRef;
                          dv_parent := Some a; dv_name := name;
                          dv_children := None; dv_xattrs := None |}) cp
                else
                  let contentRef := Values_Get (Attr cp) "camliContent" in
                  if negb (String.eqb contentRef "") then
                    match Meta res !! contentRef with
                    | None => ret tt           (* content not described *)
                    | Some content =>
                        if negb (String.eqb (CamliType content) "file")
                        then ret tt            (* child not a file *)
                        else
                          dv_add_child a name
                            (NFileLikeDir
                               {| fl_permanode := ParseOrZero childRef;
                                  fl_parent := Some a; fl_name := name;
                                  fl_symLink := false; fl_target := "";
                                  fl_children := None; fl_xattrs := None |}) cp
                    end
                  else ret tt                  (* unknown type *)
            end
        end
    end.

(** A [for ... range] loop whose body neither breaks nor returns. *)
Fixpoint for_each {A} (body : A -> M unit) (l : list A) : M unit :=
  match l with
  | [] => ret tt
  | x :: l' => let* _ := body x in for_each body l'
  end.

(** [func (n *roDirV) populate() error].  Go leaves the order of a map
    range open; the model ranges in the order of [map_to_list]. *)
Definition roDirV_populate (a : addr) : M error :=
  let* n := the_roDirV a in
  match dv_children n with
  | Some _ => ret None
  | None =>
      let* r := call_Describe {| dr_BlobRef := dv_permanode n; dr_BlobRefs := [];
                                 dr_Depth := 3; dr_At := 0 |} in
      match r with
      | None => ret None                       (* logged; return nil *)
      | Some res =>
          match Meta res !! RefString (dv_permanode n) with
          | None => ret (Some "dir blobref not described")
          | Some db =>
              let* _ := store a (NDirV (dv_with_children n (Some ∅))) in
              match Permanode db with
              | None => panic                  (* db.Permanode.Attr *)
              | Some p =>
                  let* _ := for_each (dv_populate_entry a res)
                                     (map_to_list (Attr p)) in
                  ret None
              end
          end
      end
  end.

(** The type switch of both [ReadDir]s: the inode of a child by its
    dynamic type; [var ino uint64] stays 0 in the default case. *)
Definition child_ino (h : list node) (c : addr) : Z :=
  match h !! c with
  | Some (NDirV v) => Sum64 (dv_permanode v)
  | Some (NFileVersion v) => Sum64 (fv_permanode v)
  | _ => 0
  end.

Definition dirents (h : list node) (ch : option (gmap string addr)) : list Dirent :=
  (fun kc => {| Name := kc.1; Inode := child_ino h kc.2 |})
    <$> map_to_list (default ∅ ch).

Definition get_heap : M (list node) := fun w => Some (heap w, w).

(** [func (n *roDirV) ReadDir(intr) ([]fuse.Dirent, fuse.Error)] *)
Definition roDirV_ReadDir (a : addr) : M (result (list Dirent)) :=
  let* err := roDirV_populate a in
  match err with
  | Some _ => ret (Err EIO)
  | None =>
      let* n := the_roDirV a in
      let* h := get_heap in
      ret (Ok (dirents h (dv_children n)))
  end.

(** [func (n *roDirV) Lookup(name, intr) (fs.Node, fuse.Error)]; reading a
    nil map yields the zero value. *)
Definition roDirV_Lookup (a : addr) (name : string) : M (result addr) :=
  let* err := roDirV_populate a in
  match err with
  | Some _ => ret (Err EIO)
  | None =>
      let* n := the_roDirV a in
      match default ∅ (dv_children n) !! name with
      | Some n2 => ret (Ok n2)
      | None => ret (Err ENOENT)
      end
  end.

(** ** rover.go: roFileLikeDir *)

(** [func newROFileLikeDir(fs, permanode, name) *roFileLikeDir] *)
Definition newROFileLikeDir (permanode : Ref) (name : string) : roFileLikeDir :=
  {| fl_permanode := permanode; fl_parent := None; fl_name := name;
     fl_symLink := false; fl_target := ""; fl_children := None;
     fl_xattrs := None |}.

(** [n.children[name] = c] for the roFileLikeDir at [a] *)
Definition fl_set_child (a : addr) (name : string) (c : addr) : M unit :=
  let* n := the_roFileLikeDir a in
  match fl_children n with
  | Some ch => store a (NFileLikeDir (fl_with_children n (Some (<[name := c]> ch))))
  | None => panic
  end.

(** [for _, cl := range res.Claims] of [roFileLikeDir.populate], with its
    four ways out of the function. *)
Fixpoint fl_populate_claims (a : addr) (cls : list ClaimsItem) : M error :=
  match cls with
  | [] => ret None
  | cl :: rest =>
      match Parse (Value cl) with
      | None => ret (Some "invalid blobref")
      | Some pn =>
          let* r := call_Describe {| dr_BlobRef := pn; dr_BlobRefs := [];
                                     dr_Depth := 1; dr_At := Date cl |} in
          match r with
          | None => ret None                   (* logged; return nil *)
          | Some res =>
              match Meta res !! Value cl with
              | None => ret (Some "dir blobref not described")
              | Some db =>
                  let name := DateString (Date cl) in
                  let* n := the_roFileLikeDir a in
                  match File db with
                  | None => panic              (* db.File.Size *)
                  | Some fi =>
                      let* c := new (NFileVersion
                                  {| fv_permanode := fl_permanode n;
                                     fv_parent := Some a; fv_name := name;
                                     fv_symLink := false; fv_target := "";
                                     fv_content := BlobRef db;
                                     fv_size := Size fi;
                                     fv_mtime := 0; fv_atime := 0;
                                     fv_xattrs := None |}) in
                      let* _ := fl_set_child a name c in
                      fl_populate_claims a rest
                  end
              end
          end
      end
  end.

(** [func (n *roFileLikeDir) populate() error] *)
Definition roFileLikeDir_populate (a : addr) : M error :=
  let* n := the_roFileLikeDir a in
  match fl_children n with
  | Some _ => ret None
  | None =>
      let* r := call_GetClaims {| cr_Permanode := fl_permanode n;
                                  cr_AttrFilter := "camliContent" |} in
      match r with
      | None => ret (Some "fs.roFileLikeDir: GetClaims error in ReadDir:")
      | Some res =>
          let* _ := store a (NFileLikeDir (fl_with_children n (Some ∅))) in
          fl_populate_claims a (Claims res)
      end
  end.

(** [func (n *roFileLikeDir) ReadDir(intr) ([]fuse.Dirent, fuse.Error)] *)
Definition roFileLikeDir_ReadDir (a : addr) : M (result (list Dirent)) :=
  let* err := roFileLikeDir_populate a in
  match err with
  | Some _ => ret (Err EIO)
  | None =>
      let* n := the_roFileLikeDir a in
      let* h := get_heap in
      ret (Ok (dirents h (fl_children n)))
  end.

(** [func (n *roFileLikeDir) Lookup(name, intr) (fs.Node, fuse.Error)] *)
Definition roFileLikeDir_Lookup (a : addr) (name : string) : M (result addr) :=
  let* err := roFileLikeDir_populate a in
  match err with
  | Some _ => ret (Err EIO)
  | None =>
      let* n := the_roFileLikeDir a in
      match default ∅ (fl_children n) !! name with
      | Some n2 => ret (Ok n2)
      | None => ret (Err ENOENT)
      end
  end.

(** ** rover.go: Attr of the three node types *)

(** [fuse.Attr], the fields the handlers set (the others stay zero). *)
Record Attr_t := {
  a_Inode : Z;  a_Mode : Z;  a_Uid : Z;  a_Gid : Z;
  a_Size : Z;   a_Blocks : Z;
  a_Mtime : Time;  a_Atime : Time;  a_Ctime : Time;  a_Crtime : Time;
}.

(** [os.ModeDir], [os.ModeSymlink]; the permission bits are octal in Go *)
Definition ModeDir : Z := Z.shiftl 1 31.
Definition ModeSymlink : Z := Z.shiftl 1 27.
Definition perm_0500 : Z := 320.
Definition perm_0400 : Z := 256.

Definition uint32 (z : Z) : Z := z mod 2 ^ 32.
Definition uint64 (z : Z) : Z := z mod 2 ^ 64.

(** [func (n *roDirV) Attr() fuse.Attr] *)
Definition roDirV_Attr (n : roDirV) : Attr_t :=
  {| a_Inode := Sum64 (dv_permanode n);
     a_Mode := Z.lor ModeDir perm_0500;
     a_Uid := uint32 Getuid; a_Gid := uint32 Getgid;
     a_Size := 0; a_Blocks := 0;
     a_Mtime := 0; a_Atime := 0; a_Ctime := 0; a_Crtime := 0 |}.

(** [func (n *roFileLikeDir) Attr() fuse.Attr] *)
Definition roFileLikeDir_Attr (n : roFileLikeDir) : Attr_t :=
  {| a_Inode := Sum64 (fl_permanode n);
     a_Mode := Z.lor ModeDir perm_0500;
     a_Uid := uint32 Getuid; a_Gid := uint32 Getgid;
     a_Size := 0; a_Blocks := 0;
     a_Mtime := 0; a_Atime := 0; a_Ctime := 0; a_Crtime := 0 |}.

(** [func (n *roFileVersion) modTime() time.Time] *)
Definition modTime (n : roFileVersion) : Time :=
  if negb (IsZero (fv_mtime n)) then fv_mtime n else serverStart.

(** [func (n *roFileVersion) accessTime() time.Time] *)
Definition accessTime (n : roFileVersion) : Time :=
  if negb (IsZero (fv_atime n)) then fv_atime n else modTime n.

(** [func (n *roFileVersion) Attr() fuse.Attr] *)
Definition roFileVersion_Attr (n : roFileVersion) : Attr_t :=
  let mode := perm_0400 in
  let size := fv_size n in
  let blocks := if 0 <? size then uint64 (uint64 size / 512 + 1) else 0 in
  let inode := Sum64 (fv_permanode n) in
  let mode := if fv_symLink n then Z.lor mode ModeSymlink else mode in
  {| a_Inode := inode; a_Mode := mode;
     a_Uid := uint32 Getuid; a_Gid := uint32 Getgid;
     a_Size := uint64 size; a_Blocks := blocks;
     a_Mtime := modTime n; a_Atime := accessTime n;
     a_Ctime := serverStart; a_Crtime := serverStart |}.

(** ** rover.go: Open and the xattr handlers *)

(** [&nodeReader{n: &node{fs, blobref}, fr: r}] *)
Record nodeReader := { nr_blobref : Ref; nr_fr : FileReader }.

(** [func (n *roFileVersion) Open(req, res, intr) (fs.Handle, fuse.Error)]:
    the handle or the error, and [res.Flags] after the call.  The
    counters [roFileOpen] and [roFileOpenError] are statistics only. *)
Definition roFileVersion_Open (n : roFileVersion) (reqFlags resFlags : Z)
  : result nodeReader * Z :=
  if isWriteFlags reqFlags then (Err EPERM, resFlags)
  else
    match NewFileReader (fv_content n) with
    | None => (Err EIO, resFlags)
    | Some r =>
        (Ok {| nr_blobref := fv_content n; nr_fr := r |},
         Z.land resFlags (uint32 (Z.lnot OpenDirectIO)))
    end.

(** [func (n *roFileVersion) Removexattr(req, intr) fuse.Error] *)
Definition roFileVersion_Removexattr (n : roFileVersion) : fuseError := EPERM.

(** [func (n *roFileVersion) Setxattr(req, intr) fuse.Error] *)
Definition roFileVersion_Setxattr (n : roFileVersion) : fuseError := EPERM.

(** [func (n *roFileVersion) Fsync(r, intr) fuse.Error]: nil *)
Definition roFileVersion_Fsync (n : roFileVersion) : option fuseError := None.

(** ** versions.go: versionsDir *)

(** [func (n *versionsDir) isRO() bool] *)
Definition isRO (n : versionsDir) : bool := true.

Definition perm_0700 : Z := 448.

(** [func (n *versionsDir) dirMode() os.FileMode] *)
Definition dirMode (n : versionsDir) : Z :=
  if isRO n then perm_0500 else perm_0700.

(** [func (n *versionsDir) Attr() fuse.Attr] *)
Definition versionsDir_Attr (n : versionsDir) : Attr_t :=
  {| a_Inode := 0;
     a_Mode := Z.lor ModeDir (dirMode n);
     a_Uid := uint32 Getuid; a_Gid := uint32 Getgid;
     a_Size := 0; a_Blocks := 0;
     a_Mtime := 0; a_Atime := 0; a_Ctime := 0; a_Crtime := 0 |}.

(** [strings.Replace(s, old, new, -1)] where [old] and [new] are one
    byte each *)
Fixpoint replace_byte (old new : ascii) (s : string) : string :=
  match s with
  | EmptyString => EmptyString
  | String c s' =>
      String (if Ascii.eqb c old then new else c) (replace_byte old new s')
  end.

(** The body of the loop under [// Roots]: the state is [currentRoots]
    and [n.m]. *)
Definition add_root (dres : DescribeResponse)
    (st : gset string * gmap string Ref) (wi : WithAttrItem)
  : gset string * gmap string Ref :=
  let pn := wi_Permanode wi in
  match Meta dres !! RefString pn with
  | Some db =>
      match Permanode db with
      | Some p =>
          let name := Values_Get (Attr p) "camliRoot" in
          if negb (String.eqb name "")
          then ({[name]} ∪ st.1, <[name := pn]> st.2)
          else st
      | None => st
      end
  | None => st
  end.

(** [delete(n.children, name)] for every [name] with
    [!currentRoots[name]] *)
Definition evict (currentRoots : gset string) (children : gmap string addr)
  : gmap string addr :=
  filter (fun kc => kc.1 ∈ currentRoots) children.

(** The body of the loop under [// Importers]: the state is [n.m]. *)
Definition add_importer (dres : DescribeResponse)
    (m : gmap string Ref) (wi : WithAttrItem) : gmap string Ref :=
  let pn := wi_Permanode wi in
  match Meta dres !! RefString pn with
  | Some db =>
      match Permanode db with
      | Some p =>
          let name := Values_Get (Attr p) "camliImportRoot" in
          if negb (String.eqb name "") then
            let name := replace_byte ":"%char "-"%char name in
            let name := replace_byte "/"%char "-"%char name in
            <["importer-" +:+ name := pn]> m
          else m
      | None => m
      end
  | None => m
  end.

(** [func (n *versionsDir) condRefresh() fuse.Error], called with
    [n.mu] held.  [now1] is what [time.Now()] returns at the first
    line, [now2] what it returns at the last.  The two searches run in
    goroutines of one [syncutil.Group] and [grp.Err()] waits for both:
    both requests are always issued, and they are logged in the order
    of the source. *)
Definition condRefresh (a : addr) (now1 now2 : Time) : M (option fuseError) :=
  let* n := the_versionsDir a in
  if After (lastQuery n) (Add now1 (- versionsRefreshTime)) then ret None
  else
    let* rootRes := call_GetPermanodesWithAttr
                      {| wr_N := 100; wr_Attr := "camliRoot" |} in
    let* impRes := call_GetPermanodesWithAttr
                      {| wr_N := 100; wr_Attr := "camliImportRoot" |} in
    match rootRes, impRes with
    | Some rootRes, Some impRes =>
        let children := default ∅ (vd_children n) in
        let* _ := store a (NVersions {| lastQuery := lastQuery n;
                                        vd_m := Some ∅;
                                        vd_children := Some children |}) in
        let refs := ((wi_Permanode <$> WithAttr rootRes)
                       ++ (wi_Permanode <$> WithAttr impRes))%list in
        if Z.of_nat (length refs) =? 0 then ret None
        else
          let* dres := call_Describe {| dr_BlobRef := zeroRef;
                                        dr_BlobRefs := refs;
                                        dr_Depth := 1; dr_At := 0 |} in
          match dres with
          | None => ret (Some EIO)
          | Some dres =>
              let '(currentRoots, m) :=
                fold_left (add_root dres) (WithAttr rootRes) (∅, ∅) in
              let children := evict currentRoots children in
              let m := fold_left (add_importer dres) (WithAttr impRes) m in
              let* _ := store a (NVersions {| lastQuery := now2;
                                              vd_m := Some m;
                                              vd_children := Some children |}) in
              ret None
          end
    | _, _ => ret (Some EIO)
    end.

(** [func (n *versionsDir) ReadDir(intr) ([]fuse.Dirent, fuse.Error)] *)
Definition versionsDir_ReadDir (a : addr) (now1 now2 : Time)
  : M (result (list Dirent)) :=
  let* err := condRefresh a now1 now2 in
  match err with
  | Some _ => ret (Err EIO)
  | None =>
      let* n := the_versionsDir a in
      ret (Ok ((fun kr => {| Name := kr.1; Inode := 0 |})
                 <$> map_to_list (default ∅ (vd_m n))))
  end.

(** [func (n *versionsDir) Lookup(name, intr) (fs.Node, fuse.Error)] *)
Definition versionsDir_Lookup (a : addr) (name : string) (now1 now2 : Time)
  : M (result addr) :=
  let* err := condRefresh a now1 now2 in
  match err with
  | Some e => ret (Err e)
  | None =>
      let* n := the_versionsDir a in
      let br := default zeroRef (default ∅ (vd_m n) !! name) in
      if negb (Valid br) then ret (Err ENOENT)
      else
        match default ∅ (vd_children n) !! name with
        | Some nod => ret (Ok nod)
        | None =>
            let* nod := new (NDirV (newRODirV br name)) in
            match vd_children n with
            | None => panic                    (* write to a nil map *)
            | Some ch =>
                let* _ := store a (NVersions
                                     {| lastQuery := lastQuery n;
                                        vd_m := vd_m n;
                                        vd_children := Some (<[name := nod]> ch) |}) in
                ret (Ok nod)
            end
        end
  end.

(** ** The mutation handlers of the four node types *)

(** Modelled from the spec: [noXattr], the type [versionsDir] embeds, is
    declared in another file of pkg/fs.  Section 4.5 of the spec: the
    mutation entry points of the extended-attribute accessor "always
    fail with permission-denied". *)
Definition noXattr_Setxattr : fuseError := EPERM.

Definition noXattr_Removexattr : fuseError := EPERM.

(** The method sets of rover.go and versions.go: [Some] is what the
    node's own handler returns, [None] says that the node type declares
    no such method, so the request never reaches a handler of this
    package. *)
Definition node_Setxattr (nd : node) : option fuseError :=
  match nd with
  | NVersions _ => Some noXattr_Setxattr       (* promoted from noXattr *)
  | NDirV _ => None
  | NFileLikeDir _ => None
  | NFileVersion n => Some (roFileVersion_Setxattr n)
  end.

Definition node_Removexattr (nd : node) : option fuseError :=
  match nd with
  | NVersions _ => Some noXattr_Removexattr    (* promoted from noXattr *)
  | NDirV _ => None
  | NFileLikeDir _ => None
  | NFileVersion n => Some (roFileVersion_Removexattr n)
  end.

Definition node_Open (nd : node) (reqFlags resFlags : Z)
  : option (result nodeReader * Z) :=
  match nd with
  | NVersions _ => None
  | NDirV _ => None
  | NFileLikeDir _ => None
  | NFileVersion n => Some (roFileVersion_Open n reqFlags resFlags)
  end.

(** * The vocabulary of the statements *)

(** ** Requests, and worlds after a step *)

(** The world after one query [q] answered with client state [c]. *)
Definition after_query (w : World) (q : Query) (c : C) : World :=
  {| heap := heap w; client := c; queries := queries w ++ [q] |}.

(** The request [roDirV.populate] sends for the directory [n]. *)
Definition dv_describe_request (n : roDirV) : DescribeRequest :=
  {| dr_BlobRef := dv_permanode n; dr_BlobRefs := [];
     dr_Depth := 3; dr_At := 0 |}.

Definition fl_claims_request (n : roFileLikeDir) : ClaimsRequest :=
  {| cr_Permanode := fl_permanode n; cr_AttrFilter := "camliContent" |}.

Definition fl_describe_request (pn : Ref) (cl : ClaimsItem) : DescribeRequest :=
  {| dr_BlobRef := pn; dr_BlobRefs := []; dr_Depth := 1; dr_At := Date cl |}.

(** The [&roFileVersion{...}] that the loop builds for the claim [cl] of
    the directory [n] at [a]. *)
Definition version_of (a : addr) (n : roFileLikeDir) (cl : ClaimsItem)
    (db : DescribedBlob) (fi : FileInfo) : roFileVersion :=
  {| fv_permanode := fl_permanode n; fv_parent := Some a;
     fv_name := DateString (Date cl);
     fv_symLink := false; fv_target := "";
     fv_content := BlobRef db; fv_size := Size fi;
     fv_mtime := 0; fv_atime := 0; fv_xattrs := None |}.

(** The world after one iteration that creates a version. *)
Definition after_version (a : addr) (w : World) (n : roFileLikeDir)
    (ch : gmap string addr) (cl : ClaimsItem) (pn : Ref)
    (db : DescribedBlob) (fi : FileInfo) (c : C) : World :=
  {| heap := <[a := NFileLikeDir
                     (fl_with_children n
                        (Some (<[DateString (Date cl) := length (heap w)]> ch)))]>
               (heap w ++ [NFileVersion (version_of a n cl db fi)])%list;
     client := c;
     queries := queries w ++ [QDescribe (fl_describe_request pn cl)] |}.

(** ** roFileLikeDir: versions and claims *)

(** The children of the directory at [a] are versions made by its
    [populate]: each is a roFileVersion that stores the permanode [P]
    of the directory and has neither [mtime] nor [atime]. *)
Definition versions_of (a : addr) (P : Ref) (w : World) : Prop :=
  exists n ch,
    heap w !! a = Some (NFileLikeDir n)
    /\ fl_permanode n = P
    /\ fl_children n = Some ch
    /\ forall name c, ch !! name = Some c ->
         exists v, heap w !! c = Some (NFileVersion v)
                   /\ fv_permanode v = P
                   /\ fv_mtime v = 0 /\ fv_atime v = 0.

(** The three ways in which the content reference of the claim [cl]
    fails to resolve when the client is in state [c]: what the loop
    returns, the client state and the queries it leaves. *)
Inductive fails_to_resolve (c : C) (cl : ClaimsItem)
  : error -> C -> list Query -> Prop :=
| fails_unparseable :
    Parse (Value cl) = None ->
    fails_to_resolve c cl (Some "invalid blobref") c []
| fails_Describe_error pn c' :
    Parse (Value cl) = Some pn ->
    Describe c (fl_describe_request pn cl) = (None, c') ->
    fails_to_resolve c cl None c' [QDescribe (fl_describe_request pn cl)]
| fails_not_described pn res c' :
    Parse (Value cl) = Some pn ->
    Describe c (fl_describe_request pn cl) = (Some res, c') ->
    Meta res !! Value cl = None ->
    fails_to_resolve c cl (Some "dir blobref not described") c'
                     [QDescribe (fl_describe_request pn cl)].

(** ** Attributes *)

(** [int64] values *)
Definition is_int64 (z : Z) : Prop := - 2 ^ 63 <= z < 2 ^ 63.

(** The permission bits [0222]: write for owner, group and others. *)
Definition perm_write : Z := 146.

(** ** versionsDir: the steps of a refresh *)

Definition root_request : WithAttrRequest :=
  {| wr_N := 100; wr_Attr := "camliRoot" |}.

Definition import_request : WithAttrRequest :=
  {| wr_N := 100; wr_Attr := "camliImportRoot" |}.

(** [dr.BlobRefs] of the batch Describe. *)
Definition found_refs (rootRes impRes : WithAttrResponse) : list Ref :=
  (wi_Permanode <$> WithAttr rootRes) ++ (wi_Permanode <$> WithAttr impRes).

Definition batch_request (rootRes impRes : WithAttrResponse) : DescribeRequest :=
  {| dr_BlobRef := zeroRef; dr_BlobRefs := found_refs rootRes impRes;
     dr_Depth := 1; dr_At := 0 |}.

(** The directory after [n.m = make(...)] and the nil check of
    [n.children]. *)
Definition cleared (n : versionsDir) : versionsDir :=
  {| lastQuery := lastQuery n; vd_m := Some ∅;
     vd_children := Some (default ∅ (vd_children n)) |}.

(** The directory at the end of a refresh that went through. *)
Definition refreshed (n : versionsDir) (rootRes impRes : WithAttrResponse)
    (dres : DescribeResponse) (now2 : Time) : versionsDir :=
  let st := fold_left (add_root dres) (WithAttr rootRes) (∅, ∅) in
  {| lastQuery := now2;
     vd_m := Some (fold_left (add_importer dres) (WithAttr impRes) st.2);
     vd_children := Some (evict st.1 (default ∅ (vd_children n))) |}.

(** The world after the two searches. *)
Definition after_searches (w : World) (c : C) : World :=
  {| heap := heap w; client := c;
     queries := queries w ++ [QWithAttr root_request; QWithAttr import_request] |}.

(** The listing of [ReadDir]: one entry per name of [n.m]. *)
Definition listing (m : option (gmap string Ref)) : list Dirent :=
  (fun kr => {| Name := kr.1; Inode := 0 |}) <$> map_to_list (default ∅ m).

(** The name under which the loop under [// Roots] enters [wi], if it
    enters it. *)
Definition root_name (dres : DescribeResponse) (wi : WithAttrItem) : option string :=
  match Meta dres !! RefString (wi_Permanode wi) with
  | Some db =>
      match Permanode db with
      | Some p =>
          let name := Values_Get (Attr p) "camliRoot" in
          if String.eqb name "" then None else Some name
      | None => None
      end
  | None => None
  end.

(** [strings.Replace] of [":"] and then of ["/"] by ["-"] *)
Definition sanitize (name : string) : string :=
  replace_byte "/"%char "-"%char (replace_byte ":"%char "-"%char name).

(** The name under which the loop under [// Importers] enters [wi]. *)
Definition importer_name (dres : DescribeResponse) (wi : WithAttrItem)
  : option string :=
  match Meta dres !! RefString (wi_Permanode wi) with
  | Some db =>
      match Permanode db with
      | Some p =>
          let name := Values_Get (Attr p) "camliImportRoot" in
          if String.eqb name "" then None
          else Some ("importer-" +:+ sanitize name)
      | None => None
      end
  | None => None
  end.

(** ** roDirV: the children of a directory *)

(** The three kinds of child that the loop of [roDirV.populate]
    creates. *)
Inductive child_kind :=
| KSymlink (target : string)
| KDir
| KFile.

(** What one iteration does with the attribute [k] of values [v]: it
    goes on to the next attribute, it panics, or it creates the child
    [name] for the ref [childRef] described by [cp]. *)
Inductive entry_result :=
| Skipped
| Panics
| Child (name childRef : string) (kind : child_kind) (cp : DescribedPermanode).

Definition entry_child (res : DescribeResponse) (kv : string * list string)
  : entry_result :=
  if negb (String.prefix camliPathPrefix kv.1) || (Z.of_nat (length kv.2) <? 1)
  then Skipped
  else
    let name := string_drop (String.length camliPathPrefix) kv.1 in
    match kv.2 with
    | [] => Panics
    | childRef :: _ =>
        match Meta res !! childRef with
        | None => Skipped
        | Some child =>
            match Permanode child with
            | None => Panics
            | Some cp =>
                let target := Values_Get (Attr cp) "camliSymlinkTarget" in
                if negb (String.eqb target "") then
                  Child name childRef (KSymlink target) cp
                else if isDir cp then Child name childRef KDir cp
                else
                  let contentRef := Values_Get (Attr cp) "camliContent" in
                  if negb (String.eqb contentRef "") then
                    match Meta res !! contentRef with
                    | None => Skipped
                    | Some content =>
                        if negb (String.eqb (CamliType content) "file")
                        then Skipped
                        else Child name childRef KFile cp
                    end
                  else Skipped
            end
        end
    end.

(** The node allocated for a child of the directory at [a]. *)
Definition child_node (a : addr) (name childRef : string) (kind : child_kind)
  : node :=
  match kind with
  | KSymlink target =>
      NFileLikeDir {| fl_permanode := ParseOrZero childRef;
                      fl_parent := Some a; fl_name := name;
                      fl_symLink := true; fl_target := target;
                      fl_children := None; fl_xattrs := None |}
  | KDir =>
      NDirV {| dv_permanode := ParseOrZero childRef;
               dv_parent := Some a; dv_name := name;
               dv_children := None; dv_xattrs := None |}
  | KFile =>
      NFileLikeDir {| fl_permanode := ParseOrZero childRef;
                      fl_parent := Some a; fl_name := name;
                      fl_symLink := false; fl_target := "";
                      fl_children := None; fl_xattrs := None |}
  end.

(** The inode that the type switch of [ReadDir] finds for a node. *)
Definition node_ino (nd : node) : Z :=
  match nd with
  | NDirV v => Sum64 (dv_permanode v)
  | NFileVersion v => Sum64 (fv_permanode v)
  | _ => 0
  end.

(** The children of the roDirV at [a] are the nodes of [sm], name by
    name. *)
Definition children_are (a : addr) (w : World) (sm : gmap string node) : Prop :=
  exists n ch,
    heap w !! a = Some (NDirV n)
    /\ dv_children n = Some ch
    /\ (forall name, ch !! name = None -> sm !! name = None)
    /\ (forall name c, ch !! name = Some c ->
          c <> a /\ exists nd, sm !! name = Some nd /\ heap w !! c = Some nd).

(** What one iteration adds to the children. *)
Definition note_child (a : addr) (res : DescribeResponse)
    (sm : gmap string node) (kv : string * list string) : gmap string node :=
  match entry_child res kv with
  | Child name childRef kind cp =>
      <[name := loaded (child_node a name childRef kind) (xattr_load cp)]> sm
  | _ => sm
  end.

(** A check of the side condition of [roDirV_ReadDir_inodes] that
    computes. *)
Definition no_entry_panics (res : DescribeResponse) (attrs : Values) : bool :=
  forallb (fun kv => match entry_child res kv with Panics => false | _ => true end)
          (map_to_list attrs).

(** ** roFileLikeDir: claims that all resolve *)

(** What the loop of [roFileLikeDir.populate] reads for one claim: the
    claim, the ref parsed from its value, the described blob and its
    file information. *)
Definition version_source : Type := ClaimsItem * Ref * DescribedBlob * FileInfo.

(** The run of the loop in which no claim leaves the function early:
    every value parses, every Describe answers and describes the value
    with file information.  The result is what the loop read, claim by
    claim, and the state in which it leaves the client. *)
Fixpoint resolve_claims (c : C) (cls : list ClaimsItem)
  : option (list version_source * C) :=
  match cls with
  | [] => Some ([], c)
  | cl :: rest =>
      match Parse (Value cl) with
      | None => None
      | Some pn =>
          match Describe c (fl_describe_request pn cl) with
          | (None, _) => None
          | (Some res, c1) =>
              match Meta res !! Value cl with
              | None => None
              | Some db =>
                  match File db with
                  | None => None
                  | Some fi =>
                      match resolve_claims c1 rest with
                      | None => None
                      | Some (vs, c') => Some ((cl, pn, db, fi) :: vs, c')
                      end
                  end
              end
          end
      end
  end.

(** [n.children] after the loop has stored the versions of [vs], the
    first of them allocated at the address [h]. *)
Fixpoint versions_after (h : addr) (ch : gmap string addr)
    (vs : list version_source) : gmap string addr :=
  match vs with
  | [] => ch
  | (cl, _, _, _) :: rest =>
      versions_after (S h) (<[DateString (Date cl) := h]> ch) rest
  end.

(** The position of the last claim of [vs] whose date renders to
    [name]. *)
Fixpoint last_version (name : string) (vs : list version_source) : option nat :=
  match vs with
  | [] => None
  | (cl, _, _, _) :: rest =>
      match last_version name rest with
      | Some i => Some (S i)
      | None => if String.eqb (DateString (Date cl)) name then Some 0%nat else None
      end
  end.

(** The Describe of one claim. *)
Definition version_request (v : version_source) : Query :=
  QDescribe (fl_describe_request v.1.1.2 v.1.1.1).

(** ** versionsDir: which permanode a name is mapped to *)

(** The permanode of the last item of [l] that the loop enters under
    [name], when [naming] gives the name under which an item is
    entered. *)
Fixpoint last_named (naming : WithAttrItem -> option string) (name : string)
    (l : list WithAttrItem) : option Ref :=
  match l with
  | [] => None
  | wi :: l' =>
      match last_named naming name l' with
      | Some pn => Some pn
      | None => if decide (naming wi = Some name) then Some (wi_Permanode wi)
                else None
      end
  end.

(** The entry of [name] in [n.m] after a refresh that went through: an
    import root of that name comes before a root of that name. *)
Definition resolved_ref (rootRes impRes : WithAttrResponse)
    (dres : DescribeResponse) (name : string) : option Ref :=
  match last_named (importer_name dres) name (WithAttr impRes) with
  | Some pn => Some pn
  | None => last_named (root_name dres) name (WithAttr rootRes)
  end.

(** Whenever the name map of a versionsDir is made, so is its children
    map: [condRefresh] makes both. *)
Definition maps_made_together (n : versionsDir) : Prop :=
  vd_children n = None -> vd_m n = None.

(** A string without the byte [c]. *)
Fixpoint without_byte (c : ascii) (s : string) : bool :=
  match s with
  | EmptyString => true
  | String c' s' => negb (Ascii.eqb c' c) && without_byte c s'
  end.

(** ** The directory handlers as steps of a mount *)

(** [Attr] by the dynamic type of a node. *)
Definition node_Attr (nd : node) : Attr_t :=
  match nd with
  | NVersions n => versionsDir_Attr n
  | NDirV n => roDirV_Attr n
  | NFileLikeDir n => roFileLikeDir_Attr n
  | NFileVersion n => roFileVersion_Attr n
  end.

(** One call of [ReadDir] or [Lookup] that returns, on a node of one of
    the three directory types: the world before and the world after. *)
Inductive handler_step : World -> World -> Prop :=
| step_roDirV_ReadDir a r w w' :
    roDirV_ReadDir a w = Some (r, w') -> handler_step w w'
| step_roDirV_Lookup a name r w w' :
    roDirV_Lookup a name w = Some (r, w') -> handler_step w w'
| step_roFileLikeDir_ReadDir a r w w' :
    roFileLikeDir_ReadDir a w = Some (r, w') -> handler_step w w'
| step_roFileLikeDir_Lookup a name r w w' :
    roFileLikeDir_Lookup a name w = Some (r, w') -> handler_step w w'
| step_versionsDir_ReadDir a now1 now2 r w w' :
    versionsDir_ReadDir a now1 now2 w = Some (r, w') -> handler_step w w'
| step_versionsDir_Lookup a name now1 now2 r w w' :
    versionsDir_Lookup a name now1 now2 w = Some (r, w') -> handler_step w w'.

(** What a handler keeps of the world: every node stays where it is,
    with its type and the fields its [Attr] reads; only the node at [a]
    may differ at all; the log of queries grows at its end. *)
Definition same_identity (nd nd' : node) : Prop :=
  match nd, nd' with
  | NVersions _, NVersions _ => True
  | NDirV d, NDirV d' =>
      dv_permanode d' = dv_permanode d /\ dv_parent d' = dv_parent d
      /\ dv_name d' = dv_name d /\ dv_xattrs d' = dv_xattrs d
  | NFileLikeDir d, NFileLikeDir d' =>
      fl_permanode d' = fl_permanode d /\ fl_parent d' = fl_parent d
      /\ fl_name d' = fl_name d /\ fl_symLink d' = fl_symLink d
      /\ fl_target d' = fl_target d /\ fl_xattrs d' = fl_xattrs d
  | NFileVersion v, NFileVersion v' => v' = v
  | _, _ => False
  end.

Definition touches_only (a : addr) (w w' : World) : Prop :=
  (forall b nd, b <> a -> heap w !! b = Some nd -> heap w' !! b = Some nd)
  /\ (forall nd, heap w !! a = Some nd ->
        exists nd', heap w' !! a = Some nd' /\ same_identity nd nd')
  /\ exists qs, queries w' = queries w ++ qs.

(** ** Listings *)

(** [ReadDir] of a directory of one of the three types has returned the
    listing [ents]. *)
Inductive lists : World -> list Dirent -> Prop :=
| lists_roDirV a w w' ents :
    roDirV_ReadDir a w = Some (Ok ents, w') -> lists w ents
| lists_roFileLikeDir a w w' ents :
    roFileLikeDir_ReadDir a w = Some (Ok ents, w') -> lists w ents
| lists_versionsDir a now1 now2 w w' ents :
    versionsDir_ReadDir a now1 now2 w = Some (Ok ents, w') -> lists w ents.

(** ** versionsDir: the refreshes that fail *)

(** The two ways in which a due refresh fails, given the answers [r1]
    and [r2] of the two searches and the state [c2] in which they leave
    the client: a search has failed; or both have answered, have found a
    permanode, and the batch Describe fails.  The indices are the state
    in which the failure leaves the client and the queries sent after
    the searches. *)
Inductive refresh_fails (c2 : C) (r1 r2 : option WithAttrResponse)
  : C -> list Query -> Prop :=
| search_fails :
    r1 = None \/ r2 = None ->
    refresh_fails c2 r1 r2 c2 []
| Describe_fails rootRes impRes c3 :
    r1 = Some rootRes ->
    r2 = Some impRes ->
    found_refs rootRes impRes <> [] ->
    Describe c2 (batch_request rootRes impRes) = (None, c3) ->
    refresh_fails c2 r1 r2 c3 [QDescribe (batch_request rootRes impRes)].

End Fs.

(** The notation of the monad, for the statements below. *)
Notation "'let*' x ':=' m 'in' k" := (bind m (fun x => k))
  (at level 10, x pattern, m at level 100, k at level 200).

(** * cmd/camtool/versions.go *)

Section CamtoolEnv.
Context `{BlobAPI}.

(** What [versionsCmd.RunCommand] uses of the Go library and of the
    other files of camtool.  A call that returns [(x, err)] in Go gives
    [None] for [err != nil]. *)
Class CmdEnv (C : Type) := {
  Stdin_ReadAll : option string;       (* ioutil.ReadAll(cmdmain.Stdin) *)
  TrimSpace : string -> string;        (* strings.TrimSpace *)
  Sprintf_q : string -> string;        (* fmt.Sprintf with the verb q *)
  newClient : string -> C;             (* newClient(c.server) *)
  MarshalIndent : ClaimsResponse -> option string;
                                       (* json.MarshalIndent(res, prefix, indent) *)
  Stdout_Write : string -> bool;       (* os.Stdout.Write(b): err == nil *)
}.

End CamtoolEnv.

Section Camtool.
Context `{BlobAPI} {C : Type} `{!SearchClient C} `{!CmdEnv C}.

(** [type versionsCmd struct] *)
Record versionsCmd := {
  server : string;
  limit : Z;
  describe : bool;
}.

(** The errors that [RunCommand] returns: a [cmdmain.UsageError], or
    the error of the call that failed. *)
Inductive cmdError :=
| UsageError (msg : string)
| ErrReadAll
| ErrGetClaims
| ErrMarshalIndent
| ErrWrite.

(** What a run of the command does: the error it returns (nil is
    [None]), the queries it sends and the byte strings it passes to
    [os.Stdout.Write]. *)
Record cmdRun := {
  returned : option cmdError;
  sent : list Query;
  written : list string;
}.

(** The byte ['\n'] *)
Definition newline : string := String (ascii_of_nat 10) EmptyString.

(** [func (c *versionsCmd) RunCommand(args []string) error] *)
Definition RunCommand (c : versionsCmd) (args : list string) : cmdRun :=
  match args with
  | [arg] =>                                   (* len(args) == 1 *)
      let slurp := if String.eqb arg "-" then Stdin_ReadAll else Some arg in
      match slurp with
      | None => {| returned := Some ErrReadAll; sent := []; written := [] |}
      | Some pn =>
          let pn := TrimSpace pn in
          match Parse pn with
          | None =>
              {| returned := Some (UsageError ("invalid blobref " +:+ Sprintf_q pn));
                 sent := []; written := [] |}
          | Some br =>
              let req := {| cr_Permanode := br; cr_AttrFilter := "camliContent" |} in
              match GetClaims (newClient (server c)) req with
              | (None, _) =>
                  {| returned := Some ErrGetClaims; sent := [QGetClaims req];
                     written := [] |}
              | (Some res, _) =>
                  match MarshalIndent res with
                  | None =>
                      {| returned := Some ErrMarshalIndent;
                         sent := [QGetClaims req]; written := [] |}
                  | Some resj =>
                      let resj := resj +:+ newline in
                      {| returned := if Stdout_Write resj then None
                                     else Some ErrWrite;
                         sent := [QGetClaims req]; written := [resj] |}
                  end
              end
          end
      end
  | _ => {| returned := Some (UsageError "requires permanode");
            sent := []; written := [] |}
  end.

End Camtool.

(** * Test doubles *)

(** [evaluated H t] runs the closed term [t] and records its value as
    [H : t = value]; [evaluate_in H] runs the left-hand side of the
    equation [H]. *)
Ltac evaluated H t :=
  let r := eval vm_compute in t in assert (H : t = r) by reflexivity.

Ltac evaluate_in H :=
  match type of H with
  | ?t = _ =>
      let E := fresh "E" in
      evaluated E t; rewrite E in H; clear E
  end.

Section Doubles.

(** A blob package for the examples: a ref is its own text, the zero
    ref is the empty text, and the hash is a polynomial hash of the
    text. *)
Definition td_hash (s : string) : Z :=
  fold_left (fun acc b => (acc * 31 + Z.of_N (N_of_ascii b)) mod 2 ^ 64)
            (String.list_ascii_of_string s) 0.

Definition td_blob : BlobAPI :=
  {| Ref := string;
     zeroRef := "";
     Valid := fun r => negb (String.eqb r "");
     Parse := fun s => if String.prefix "sha1-" s then Some s else None;
     ParseOrZero := fun s => if String.prefix "sha1-" s then s else "";
     RefString := fun r => r;
     Sum64 := td_hash |}.

#[local] Existing Instance td_blob.

Definition td_env : FsEnv :=
  {| isDir := fun p =>
       String.eqb (Values_Get (Attr p) "camliNodeType") "directory";
     xattr_load := fun _ => Some ∅;
     isWriteFlags := fun f => negb (Z.land f 3 =? 0);
     serverStart := 1700000000000000000;
     Getuid := 1000; Getgid := 1000;
     DateString := fun t => pretty t;
     FileReader := unit;
     NewFileReader := fun _ => Some tt;
     OpenDirectIO := 1 |}.

#[local] Existing Instance td_env.

(** A scripted client: every call takes the next answer of its kind
    from the script, and fails when the script has run out. *)
Record Script := {
  on_Describe : list (option DescribeResponse);
  on_GetClaims : list (option ClaimsResponse);
  on_WithAttr : list (option WithAttrResponse);
}.

Definition td_client : SearchClient Script :=
  {| Describe := fun c _ =>
       match on_Describe c with
       | [] => (None, c)
       | r :: l => (r, {| on_Describe := l; on_GetClaims := on_GetClaims c;
                          on_WithAttr := on_WithAttr c |})
       end;
     GetClaims := fun c _ =>
       match on_GetClaims c with
       | [] => (None, c)
       | r :: l => (r, {| on_Describe := on_Describe c; on_GetClaims := l;
                          on_WithAttr := on_WithAttr c |})
       end;
     GetPermanodesWithAttr := fun c _ =>
       match on_WithAttr c with
       | [] => (None, c)
       | r :: l => (r, {| on_Describe := on_Describe c;
                          on_GetClaims := on_GetClaims c; on_WithAttr := l |})
       end |}.

#[local] Existing Instance td_client.

Definition script (ds : list (option DescribeResponse))
    (cs : list (option ClaimsResponse)) (ws : list (option WithAttrResponse))
  : Script :=
  {| on_Describe := ds; on_GetClaims := cs; on_WithAttr := ws |}.

(** A described permanode and a described file. *)
Definition td_permanode (ref : string) (attrs : list (string * list string))
  : DescribedBlob :=
  {| BlobRef := ref; CamliType := "permanode";
     Permanode := Some {| Attr := list_to_map attrs |}; File := None |}.

Definition td_file (ref : string) (size : Z) : DescribedBlob :=
  {| BlobRef := ref; CamliType := "file"; Permanode := None;
     File := Some {| Size := size |} |}.

Definition world (h : list node) (c : Script) : World :=
  {| heap := h; client := c; queries := [] |}.

(** *** A directory whose Describe fails (C2) *)

Definition dirP : roDirV := newRODirV "sha1-P" "root".

Definition w_dirP_down : World := world [NDirV dirP] (script [None; None] [] []).

(** *** A versioned file with a claim that does not resolve (C1) *)

Definition t1 : Time := 1577836800000000000.
Definition t2 : Time := 1590969600000000000.

Definition fileF : roFileLikeDir := newROFileLikeDir "sha1-F" "notes.txt".

Definition claimA : ClaimsItem := {| Value := "sha1-A"; Date := t1 |}.
Definition claimB : ClaimsItem := {| Value := "sha1-B"; Date := t2 |}.
Definition claim_bad : ClaimsItem := {| Value := "garbage"; Date := t2 |}.

Definition describedA : DescribeResponse :=
  {| Meta := {[ "sha1-A" := td_file "sha1-A" 10 ]} |}.
Definition describedB : DescribeResponse :=
  {| Meta := {[ "sha1-B" := td_file "sha1-B" 20 ]} |}.

(** The second claim has a value that is no blobref. *)
Definition w_fileF_bad : World :=
  world [NFileLikeDir fileF]
        (script [Some describedA]
                [Some {| Claims := [claimA; claim_bad] |}] []).

(** The Describe of the second claim fails. *)
Definition w_fileF_down : World :=
  world [NFileLikeDir fileF]
        (script [Some describedA; None]
                [Some {| Claims := [claimA; claimB] |}] []).

(** *** A directory with a subdirectory, a file and a symlink (C3) *)

Definition describedP : DescribeResponse :=
  {| Meta := list_to_map
       [("sha1-P", td_permanode "sha1-P"
                     [("camliPath:a", ["sha1-X"]); ("camliPath:b", ["sha1-Y"]);
                      ("camliPath:c", ["sha1-L"]); ("title", ["pictures"])]);
        ("sha1-X", td_permanode "sha1-X" [("camliNodeType", ["directory"])]);
        ("sha1-Y", td_permanode "sha1-Y" [("camliContent", ["sha1-C"])]);
        ("sha1-L", td_permanode "sha1-L" [("camliSymlinkTarget", ["../a"])]);
        ("sha1-C", td_file "sha1-C" 10)] |}.

Definition attrsP : Values :=
  list_to_map [("camliPath:a", ["sha1-X"]); ("camliPath:b", ["sha1-Y"]);
               ("camliPath:c", ["sha1-L"]); ("title", ["pictures"])].

Definition w_dirP : World := world [NDirV dirP] (script [Some describedP] [] []).

(** *** The root listing (C4, C5, C6, C10) *)

Definition noon : Time := 1700000000000000000.
Definition second : Z := 1000000000.

Definition td_item (r : string) : WithAttrItem :=
  @Build_WithAttrItem td_blob r.

Definition found (refs : list string) : option WithAttrResponse :=
  Some {| WithAttr := td_item <$> refs |}.

(** The directory as mounted, and a store with no root at all. *)
Definition rootsDir0 : versionsDir :=
  {| lastQuery := 0; vd_m := None; vd_children := None |}.

Definition w_empty_store : World :=
  world [NVersions rootsDir0]
        (script [] [] [found []; found []; found []; found []]).

(** A mounted directory that knows the root "photos" and has memoized
    its child, a minute or more after its last refresh. *)
Definition photos_old : roDirV := newRODirV "sha1-R" "photos".

Definition rootsDir_photos : versionsDir :=
  {| lastQuery := noon - 2 * Minute;
     vd_m := Some {[ "photos" := "sha1-R" ]};
     vd_children := Some {[ "photos" := 1%nat ]} |}.

Definition describedR : DescribeResponse :=
  {| Meta := {[ "sha1-R" := td_permanode "sha1-R" [("camliRoot", ["photos"])] ]} |}.

(** The searches find the root and the batch Describe fails. *)
Definition w_describe_down : World :=
  world [NVersions rootsDir_photos; NDirV photos_old]
        (script [None] [] [found ["sha1-R"]; found []; None; None]).

(** The root "photos" is gone and the store is empty; later a root of
    that name is found again, on another permanode. *)
Definition describedR2 : DescribeResponse :=
  {| Meta := {[ "sha1-R2" := td_permanode "sha1-R2" [("camliRoot", ["photos"])] ]} |}.

Definition w_photos_gone : World :=
  world [NVersions rootsDir_photos; NDirV photos_old]
        (script [Some describedR2] []
                [found []; found []; found ["sha1-R2"]; found []]).

(** *** The mutation handlers (C7) *)

Definition versionA : roFileVersion :=
  {| fv_permanode := "sha1-F"; fv_parent := Some 0%nat;
     fv_name := DateString t1; fv_symLink := false; fv_target := "";
     fv_content := "sha1-A"; fv_size := 10; fv_mtime := 0; fv_atime := 0;
     fv_xattrs := None |}.

(** [O_WRONLY] and [O_RDWR] *)
Definition O_WRONLY : Z := 1.
Definition O_RDWR : Z := 2.

(** *** A versioned file with two versions (C8, C9) *)

Definition w_fileF : World :=
  world [NFileLikeDir fileF]
        (script [Some describedA; Some describedB]
                [Some {| Claims := [claimA; claimB] |}] []).

Definition versionB : roFileVersion :=
  {| fv_permanode := "sha1-F"; fv_parent := Some 0%nat;
     fv_name := DateString t2; fv_symLink := false; fv_target := "";
     fv_content := "sha1-B"; fv_size := 20; fv_mtime := 0; fv_atime := 0;
     fv_xattrs := None |}.

(** The world after the population of [w_fileF]. *)
Definition w_fileF_populated : World :=
  {| heap := [NFileLikeDir
                {| fl_permanode := "sha1-F"; fl_parent := None;
                   fl_name := "notes.txt"; fl_symLink := false; fl_target := "";
                   fl_children := Some (<[DateString t2 := 2%nat]>
                                          {[ DateString t1 := 1%nat ]});
                   fl_xattrs := None |};
              NFileVersion versionA; NFileVersion versionB];
     client := script [] [] [];
     queries := [QGetClaims (fl_claims_request fileF);
                 QDescribe (fl_describe_request (H := td_blob) "sha1-A" claimA);
                 QDescribe (fl_describe_request (H := td_blob) "sha1-B" claimB)] |}.

(** *** The child of an import root (C10) *)

Definition flickr : string := "importer-flickr-user-1".

(** The memoized child of the import root, already populated. *)
Definition flickr_old : roDirV :=
  {| dv_permanode := "sha1-I"; dv_parent := None; dv_name := flickr;
     dv_children := Some ∅; dv_xattrs := None |}.

Definition rootsDir_flickr : versionsDir :=
  {| lastQuery := noon - 2 * Minute;
     vd_m := Some (<[flickr := "sha1-I"]> {[ "photos" := "sha1-R" ]});
     vd_children := Some {[ flickr := 1%nat ]} |}.

Definition describedRI : DescribeResponse :=
  {| Meta := list_to_map
       [("sha1-R", td_permanode "sha1-R" [("camliRoot", ["photos"])]);
        ("sha1-I", td_permanode "sha1-I" [("camliImportRoot", ["flickr:user/1"])])] |}.

Definition w_flickr : World :=
  world [NVersions rootsDir_flickr; NDirV flickr_old]
        (script [Some describedRI] [] [found ["sha1-R"]; found ["sha1-I"]]).



(** *** Directories whose Describe leaves something out *)

(** The answer describes another blob, twice. *)
Definition w_dirP_other : World :=
  world [NDirV dirP] (script [Some describedA; Some describedA] [] []).

(** The path [a] of the directory names a file blob, which is described
    without permanode information. *)
Definition describedP_file : DescribeResponse :=
  {| Meta := list_to_map
       [("sha1-P", td_permanode "sha1-P" [("camliPath:a", ["sha1-C"])]);
        ("sha1-C", td_file "sha1-C" 10)] |}.

Definition w_dirP_file : World :=
  world [NDirV dirP] (script [Some describedP_file] [] []).

(** *** Versioned files: a failing GetClaims, two claims of one date, a
    claim whose content is no file *)

Definition w_fileF_claims_down : World :=
  world [NFileLikeDir fileF] (script [] [None; None] []).

(** A second claim with the date of [claimA]. *)
Definition claimA2 : ClaimsItem := {| Value := "sha1-B"; Date := t1 |}.

Definition w_fileF_same_date : World :=
  world [NFileLikeDir fileF]
        (script [Some describedA; Some describedB]
                [Some {| Claims := [claimA; claimA2] |}] []).

(** The content of the second claim is described as a permanode. *)
Definition describedB_permanode : DescribeResponse :=
  {| Meta := {[ "sha1-B" := td_permanode "sha1-B" [] ]} |}.

Definition w_fileF_no_file : World :=
  world [NFileLikeDir fileF]
        (script [Some describedA; Some describedB_permanode]
                [Some {| Claims := [claimA; claimB] |}] []).

(** *** A root that has moved to another permanode *)

(** The root "photos" is found again, now on the permanode sha1-R2. *)
Definition w_photos_moved : World :=
  world [NVersions rootsDir_photos; NDirV photos_old]
        (script [Some describedR2] [] [found ["sha1-R2"]; found []]).

(** *** camtool versions *)

(** A [strings.TrimSpace] for texts with blanks and newlines only. *)
Definition td_blank (c : ascii) : bool :=
  Ascii.eqb c " "%char || Ascii.eqb c (ascii_of_nat 10).

Fixpoint td_trim_left (s : string) : string :=
  match s with
  | String c s' => if td_blank c then td_trim_left s' else s
  | EmptyString => EmptyString
  end.

Fixpoint td_trim_right (s : string) : string :=
  match s with
  | String c s' =>
      match td_trim_right s' with
      | EmptyString => if td_blank c then EmptyString else String c EmptyString
      | t => String c t
      end
  | EmptyString => EmptyString
  end.

Definition td_quote : string := String (ascii_of_nat 34) EmptyString.

(** The command on a server that holds the two claims of [w_fileF], with
    the permanode piped on standard input, and a JSON double that
    prints the claimed values. *)
Definition td_cmd : CmdEnv Script :=
  {| Stdin_ReadAll := Some (" sha1-F" +:+ newline);
     TrimSpace := fun s => td_trim_right (td_trim_left s);
     Sprintf_q := fun s => td_quote +:+ s +:+ td_quote;
     newClient := fun _ =>
       script [Some describedA; Some describedB]
              [Some {| Claims := [claimA; claimB] |}] [];
     MarshalIndent := fun res => Some (String.concat "," (Value <$> Claims res));
     Stdout_Write := fun _ => true |}.

#[local] Existing Instance td_cmd.

Definition versions_cmd : versionsCmd :=
  {| server := ""; limit := 0; describe := false |}.

(** *** A root that has been replaced by another *)

(** The root "photos" is gone and a root "music" is found. *)
Definition describedM : DescribeResponse :=
  {| Meta := {[ "sha1-M" := td_permanode "sha1-M" [("camliRoot", ["music"])] ]} |}.

Definition w_photos_replaced : World :=
  world [NVersions rootsDir_photos; NDirV photos_old]
        (script [Some describedM] [] [found ["sha1-M"]; found []]).

End Doubles.

(** * Properties *)

Section FsFacts.
Context `{FsEnv} {C : Type} `{!SearchClient C}.

Implicit Types w : @World _ C.

(** ** Stepping through the monad *)

Lemma the_roDirV_eq a w n :
  heap w !! a = Some (NDirV n) -> the_roDirV a w = Some (n, w).
Proof. intros Ha. unfold the_roDirV, bind, deref. rewrite Ha. reflexivity. Qed.

Lemma the_roFileLikeDir_eq a w n :
  heap w !! a = Some (NFileLikeDir n) -> the_roFileLikeDir a w = Some (n, w).
Proof. intros Ha. unfold the_roFileLikeDir, bind, deref. rewrite Ha. reflexivity. Qed.

Lemma the_versionsDir_eq a w n :
  heap w !! a = Some (NVersions n) -> the_versionsDir a w = Some (n, w).
Proof. intros Ha. unfold the_versionsDir, bind, deref. rewrite Ha. reflexivity. Qed.

Lemma bind_eq {A B} (m : M A) (k : A -> M B) w x w' :
  m w = Some (x, w') -> bind m k w = k x w'.
Proof. intros Hm. unfold bind. rewrite Hm. reflexivity. Qed.

Lemma call_Describe_eq w r res c :
  Describe (client w) r = (res, c) ->
  call_Describe r w = Some (res, after_query w (QDescribe r) c).
Proof. intros Hd. unfold call_Describe. rewrite Hd. reflexivity. Qed.

Lemma call_GetClaims_eq w r res c :
  GetClaims (client w) r = (res, c) ->
  call_GetClaims r w = Some (res, after_query w (QGetClaims r) c).
Proof. intros Hd. unfold call_GetClaims. rewrite Hd. reflexivity. Qed.

Lemma call_GetPermanodesWithAttr_eq w r res c :
  GetPermanodesWithAttr (client w) r = (res, c) ->
  call_GetPermanodesWithAttr r w = Some (res, after_query w (QWithAttr r) c).
Proof. intros Hd. unfold call_GetPermanodesWithAttr. rewrite Hd. reflexivity. Qed.

(** ** roDirV: a failing Describe *)

Lemma roDirV_populate_populated a w n :
  heap w !! a = Some (NDirV n) ->
  is_Some (dv_children n) ->
  roDirV_populate a w = Some (None, w).
Proof.
  intros Ha [ch Hch]. unfold roDirV_populate.
  rewrite (bind_eq _ _ _ _ _ (the_roDirV_eq _ _ _ Ha)).
  rewrite Hch. reflexivity.
Qed.

Lemma roDirV_populate_Describe_error a w n c :
  heap w !! a = Some (NDirV n) ->
  dv_children n = None ->
  Describe (client w) (dv_describe_request n) = (None, c) ->
  roDirV_populate a w
  = Some (None, after_query w (QDescribe (dv_describe_request n)) c).
Proof.
  intros Ha Hch Hd. unfold roDirV_populate.
  rewrite (bind_eq _ _ _ _ _ (the_roDirV_eq _ _ _ Ha)).
  rewrite Hch.
  rewrite (bind_eq _ _ _ _ _ (call_Describe_eq _ _ _ _ Hd)).
  reflexivity.
Qed.

(** The one failure of [roDirV.populate] that does reach the caller:
    the response does not describe the directory itself. *)
Lemma roDirV_populate_not_described a w n res c :
  heap w !! a = Some (NDirV n) ->
  dv_children n = None ->
  Describe (client w) (dv_describe_request n) = (Some res, c) ->
  Meta res !! RefString (dv_permanode n) = None ->
  roDirV_populate a w
  = Some (Some "dir blobref not described",
          after_query w (QDescribe (dv_describe_request n)) c).
Proof.
  intros Ha Hch Hd Hm. unfold roDirV_populate.
  rewrite (bind_eq _ _ _ _ _ (the_roDirV_eq _ _ _ Ha)).
  rewrite Hch.
  rewrite (bind_eq _ _ _ _ _ (call_Describe_eq _ _ _ _ Hd)).
  rewrite Hm. reflexivity.
Qed.

Lemma roDirV_ReadDir_not_described a w n res c :
  heap w !! a = Some (NDirV n) ->
  dv_children n = None ->
  Describe (client w) (dv_describe_request n) = (Some res, c) ->
  Meta res !! RefString (dv_permanode n) = None ->
  roDirV_ReadDir a w
  = Some (Err EIO, after_query w (QDescribe (dv_describe_request n)) c).
Proof.
  intros Ha Hch Hd Hm. unfold roDirV_ReadDir.
  rewrite (bind_eq _ _ _ _ _ (roDirV_populate_not_described _ _ _ _ _ Ha Hch Hd Hm)).
  reflexivity.
Qed.

(** C2, as the code has it.  When the depth-3 Describe of an unpopulated
    roDirV fails, [populate] logs the error and returns nil: [ReadDir]
    answers with an empty listing and no error, [Lookup] answers ENOENT,
    neither answers EIO.  The children map stays nil and the heap is
    untouched, so the next call sends the Describe again. *)
Theorem roDirV_Describe_error_swallowed a name w n c c2 :
  heap w !! a = Some (NDirV n) ->
  dv_children n = None ->
  Describe (client w) (dv_describe_request n) = (None, c) ->
  Describe c (dv_describe_request n) = (None, c2) ->
  roDirV_ReadDir a w
  = Some (Ok [], after_query w (QDescribe (dv_describe_request n)) c)
  /\ roDirV_Lookup a name w
     = Some (Err ENOENT, after_query w (QDescribe (dv_describe_request n)) c)
  /\ heap (after_query w (QDescribe (dv_describe_request n)) c) = heap w
  /\ roDirV_ReadDir a (after_query w (QDescribe (dv_describe_request n)) c)
     = Some (Ok [],
             after_query (after_query w (QDescribe (dv_describe_request n)) c)
                         (QDescribe (dv_describe_request n)) c2).
Proof.
  intros Ha Hch Hd Hd2.
  pose proof (roDirV_populate_Describe_error _ _ _ _ Ha Hch Hd) as Hp.
  assert (Hrd : forall w1 c1,
             heap w1 !! a = Some (NDirV n) ->
             Describe (client w1) (dv_describe_request n) = (None, c1) ->
             roDirV_ReadDir a w1
             = Some (Ok [], after_query w1 (QDescribe (dv_describe_request n)) c1)).
  { intros w1 c1 Ha1 Hd1. unfold roDirV_ReadDir.
    rewrite (bind_eq _ _ _ _ _ (roDirV_populate_Describe_error _ _ _ _ Ha1 Hch Hd1)).
    cbn beta iota.
    rewrite (bind_eq _ _ _ n (after_query w1 (QDescribe (dv_describe_request n)) c1));
      [| apply the_roDirV_eq; exact Ha1].
    unfold bind, get_heap, ret. rewrite Hch. reflexivity. }
  split; [| split; [| split]].
  - apply Hrd; assumption.
  - unfold roDirV_Lookup. rewrite (bind_eq _ _ _ _ _ Hp). cbn beta iota.
    rewrite (bind_eq _ _ _ n (after_query w (QDescribe (dv_describe_request n)) c));
      [| apply the_roDirV_eq; exact Ha].
    rewrite Hch. cbn. rewrite lookup_empty. reflexivity.
  - reflexivity.
  - apply Hrd; [exact Ha | exact Hd2].
Qed.

(** ** roFileLikeDir: the loop over the claims *)

Lemma fl_populate_claims_step a w n ch cl rest pn res c db fi :
  heap w !! a = Some (NFileLikeDir n) ->
  fl_children n = Some ch ->
  Parse (Value cl) = Some pn ->
  Describe (client w) (fl_describe_request pn cl) = (Some res, c) ->
  Meta res !! Value cl = Some db ->
  File db = Some fi ->
  fl_populate_claims a (cl :: rest) w
  = fl_populate_claims a rest (after_version a w n ch cl pn db fi c).
Proof.
  intros Ha Hch Hp Hd Hm Hf. cbn [fl_populate_claims]. rewrite Hp.
  rewrite (bind_eq _ _ _ _ _ (call_Describe_eq _ _ _ _ Hd)). rewrite Hm.
  assert (Ha' : heap (after_query w (QDescribe (fl_describe_request pn cl)) c) !! a
                = Some (NFileLikeDir n)) by exact Ha.
  rewrite (bind_eq _ _ _ _ _ (the_roFileLikeDir_eq _ _ _ Ha')). rewrite Hf.
  unfold bind at 1. unfold new at 1. cbn [heap client queries after_query].
  unfold fl_set_child.
  assert (Hlt : (a < length (heap w))%nat) by (eapply lookup_lt_Some; exact Ha).
  unfold bind at 1.
  erewrite (bind_eq _ _ _ n); [| apply the_roFileLikeDir_eq; cbn [heap];
                                  rewrite lookup_app_l by exact Hlt; exact Ha].
  rewrite Hch. unfold store. reflexivity.
Qed.

Lemma fl_populate_claims_unparseable a w cl rest :
  Parse (Value cl) = None ->
  fl_populate_claims a (cl :: rest) w = Some (Some "invalid blobref", w).
Proof. intros Hp. cbn [fl_populate_claims]. rewrite Hp. reflexivity. Qed.

Lemma fl_populate_claims_Describe_error a w cl rest pn c :
  Parse (Value cl) = Some pn ->
  Describe (client w) (fl_describe_request pn cl) = (None, c) ->
  fl_populate_claims a (cl :: rest) w
  = Some (None, after_query w (QDescribe (fl_describe_request pn cl)) c).
Proof.
  intros Hp Hd. cbn [fl_populate_claims]. rewrite Hp.
  rewrite (bind_eq _ _ _ _ _ (call_Describe_eq _ _ _ _ Hd)). reflexivity.
Qed.

Lemma fl_populate_claims_not_described a w cl rest pn res c :
  Parse (Value cl) = Some pn ->
  Describe (client w) (fl_describe_request pn cl) = (Some res, c) ->
  Meta res !! Value cl = None ->
  fl_populate_claims a (cl :: rest) w
  = Some (Some "dir blobref not described",
          after_query w (QDescribe (fl_describe_request pn cl)) c).
Proof.
  intros Hp Hd Hm. cbn [fl_populate_claims]. rewrite Hp.
  rewrite (bind_eq _ _ _ _ _ (call_Describe_eq _ _ _ _ Hd)). rewrite Hm.
  reflexivity.
Qed.

Lemma roFileLikeDir_populate_populated a w n :
  heap w !! a = Some (NFileLikeDir n) ->
  is_Some (fl_children n) ->
  roFileLikeDir_populate a w = Some (None, w).
Proof.
  intros Ha [ch Hch]. unfold roFileLikeDir_populate.
  rewrite (bind_eq _ _ _ _ _ (the_roFileLikeDir_eq _ _ _ Ha)).
  rewrite Hch. reflexivity.
Qed.

(** [populate] up to the loop: the claims are fetched and the children
    map is made before the first claim is looked at. *)
Lemma roFileLikeDir_populate_loop a w n res c :
  heap w !! a = Some (NFileLikeDir n) ->
  fl_children n = None ->
  GetClaims (client w) (fl_claims_request n) = (Some res, c) ->
  roFileLikeDir_populate a w
  = fl_populate_claims a (Claims res)
      {| heap := <[a := NFileLikeDir (fl_with_children n (Some ∅))]> (heap w);
         client := c;
         queries := queries w ++ [QGetClaims (fl_claims_request n)] |}.
Proof.
  intros Ha Hch Hg. unfold roFileLikeDir_populate.
  rewrite (bind_eq _ _ _ _ _ (the_roFileLikeDir_eq _ _ _ Ha)).
  rewrite Hch.
  rewrite (bind_eq _ _ _ _ _ (call_GetClaims_eq _ _ _ _ Hg)).
  reflexivity.
Qed.

(** The failure that is retried: GetClaims itself fails, before the
    children map is made. *)
Lemma roFileLikeDir_populate_GetClaims_error a w n c :
  heap w !! a = Some (NFileLikeDir n) ->
  fl_children n = None ->
  GetClaims (client w) (fl_claims_request n) = (None, c) ->
  roFileLikeDir_populate a w
  = Some (Some "fs.roFileLikeDir: GetClaims error in ReadDir:",
          after_query w (QGetClaims (fl_claims_request n)) c).
Proof.
  intros Ha Hch Hg. unfold roFileLikeDir_populate.
  rewrite (bind_eq _ _ _ _ _ (the_roFileLikeDir_eq _ _ _ Ha)).
  rewrite Hch.
  rewrite (bind_eq _ _ _ _ _ (call_GetClaims_eq _ _ _ _ Hg)).
  reflexivity.
Qed.

Lemma roFileLikeDir_ReadDir_GetClaims_error a w n c :
  heap w !! a = Some (NFileLikeDir n) ->
  fl_children n = None ->
  GetClaims (client w) (fl_claims_request n) = (None, c) ->
  roFileLikeDir_ReadDir a w
  = Some (Err EIO, after_query w (QGetClaims (fl_claims_request n)) c).
Proof.
  intros Ha Hch Hg. unfold roFileLikeDir_ReadDir.
  rewrite (bind_eq _ _ _ _ _ (roFileLikeDir_populate_GetClaims_error _ _ _ _ Ha Hch Hg)).
  reflexivity.
Qed.

(** ** roFileLikeDir: what populate leaves in the heap *)

Lemma versions_of_after_query a P w q c :
  versions_of a P w -> versions_of a P (after_query w q c).
Proof. intros Hv. exact Hv. Qed.

Lemma versions_of_after_version a w n ch cl pn db fi c :
  heap w !! a = Some (NFileLikeDir n) ->
  fl_children n = Some ch ->
  versions_of a (fl_permanode n) w ->
  versions_of a (fl_permanode n) (after_version a w n ch cl pn db fi c).
Proof.
  intros Ha Hch (n0 & ch0 & Ha0 & HP & Hch0 & Hall).
  rewrite Ha in Ha0. injection Ha0 as <-. rewrite Hch in Hch0. injection Hch0 as <-.
  assert (Hlt : (a < length (heap w))%nat) by (eapply lookup_lt_Some; exact Ha).
  exists (fl_with_children n (Some (<[DateString (Date cl) := length (heap w)]> ch))),
         (<[DateString (Date cl) := length (heap w)]> ch).
  cbn [after_version heap].
  split.
  { apply list_lookup_insert_eq. rewrite length_app. cbn. lia. }
  split; [reflexivity |]. split; [reflexivity |].
  intros name c0 Hl.
  apply lookup_insert_Some in Hl as [[_ <-] | [_ Hl]].
  - exists (version_of a n cl db fi).
    rewrite list_lookup_insert_ne by lia.
    rewrite lookup_app_r by lia. rewrite Nat.sub_diag.
    repeat split; reflexivity.
  - destruct (Hall _ _ Hl) as (v & Hc & Hv).
    exists v. split; [| exact Hv].
    assert (c0 <> a) by (intros ->; rewrite Ha in Hc; discriminate).
    rewrite list_lookup_insert_ne by congruence.
    apply lookup_app_l_Some. exact Hc.
Qed.

(** The loop keeps [versions_of], whichever way it leaves. *)
Lemma fl_populate_claims_versions_of a P cls :
  forall w err w',
    versions_of a P w ->
    fl_populate_claims a cls w = Some (err, w') ->
    versions_of a P w'.
Proof.
  induction cls as [| cl rest IH]; intros w err w' Hv Hrun.
  - cbn in Hrun. injection Hrun as _ <-. exact Hv.
  - destruct (Parse (Value cl)) as [pn |] eqn:Hp.
    2:{ rewrite (fl_populate_claims_unparseable _ _ _ _ Hp) in Hrun.
        injection Hrun as _ <-. exact Hv. }
    destruct (Describe (client w) (fl_describe_request pn cl)) as [[res |] c] eqn:Hd.
    2:{ rewrite (fl_populate_claims_Describe_error _ _ _ _ _ _ Hp Hd) in Hrun.
        injection Hrun as _ <-. exact Hv. }
    destruct (Meta res !! Value cl) as [db |] eqn:Hm.
    2:{ rewrite (fl_populate_claims_not_described _ _ _ _ _ _ _ Hp Hd Hm) in Hrun.
        injection Hrun as _ <-. exact Hv. }
    pose proof Hv as (n & ch & Ha & HP & Hch & Hall).
    destruct (File db) as [fi |] eqn:Hf.
    + rewrite (fl_populate_claims_step _ _ _ _ _ _ _ _ _ _ _ Ha Hch Hp Hd Hm Hf) in Hrun.
      eapply IH; [| exact Hrun].
      subst P. apply versions_of_after_version; assumption.
    + exfalso. cbn [fl_populate_claims] in Hrun. rewrite Hp in Hrun.
      rewrite (bind_eq _ _ _ _ _ (call_Describe_eq _ _ _ _ Hd)) in Hrun.
      rewrite Hm in Hrun.
      assert (Ha' : heap (after_query w (QDescribe (fl_describe_request pn cl)) c) !! a
                    = Some (NFileLikeDir n)) by exact Ha.
      rewrite (bind_eq _ _ _ _ _ (the_roFileLikeDir_eq _ _ _ Ha')) in Hrun.
      rewrite Hf in Hrun. discriminate.
Qed.

(** Whenever [populate] has made the children map of a directory, all
    the children are versions of that directory. *)
Lemma roFileLikeDir_populate_versions_of a w n res c err w' :
  heap w !! a = Some (NFileLikeDir n) ->
  fl_children n = None ->
  GetClaims (client w) (fl_claims_request n) = (Some res, c) ->
  roFileLikeDir_populate a w = Some (err, w') ->
  versions_of a (fl_permanode n) w'.
Proof.
  intros Ha Hch Hg Hrun.
  rewrite (roFileLikeDir_populate_loop _ _ _ _ _ Ha Hch Hg) in Hrun.
  eapply fl_populate_claims_versions_of; [| exact Hrun].
  exists (fl_with_children n (Some ∅)), ∅. cbn [heap].
  split.
  { apply list_lookup_insert_eq. eapply lookup_lt_Some. exact Ha. }
  split; [reflexivity |]. split; [reflexivity |].
  intros name c0 Hl. rewrite lookup_empty in Hl. discriminate.
Qed.

(** [populate] returns: it has a result whenever no blob that the
    client describes lacks its file information (the one place where
    the loop dereferences a pointer of the response unchecked). *)
Lemma fl_populate_claims_returns a cls :
  (forall c r res c' k db,
      Describe c r = (Some res, c') -> Meta res !! k = Some db ->
      is_Some (File db)) ->
  forall w n,
    heap w !! a = Some (NFileLikeDir n) ->
    is_Some (fl_children n) ->
    exists err w', fl_populate_claims a cls w = Some (err, w').
Proof.
  intros Hfiles. induction cls as [| cl rest IH]; intros w n Ha [ch Hch].
  - exists None, w. reflexivity.
  - destruct (Parse (Value cl)) as [pn |] eqn:Hp.
    2:{ rewrite (fl_populate_claims_unparseable _ _ _ _ Hp). eauto. }
    destruct (Describe (client w) (fl_describe_request pn cl)) as [[res |] c] eqn:Hd.
    2:{ rewrite (fl_populate_claims_Describe_error _ _ _ _ _ _ Hp Hd). eauto. }
    destruct (Meta res !! Value cl) as [db |] eqn:Hm.
    2:{ rewrite (fl_populate_claims_not_described _ _ _ _ _ _ _ Hp Hd Hm). eauto. }
    destruct (Hfiles _ _ _ _ _ _ Hd Hm) as [fi Hf].
    rewrite (fl_populate_claims_step _ _ _ _ _ _ _ _ _ _ _ Ha Hch Hp Hd Hm Hf).
    eapply IH.
    + cbn [after_version heap]. apply list_lookup_insert_eq.
      rewrite length_app. apply lookup_lt_Some in Ha. lia.
    + cbn [fl_with_children fl_children]. eauto.
Qed.

Lemma roFileLikeDir_populate_returns a w n :
  (forall c r res c' k db,
      Describe c r = (Some res, c') -> Meta res !! k = Some db ->
      is_Some (File db)) ->
  heap w !! a = Some (NFileLikeDir n) ->
  exists err w', roFileLikeDir_populate a w = Some (err, w').
Proof.
  intros Hfiles Ha.
  destruct (fl_children n) as [ch |] eqn:Hch.
  { rewrite (roFileLikeDir_populate_populated _ _ _ Ha) by (rewrite Hch; eauto).
    eauto. }
  destruct (GetClaims (client w) (fl_claims_request n)) as [[res |] c] eqn:Hg.
  - rewrite (roFileLikeDir_populate_loop _ _ _ _ _ Ha Hch Hg).
    eapply fl_populate_claims_returns; [exact Hfiles | |].
    + cbn [heap]. apply list_lookup_insert_eq. eapply lookup_lt_Some. exact Ha.
    + cbn [fl_with_children fl_children]. eauto.
  - rewrite (roFileLikeDir_populate_GetClaims_error _ _ _ _ Ha Hch Hg). eauto.
Qed.

(** ** Listings of a populated directory *)

Lemma elem_of_dirents h ch e :
  e ∈ dirents h (Some ch)
  <-> exists name c, ch !! name = Some c
                     /\ e = {| Name := name; Inode := child_ino h c |}.
Proof.
  unfold dirents. cbn [default from_option id]. rewrite list_elem_of_fmap. split.
  - intros ([name c] & -> & Hin). apply elem_of_map_to_list in Hin.
    exists name, c. split; [exact Hin | reflexivity].
  - intros (name & c & Hl & ->). exists (name, c). split; [reflexivity |].
    apply elem_of_map_to_list. exact Hl.
Qed.

Lemma roFileLikeDir_ReadDir_populated a w n :
  heap w !! a = Some (NFileLikeDir n) ->
  is_Some (fl_children n) ->
  roFileLikeDir_ReadDir a w = Some (Ok (dirents (heap w) (fl_children n)), w).
Proof.
  intros Ha Hch. unfold roFileLikeDir_ReadDir.
  rewrite (bind_eq _ _ _ _ _ (roFileLikeDir_populate_populated _ _ _ Ha Hch)).
  cbn beta iota.
  rewrite (bind_eq _ _ _ _ _ (the_roFileLikeDir_eq _ _ _ Ha)).
  reflexivity.
Qed.

Lemma roFileLikeDir_Lookup_populated a name w n ch :
  heap w !! a = Some (NFileLikeDir n) ->
  fl_children n = Some ch ->
  roFileLikeDir_Lookup a name w
  = Some (match ch !! name with Some c => Ok c | None => Err ENOENT end, w).
Proof.
  intros Ha Hch. unfold roFileLikeDir_Lookup.
  rewrite (bind_eq _ _ _ _ _ (roFileLikeDir_populate_populated _ _ _ Ha
                                 (ex_intro _ ch Hch))).
  cbn beta iota.
  rewrite (bind_eq _ _ _ _ _ (the_roFileLikeDir_eq _ _ _ Ha)).
  rewrite Hch. cbn. destruct (ch !! name); reflexivity.
Qed.

Lemma roDirV_ReadDir_populated a w n :
  heap w !! a = Some (NDirV n) ->
  is_Some (dv_children n) ->
  roDirV_ReadDir a w = Some (Ok (dirents (heap w) (dv_children n)), w).
Proof.
  intros Ha Hch. unfold roDirV_ReadDir.
  rewrite (bind_eq _ _ _ _ _ (roDirV_populate_populated _ _ _ Ha Hch)).
  cbn beta iota.
  rewrite (bind_eq _ _ _ _ _ (the_roDirV_eq _ _ _ Ha)).
  reflexivity.
Qed.

(** ** C9: the versions of a file share the inode of its directory *)

(** C9.  Every roFileVersion that [roFileLikeDir.populate] creates
    stores the permanode of the directory itself.  So once [populate]
    has made the children map, every child is a version whose [Attr]
    reports the inode of the directory's own [Attr] (the hash of the
    directory's permanode), and [ReadDir] of the directory lists exactly
    the children, each under that same inode. *)
Theorem versions_share_the_directory_inode a w n res c err w' :
  heap w !! a = Some (NFileLikeDir n) ->
  fl_children n = None ->
  GetClaims (client w) (fl_claims_request n) = (Some res, c) ->
  roFileLikeDir_populate a w = Some (err, w') ->
  exists n' ch,
    heap w' !! a = Some (NFileLikeDir n')
    /\ fl_children n' = Some ch
    /\ a_Inode (roFileLikeDir_Attr n') = Sum64 (fl_permanode n)
    /\ (forall name c0, ch !! name = Some c0 ->
          exists v, heap w' !! c0 = Some (NFileVersion v)
                    /\ fv_permanode v = fl_permanode n
                    /\ a_Inode (roFileVersion_Attr v)
                       = a_Inode (roFileLikeDir_Attr n'))
    /\ exists ents,
         roFileLikeDir_ReadDir a w' = Some (Ok ents, w')
         /\ (forall name, is_Some (ch !! name)
                           <-> exists ino, {| Name := name; Inode := ino |} ∈ ents)
         /\ (forall e, e ∈ ents -> Inode e = a_Inode (roFileLikeDir_Attr n')).
Proof.
  intros Ha Hch Hg Hrun.
  destruct (roFileLikeDir_populate_versions_of _ _ _ _ _ _ _ Ha Hch Hg Hrun)
    as (n' & ch & Ha' & HP & Hch' & Hall).
  exists n', ch.
  assert (Hino : a_Inode (roFileLikeDir_Attr n') = Sum64 (fl_permanode n))
    by (cbn; rewrite HP; reflexivity).
  split; [exact Ha' |]. split; [exact Hch' |]. split; [exact Hino |].
  split.
  { intros name c0 Hl. destruct (Hall _ _ Hl) as (v & Hc & Hv & _).
    exists v. split; [exact Hc |]. split; [exact Hv |].
    rewrite Hino. cbn. rewrite Hv. reflexivity. }
  exists (dirents (heap w') (fl_children n')).
  split.
  { apply roFileLikeDir_ReadDir_populated; [exact Ha' |]. rewrite Hch'. eauto. }
  rewrite Hch'. split.
  - intros name. split.
    + intros [c0 Hl]. exists (child_ino (heap w') c0).
      apply elem_of_dirents. eauto.
    + intros [ino Hin]. apply elem_of_dirents in Hin as (name' & c0 & Hl & Heq).
      injection Heq as -> _. eauto.
  - intros e Hin. apply elem_of_dirents in Hin as (name & c0 & Hl & ->).
    destruct (Hall _ _ Hl) as (v & Hc & Hv & _).
    cbn [Inode]. unfold child_ino. rewrite Hc, Hv. symmetry. exact Hino.
Qed.

(** ** C1: a claim that fails to resolve *)

Lemma fl_populate_claims_fails a w cl rest err c' qs :
  fails_to_resolve (client w) cl err c' qs ->
  fl_populate_claims a (cl :: rest) w
  = Some (err, {| heap := heap w; client := c'; queries := queries w ++ qs |}).
Proof.
  intros [Hp | pn c1 Hp Hd | pn res c1 Hp Hd Hm].
  - rewrite (fl_populate_claims_unparseable _ _ _ _ Hp).
    rewrite app_nil_r. destruct w; reflexivity.
  - rewrite (fl_populate_claims_Describe_error _ _ _ _ _ _ Hp Hd). reflexivity.
  - rewrite (fl_populate_claims_not_described _ _ _ _ _ _ _ Hp Hd Hm). reflexivity.
Qed.

(** C1, as the code has it.  The first of the claims of a file resolves
    and the second fails to resolve, in any of the three ways.  The
    children map was made before the loop and holds the first version by
    then: the failed call leaves it set and holding that version.  When
    the Describe errors the call does not even fail, it lists the first
    version; in the other two ways [ReadDir] answers EIO.  Either way the
    directory counts as populated from then on: the next [ReadDir] and
    [Lookup] show the partial entry and send no query. *)
Theorem roFileLikeDir_failed_populate_is_kept
    a w n res c0 cl1 cl2 rest pn1 res1 c1 db1 fi1 err c2 qs :
  heap w !! a = Some (NFileLikeDir n) ->
  fl_children n = None ->
  GetClaims (client w) (fl_claims_request n) = (Some res, c0) ->
  Claims res = cl1 :: cl2 :: rest ->
  Parse (Value cl1) = Some pn1 ->
  Describe c0 (fl_describe_request pn1 cl1) = (Some res1, c1) ->
  Meta res1 !! Value cl1 = Some db1 ->
  File db1 = Some fi1 ->
  fails_to_resolve c1 cl2 err c2 qs ->
  exists w1 n1,
    roFileLikeDir_ReadDir a w
    = Some (match err with
            | Some _ => Err EIO
            | None => Ok [{| Name := DateString (Date cl1);
                             Inode := Sum64 (fl_permanode n) |}]
            end, w1)
    /\ heap w1 !! a = Some (NFileLikeDir n1)
    /\ fl_children n1 = Some {[ DateString (Date cl1) := length (heap w) ]}
    /\ roFileLikeDir_ReadDir a w1
       = Some (Ok [{| Name := DateString (Date cl1);
                      Inode := Sum64 (fl_permanode n) |}], w1)
    /\ roFileLikeDir_Lookup a (DateString (Date cl1)) w1
       = Some (Ok (length (heap w)), w1).
Proof.
  intros Ha Hch Hg Hcl Hp1 Hd1 Hm1 Hf1 Hfail.
  assert (Hlt : (a < length (heap w))%nat) by (eapply lookup_lt_Some; exact Ha).
  set (w0 := {| heap := <[a := NFileLikeDir (fl_with_children n (Some ∅))]> (heap w);
                client := c0;
                queries := queries w ++ [QGetClaims (fl_claims_request n)] |}).
  assert (Ha0 : heap w0 !! a = Some (NFileLikeDir (fl_with_children n (Some ∅))))
    by (apply list_lookup_insert_eq; exact Hlt).
  set (wv := after_version a w0 (fl_with_children n (Some ∅)) ∅ cl1 pn1 db1 fi1 c1).
  set (w1 := {| heap := heap wv; client := c2; queries := queries wv ++ qs |}).
  set (n1 := fl_with_children (fl_with_children n (Some ∅))
               (Some (<[DateString (Date cl1) := length (heap w0)]> ∅))).
  assert (Hlen : length (heap w0) = length (heap w)) by apply length_insert.
  assert (Hpop : roFileLikeDir_populate a w = Some (err, w1)).
  { rewrite (roFileLikeDir_populate_loop _ _ _ _ _ Ha Hch Hg). rewrite Hcl.
    fold w0.
    rewrite (fl_populate_claims_step a w0 _ ∅ cl1 (cl2 :: rest) pn1 res1 c1 db1 fi1
               Ha0 eq_refl Hp1 Hd1 Hm1 Hf1).
    fold wv. apply fl_populate_claims_fails. exact Hfail. }
  assert (Ha1 : heap w1 !! a = Some (NFileLikeDir n1)).
  { cbn [w1 wv after_version heap]. apply list_lookup_insert_eq.
    rewrite length_app. lia. }
  assert (Hch1 : fl_children n1 = Some {[ DateString (Date cl1) := length (heap w) ]}).
  { cbn [n1 fl_with_children fl_children]. rewrite Hlen. reflexivity. }
  assert (Hino : child_ino (heap w1) (length (heap w)) = Sum64 (fl_permanode n)).
  { unfold child_ino. cbn [w1 wv after_version heap].
    rewrite list_lookup_insert_ne by lia.
    rewrite lookup_app_r by lia. rewrite Hlen, Nat.sub_diag. reflexivity. }
  assert (Hents : dirents (heap w1) (fl_children n1)
                  = [{| Name := DateString (Date cl1);
                        Inode := Sum64 (fl_permanode n) |}]).
  { rewrite Hch1. unfold dirents. cbn [default from_option id].
    rewrite map_to_list_singleton. cbn [fmap list_fmap fst snd].
    rewrite Hino. reflexivity. }
  assert (Hrd1 : roFileLikeDir_ReadDir a w1
                 = Some (Ok [{| Name := DateString (Date cl1);
                                Inode := Sum64 (fl_permanode n) |}], w1)).
  { rewrite (roFileLikeDir_ReadDir_populated _ _ _ Ha1) by (rewrite Hch1; eauto).
    rewrite Hents. reflexivity. }
  exists w1, n1. split; [| split; [exact Ha1 | split; [exact Hch1 | split; [exact Hrd1 |]]]].
  - unfold roFileLikeDir_ReadDir. rewrite (bind_eq _ _ _ _ _ Hpop).
    destruct err as [msg |]; [reflexivity |].
    cbn beta iota.
    rewrite (bind_eq _ _ _ _ _ (the_roFileLikeDir_eq _ _ _ Ha1)).
    unfold bind, get_heap, ret. rewrite Hents. reflexivity.
  - rewrite (roFileLikeDir_Lookup_populated _ _ _ _ _ Ha1 Hch1).
    rewrite lookup_singleton_eq. reflexivity.
Qed.

(** ** C8: the attributes of a version *)

Lemma roFileVersion_mode_read_only (v : roFileVersion) :
  a_Mode (roFileVersion_Attr v)
  = (if fv_symLink v then Z.lor perm_0400 ModeSymlink else perm_0400)
  /\ Z.land (a_Mode (roFileVersion_Attr v)) perm_write = 0.
Proof.
  unfold roFileVersion_Attr. cbn [a_Mode].
  destruct (fv_symLink v); split; reflexivity.
Qed.

Lemma roFileVersion_size_blocks (v : roFileVersion) :
  is_int64 (fv_size v) ->
  a_Size (roFileVersion_Attr v) = fv_size v mod 2 ^ 64
  /\ (0 <= fv_size v -> a_Size (roFileVersion_Attr v) = fv_size v)
  /\ a_Blocks (roFileVersion_Attr v)
     = (if 0 <? fv_size v then fv_size v / 512 + 1 else 0).
Proof.
  intros [Hlo Hhi]. unfold roFileVersion_Attr, uint64. cbn [a_Size a_Blocks].
  split; [reflexivity |]. split.
  - intros Hnn. apply Z.mod_small. lia.
  - destruct (0 <? fv_size v) eqn:Hpos; [| reflexivity].
    apply Z.ltb_lt in Hpos.
    rewrite (Z.mod_small (fv_size v)) by lia.
    apply Z.mod_small.
    assert (0 <= fv_size v / 512) by (apply Z.div_pos; lia).
    assert (fv_size v / 512 <= fv_size v) by (apply Z.div_le_upper_bound; lia).
    lia.
Qed.

Lemma roFileVersion_times (v : roFileVersion) :
  a_Mtime (roFileVersion_Attr v)
  = (if fv_mtime v =? 0 then serverStart else fv_mtime v)
  /\ a_Atime (roFileVersion_Attr v)
     = (if fv_atime v =? 0 then a_Mtime (roFileVersion_Attr v) else fv_atime v).
Proof.
  unfold roFileVersion_Attr, accessTime, modTime, IsZero. cbn [a_Mtime a_Atime].
  destruct (fv_mtime v =? 0), (fv_atime v =? 0); split; reflexivity.
Qed.

(** C8, as the code has it.  [Attr] of a roFileVersion: the mode is
    0400, with the symlink bit for a symlink, and has no write bit; the
    size is the stored size as a uint64 and the blocks are
    [size/512 + 1] for a positive size, 0 otherwise; the modification
    time is the stored [mtime], or [serverStart] when that is zero; the
    access time is the stored [atime], or the modification time when
    that is zero.  A version made by [roFileLikeDir.populate] has no
    stored [mtime] or [atime] (the claim's date becomes its name only),
    so both its times are [serverStart]. *)
Theorem roFileVersion_Attr_as_coded :
  (forall v : roFileVersion,
      is_int64 (fv_size v) ->
      (a_Mode (roFileVersion_Attr v)
       = (if fv_symLink v then Z.lor perm_0400 ModeSymlink else perm_0400)
       /\ Z.land (a_Mode (roFileVersion_Attr v)) perm_write = 0)
      /\ (a_Size (roFileVersion_Attr v) = fv_size v mod 2 ^ 64
          /\ (0 <= fv_size v -> a_Size (roFileVersion_Attr v) = fv_size v)
          /\ a_Blocks (roFileVersion_Attr v)
             = (if 0 <? fv_size v then fv_size v / 512 + 1 else 0))
      /\ (a_Mtime (roFileVersion_Attr v)
          = (if fv_mtime v =? 0 then serverStart else fv_mtime v)
          /\ a_Atime (roFileVersion_Attr v)
             = (if fv_atime v =? 0 then a_Mtime (roFileVersion_Attr v)
                else fv_atime v)))
  /\ (forall a w n res c err w' n' ch name c0,
         heap w !! a = Some (NFileLikeDir n) ->
         fl_children n = None ->
         GetClaims (client w) (fl_claims_request n) = (Some res, c) ->
         roFileLikeDir_populate a w = Some (err, w') ->
         heap w' !! a = Some (NFileLikeDir n') ->
         fl_children n' = Some ch ->
         ch !! name = Some c0 ->
         exists v, heap w' !! c0 = Some (NFileVersion v)
                   /\ a_Mtime (roFileVersion_Attr v) = serverStart
                   /\ a_Atime (roFileVersion_Attr v) = serverStart).
Proof.
  split.
  - intros v Hsz. split; [apply roFileVersion_mode_read_only |].
    split; [apply roFileVersion_size_blocks; exact Hsz | apply roFileVersion_times].
  - intros a w n res c err w' n' ch name c0 Ha Hch Hg Hrun Ha' Hch' Hl.
    destruct (roFileLikeDir_populate_versions_of _ _ _ _ _ _ _ Ha Hch Hg Hrun)
      as (n1 & ch1 & Ha1 & _ & Hch1 & Hall).
    rewrite Ha' in Ha1. injection Ha1 as <-.
    rewrite Hch' in Hch1. injection Hch1 as <-.
    destruct (Hall _ _ Hl) as (v & Hc & _ & Hm & Hat).
    exists v. split; [exact Hc |].
    destruct (roFileVersion_times v) as [Hmt Hatm].
    rewrite Hatm, Hmt, Hm, Hat. cbn. split; reflexivity.
Qed.

(** ** C7: the mutation handlers *)

(** C7, as the code has it.  On a roFileVersion, [Setxattr] and
    [Removexattr] answer EPERM and so does [Open] when the request
    flags are write flags, whatever the state of the node (the response
    flags are left as they were); on the versionsDir, [Setxattr] and
    [Removexattr] answer EPERM through the embedded [noXattr]. *)
Theorem mutation_is_denied (v : roFileVersion) (d : versionsDir)
    (reqFlags resFlags : Z) :
  isWriteFlags reqFlags = true ->
  node_Open (NFileVersion v) reqFlags resFlags = Some (Err EPERM, resFlags)
  /\ node_Setxattr (NFileVersion v) = Some EPERM
  /\ node_Removexattr (NFileVersion v) = Some EPERM
  /\ node_Setxattr (NVersions d) = Some EPERM
  /\ node_Removexattr (NVersions d) = Some EPERM.
Proof.
  intros Hw. cbn [node_Open node_Setxattr node_Removexattr].
  unfold roFileVersion_Open. rewrite Hw.
  repeat split; reflexivity.
Qed.

(** The same three requests on the two directory types of rover.go:
    neither declares a handler for them. *)
Lemma directories_have_no_mutation_handler (nd : node) reqFlags resFlags :
  (exists d, nd = NDirV d) \/ (exists d, nd = NFileLikeDir d) ->
  node_Setxattr nd = None
  /\ node_Removexattr nd = None
  /\ node_Open nd reqFlags resFlags = None.
Proof. intros [[d ->] | [d ->]]; repeat split; reflexivity. Qed.

(** ** versionsDir: the ways through condRefresh *)

(** The refresh is not due: less than [versionsRefreshTime] has passed
    since [lastQuery]. *)
Lemma After_window (last now1 : Time) :
  After last (Add now1 (- versionsRefreshTime)) = true
  <-> now1 - last < versionsRefreshTime.
Proof. unfold After, Add. rewrite Z.ltb_lt. lia. Qed.

Lemma After_window_false (last now1 : Time) :
  After last (Add now1 (- versionsRefreshTime)) = false
  <-> versionsRefreshTime <= now1 - last.
Proof. unfold After, Add. rewrite Z.ltb_ge. lia. Qed.

Lemma condRefresh_not_due a now1 now2 w n :
  heap w !! a = Some (NVersions n) ->
  After (lastQuery n) (Add now1 (- versionsRefreshTime)) = true ->
  condRefresh a now1 now2 w = Some (None, w).
Proof.
  intros Ha Hnd. unfold condRefresh.
  rewrite (bind_eq _ _ _ _ _ (the_versionsDir_eq _ _ _ Ha)).
  rewrite Hnd. reflexivity.
Qed.

Lemma condRefresh_searches a now1 now2 w n r1 c1 r2 c2 :
  heap w !! a = Some (NVersions n) ->
  After (lastQuery n) (Add now1 (- versionsRefreshTime)) = false ->
  GetPermanodesWithAttr (client w) root_request = (r1, c1) ->
  GetPermanodesWithAttr c1 import_request = (r2, c2) ->
  condRefresh a now1 now2 w
  = match r1, r2 with
    | Some rootRes, Some impRes =>
        (let* _ := store a (NVersions (cleared n)) in
         if Z.of_nat (length (found_refs rootRes impRes)) =? 0 then ret None
         else
           let* dres := call_Describe (batch_request rootRes impRes) in
           match dres with
           | None => ret (Some EIO)
           | Some dres =>
               let* _ := store a (NVersions (refreshed n rootRes impRes dres now2)) in
               ret None
           end) (after_searches w c2)
    | _, _ => Some (Some EIO, after_searches w c2)
    end.
Proof.
  intros Ha Hdue Hs1 Hs2. unfold condRefresh.
  rewrite (bind_eq _ _ _ _ _ (the_versionsDir_eq _ _ _ Ha)).
  rewrite Hdue.
  rewrite (bind_eq _ _ _ _ _ (call_GetPermanodesWithAttr_eq _ _ _ _ Hs1)).
  assert (Hs2' : GetPermanodesWithAttr
                   (client (after_query w (QWithAttr root_request) c1)) import_request
                 = (r2, c2)) by exact Hs2.
  rewrite (bind_eq _ _ _ _ _ (call_GetPermanodesWithAttr_eq _ _ _ _ Hs2')).
  assert (Hw : after_query (after_query w (QWithAttr root_request) c1)
                           (QWithAttr import_request) c2
               = after_searches w c2).
  { unfold after_query, after_searches. cbn [heap client queries].
    rewrite <- app_assoc. reflexivity. }
  rewrite Hw.
  destruct r1 as [rootRes |], r2 as [impRes |]; try reflexivity.
  unfold bind, store. cbn [heap client queries after_searches].
  fold (found_refs rootRes impRes).
  destruct (Z.of_nat (length (found_refs rootRes impRes)) =? 0); [reflexivity |].
  fold (batch_request rootRes impRes).
  destruct (call_Describe (batch_request rootRes impRes) _) as [[[dres |] w1] |];
    try reflexivity.
  unfold refreshed.
  destruct (fold_left (add_root dres) (WithAttr rootRes) (∅, ∅)) as [roots m0].
  reflexivity.
Qed.

(** A search fails: nothing of the directory is touched. *)
Lemma condRefresh_search_error a now1 now2 w n r1 c1 r2 c2 :
  heap w !! a = Some (NVersions n) ->
  After (lastQuery n) (Add now1 (- versionsRefreshTime)) = false ->
  GetPermanodesWithAttr (client w) root_request = (r1, c1) ->
  GetPermanodesWithAttr c1 import_request = (r2, c2) ->
  r1 = None \/ r2 = None ->
  condRefresh a now1 now2 w = Some (Some EIO, after_searches w c2).
Proof.
  intros Ha Hdue Hs1 Hs2 Hnone.
  rewrite (condRefresh_searches _ _ _ _ _ _ _ _ _ Ha Hdue Hs1 Hs2).
  destruct Hnone as [-> | ->]; [reflexivity |]. destruct r1; reflexivity.
Qed.

(** Both searches succeed and find nothing: the function returns nil
    from the check of [len(dr.BlobRefs)], before the eviction and
    before [lastQuery] is set. *)
Lemma condRefresh_nothing_found a now1 now2 w n rootRes c1 impRes c2 :
  heap w !! a = Some (NVersions n) ->
  After (lastQuery n) (Add now1 (- versionsRefreshTime)) = false ->
  GetPermanodesWithAttr (client w) root_request = (Some rootRes, c1) ->
  GetPermanodesWithAttr c1 import_request = (Some impRes, c2) ->
  found_refs rootRes impRes = [] ->
  condRefresh a now1 now2 w
  = Some (None,
          {| heap := <[a := NVersions (cleared n)]> (heap w);
             client := c2;
             queries := queries w
                          ++ [QWithAttr root_request; QWithAttr import_request] |}).
Proof.
  intros Ha Hdue Hs1 Hs2 Hnil.
  rewrite (condRefresh_searches _ _ _ _ _ _ _ _ _ Ha Hdue Hs1 Hs2).
  unfold bind, store. rewrite Hnil. reflexivity.
Qed.

(** The batch Describe fails: [n.m] has been replaced by an empty map
    by then. *)
Lemma condRefresh_Describe_error a now1 now2 w n rootRes c1 impRes c2 c3 :
  heap w !! a = Some (NVersions n) ->
  After (lastQuery n) (Add now1 (- versionsRefreshTime)) = false ->
  GetPermanodesWithAttr (client w) root_request = (Some rootRes, c1) ->
  GetPermanodesWithAttr c1 import_request = (Some impRes, c2) ->
  found_refs rootRes impRes <> [] ->
  Describe c2 (batch_request rootRes impRes) = (None, c3) ->
  condRefresh a now1 now2 w
  = Some (Some EIO,
          {| heap := <[a := NVersions (cleared n)]> (heap w);
             client := c3;
             queries := queries w
                          ++ [QWithAttr root_request; QWithAttr import_request;
                              QDescribe (batch_request rootRes impRes)] |}).
Proof.
  intros Ha Hdue Hs1 Hs2 Hne Hd.
  rewrite (condRefresh_searches _ _ _ _ _ _ _ _ _ Ha Hdue Hs1 Hs2).
  unfold bind, store.
  destruct (found_refs rootRes impRes) as [| r l] eqn:Hrefs; [congruence |].
  cbn [length]. replace (Z.of_nat (S (length l)) =? 0) with false
    by (symmetry; apply Z.eqb_neq; lia).
  unfold call_Describe. cbn [client heap queries after_searches]. rewrite Hd.
  rewrite <- app_assoc. reflexivity.
Qed.

(** The refresh goes through. *)
Lemma condRefresh_done a now1 now2 w n rootRes c1 impRes c2 dres c3 :
  heap w !! a = Some (NVersions n) ->
  After (lastQuery n) (Add now1 (- versionsRefreshTime)) = false ->
  GetPermanodesWithAttr (client w) root_request = (Some rootRes, c1) ->
  GetPermanodesWithAttr c1 import_request = (Some impRes, c2) ->
  found_refs rootRes impRes <> [] ->
  Describe c2 (batch_request rootRes impRes) = (Some dres, c3) ->
  condRefresh a now1 now2 w
  = Some (None,
          {| heap := <[a := NVersions (refreshed n rootRes impRes dres now2)]> (heap w);
             client := c3;
             queries := queries w
                          ++ [QWithAttr root_request; QWithAttr import_request;
                              QDescribe (batch_request rootRes impRes)] |}).
Proof.
  intros Ha Hdue Hs1 Hs2 Hne Hd.
  rewrite (condRefresh_searches _ _ _ _ _ _ _ _ _ Ha Hdue Hs1 Hs2).
  unfold bind, store.
  destruct (found_refs rootRes impRes) as [| r l] eqn:Hrefs; [congruence |].
  cbn [length]. replace (Z.of_nat (S (length l)) =? 0) with false
    by (symmetry; apply Z.eqb_neq; lia).
  unfold call_Describe. cbn [client heap queries after_searches]. rewrite Hd.
  rewrite <- app_assoc. cbn [heap]. rewrite list_insert_insert_eq. reflexivity.
Qed.

(** A refresh that is due always sends the two searches first, and
    returns; the directory stays a versionsDir at [a]. *)
Lemma condRefresh_due a now1 now2 w n :
  heap w !! a = Some (NVersions n) ->
  After (lastQuery n) (Add now1 (- versionsRefreshTime)) = false ->
  exists e w' n' qs,
    condRefresh a now1 now2 w = Some (e, w')
    /\ heap w' !! a = Some (NVersions n')
    /\ queries w'
       = queries w ++ [QWithAttr root_request; QWithAttr import_request] ++ qs.
Proof.
  intros Ha Hdue.
  assert (Hlt : (a < length (heap w))%nat) by (eapply lookup_lt_Some; exact Ha).
  destruct (GetPermanodesWithAttr (client w) root_request) as [r1 c1] eqn:Hs1.
  destruct (GetPermanodesWithAttr c1 import_request) as [r2 c2] eqn:Hs2.
  destruct r1 as [rootRes |].
  2:{ exists (Some EIO), (after_searches w c2), n, [].
      rewrite (condRefresh_search_error _ _ _ _ _ _ _ _ _ Ha Hdue Hs1 Hs2) by auto.
      rewrite app_nil_r. auto. }
  destruct r2 as [impRes |].
  2:{ exists (Some EIO), (after_searches w c2), n, [].
      rewrite (condRefresh_search_error _ _ _ _ _ _ _ _ _ Ha Hdue Hs1 Hs2) by auto.
      rewrite app_nil_r. auto. }
  destruct (found_refs rootRes impRes) as [| r l] eqn:Hrefs.
  { eexists None, _, (cleared n), [].
    rewrite (condRefresh_nothing_found _ _ _ _ _ _ _ _ _ Ha Hdue Hs1 Hs2 Hrefs).
    split; [reflexivity |]. cbn [heap queries]. split.
    - apply list_lookup_insert_eq. exact Hlt.
    - rewrite app_nil_r. reflexivity. }
  assert (Hne : found_refs rootRes impRes <> []) by (rewrite Hrefs; discriminate).
  destruct (Describe c2 (batch_request rootRes impRes)) as [[dres |] c3] eqn:Hd.
  - eexists None, _, (refreshed n rootRes impRes dres now2),
      [QDescribe (batch_request rootRes impRes)].
    rewrite (condRefresh_done _ _ _ _ _ _ _ _ _ _ _ Ha Hdue Hs1 Hs2 Hne Hd).
    split; [reflexivity |]. cbn [heap queries]. split.
    + apply list_lookup_insert_eq. exact Hlt.
    + reflexivity.
  - eexists (Some EIO), _, (cleared n),
      [QDescribe (batch_request rootRes impRes)].
    rewrite (condRefresh_Describe_error _ _ _ _ _ _ _ _ _ _ Ha Hdue Hs1 Hs2 Hne Hd).
    split; [reflexivity |]. cbn [heap queries]. split.
    + apply list_lookup_insert_eq. exact Hlt.
    + reflexivity.
Qed.

(** ** versionsDir: ReadDir and Lookup after condRefresh *)

Lemma versionsDir_ReadDir_ok a now1 now2 w w1 n1 :
  condRefresh a now1 now2 w = Some (None, w1) ->
  heap w1 !! a = Some (NVersions n1) ->
  versionsDir_ReadDir a now1 now2 w = Some (Ok (listing (vd_m n1)), w1).
Proof.
  intros Hc Ha1. unfold versionsDir_ReadDir.
  rewrite (bind_eq _ _ _ _ _ Hc). cbn beta iota.
  rewrite (bind_eq _ _ _ _ _ (the_versionsDir_eq _ _ _ Ha1)).
  reflexivity.
Qed.

Lemma versionsDir_ReadDir_err a now1 now2 w w1 e :
  condRefresh a now1 now2 w = Some (Some e, w1) ->
  versionsDir_ReadDir a now1 now2 w = Some (Err EIO, w1).
Proof.
  intros Hc. unfold versionsDir_ReadDir.
  rewrite (bind_eq _ _ _ _ _ Hc). reflexivity.
Qed.

Lemma versionsDir_Lookup_err a name now1 now2 w w1 e :
  condRefresh a now1 now2 w = Some (Some e, w1) ->
  versionsDir_Lookup a name now1 now2 w = Some (Err e, w1).
Proof.
  intros Hc. unfold versionsDir_Lookup.
  rewrite (bind_eq _ _ _ _ _ Hc). reflexivity.
Qed.

(** [Lookup] of a name that [n.m] does not map to a valid ref. *)
Lemma versionsDir_Lookup_absent a name now1 now2 w w1 n1 :
  condRefresh a now1 now2 w = Some (None, w1) ->
  heap w1 !! a = Some (NVersions n1) ->
  Valid (default zeroRef (default ∅ (vd_m n1) !! name)) = false ->
  versionsDir_Lookup a name now1 now2 w = Some (Err ENOENT, w1).
Proof.
  intros Hc Ha1 Hinv. unfold versionsDir_Lookup.
  rewrite (bind_eq _ _ _ _ _ Hc). cbn beta iota.
  rewrite (bind_eq _ _ _ _ _ (the_versionsDir_eq _ _ _ Ha1)).
  rewrite Hinv. reflexivity.
Qed.

(** [Lookup] of a name whose child is memoized. *)
Lemma versionsDir_Lookup_memoized a name now1 now2 w w1 n1 nod :
  condRefresh a now1 now2 w = Some (None, w1) ->
  heap w1 !! a = Some (NVersions n1) ->
  Valid (default zeroRef (default ∅ (vd_m n1) !! name)) = true ->
  default ∅ (vd_children n1) !! name = Some nod ->
  versionsDir_Lookup a name now1 now2 w = Some (Ok nod, w1).
Proof.
  intros Hc Ha1 Hv Hl. unfold versionsDir_Lookup.
  rewrite (bind_eq _ _ _ _ _ Hc). cbn beta iota.
  rewrite (bind_eq _ _ _ _ _ (the_versionsDir_eq _ _ _ Ha1)).
  rewrite Hv. cbn [negb]. rewrite Hl. reflexivity.
Qed.

(** [Lookup] of a name with a valid ref and no memoized child: a new
    roDirV is allocated and memoized. *)
Lemma versionsDir_Lookup_new a name now1 now2 w w1 n1 ch br :
  condRefresh a now1 now2 w = Some (None, w1) ->
  heap w1 !! a = Some (NVersions n1) ->
  default ∅ (vd_m n1) !! name = Some br ->
  Valid br = true ->
  vd_children n1 = Some ch ->
  ch !! name = None ->
  versionsDir_Lookup a name now1 now2 w
  = Some (Ok (length (heap w1)),
          {| heap := <[a := NVersions {| lastQuery := lastQuery n1;
                                         vd_m := vd_m n1;
                                         vd_children :=
                                           Some (<[name := length (heap w1)]> ch) |}]>
                       (heap w1 ++ [NDirV (newRODirV br name)]);
             client := client w1; queries := queries w1 |}).
Proof.
  intros Hc Ha1 Hm Hv Hch Hl. unfold versionsDir_Lookup.
  rewrite (bind_eq _ _ _ _ _ Hc). cbn beta iota.
  rewrite (bind_eq _ _ _ _ _ (the_versionsDir_eq _ _ _ Ha1)).
  rewrite Hm. cbn [default from_option id]. rewrite Hv. cbn [negb].
  rewrite Hch. cbn [default from_option id]. rewrite Hl.
  reflexivity.
Qed.

Lemma versionsDir_ReadDir_due a now1 now2 w n :
  heap w !! a = Some (NVersions n) ->
  After (lastQuery n) (Add now1 (- versionsRefreshTime)) = false ->
  exists res w' qs,
    versionsDir_ReadDir a now1 now2 w = Some (res, w')
    /\ queries w'
       = queries w ++ [QWithAttr root_request; QWithAttr import_request] ++ qs.
Proof.
  intros Ha Hdue.
  destruct (condRefresh_due _ now1 now2 _ _ Ha Hdue) as (e & w' & n' & qs & Hc & Ha' & Hq).
  destruct e as [e |].
  - exists (Err EIO), w', qs.
    rewrite (versionsDir_ReadDir_err _ _ _ _ _ _ Hc). auto.
  - exists (Ok (listing (vd_m n'))), w', qs.
    rewrite (versionsDir_ReadDir_ok _ _ _ _ _ _ Hc Ha'). auto.
Qed.

(** ** C4: the time-to-live of the root listing *)

(** What does hold of the time-to-live: a [ReadDir] less than a minute
    after [lastQuery] sends nothing and changes nothing. *)
Lemma versionsDir_ReadDir_within_window a now1 now2 w n :
  heap w !! a = Some (NVersions n) ->
  now1 - lastQuery n < versionsRefreshTime ->
  versionsDir_ReadDir a now1 now2 w = Some (Ok (listing (vd_m n)), w).
Proof.
  intros Ha Hwin. apply versionsDir_ReadDir_ok; [| exact Ha].
  apply condRefresh_not_due with (n := n); [exact Ha |].
  apply After_window. exact Hwin.
Qed.

(** C4, as the code has it.  A refresh is due and both searches succeed
    without finding a permanode.  The refresh is a success ([ReadDir]
    lists the empty directory), but it has returned before the line
    that sets [lastQuery]: the timestamp is the old one, and the next
    [ReadDir], however soon it comes, sends the pair of searches
    again.  Two calls within the window have sent two pairs. *)
Theorem versionsDir_empty_refresh_is_not_timestamped
    a now1 now2 now1' now2' w n rootRes c1 impRes c2 :
  heap w !! a = Some (NVersions n) ->
  After (lastQuery n) (Add now1 (- versionsRefreshTime)) = false ->
  GetPermanodesWithAttr (client w) root_request = (Some rootRes, c1) ->
  GetPermanodesWithAttr c1 import_request = (Some impRes, c2) ->
  found_refs rootRes impRes = [] ->
  now1 <= now1' ->
  exists w1 n1 res w2 qs,
    versionsDir_ReadDir a now1 now2 w = Some (Ok [], w1)
    /\ queries w1 = queries w ++ [QWithAttr root_request; QWithAttr import_request]
    /\ heap w1 !! a = Some (NVersions n1)
    /\ lastQuery n1 = lastQuery n
    /\ versionsDir_ReadDir a now1' now2' w1 = Some (res, w2)
    /\ queries w2
       = queries w ++ [QWithAttr root_request; QWithAttr import_request;
                       QWithAttr root_request; QWithAttr import_request] ++ qs.
Proof.
  intros Ha Hdue Hs1 Hs2 Hnil Hle.
  assert (Hlt : (a < length (heap w))%nat) by (eapply lookup_lt_Some; exact Ha).
  pose proof (condRefresh_nothing_found _ now1 now2 _ _ _ _ _ _ Ha Hdue Hs1 Hs2 Hnil) as Hc.
  set (w1 := {| heap := <[a := NVersions (cleared n)]> (heap w); client := c2;
                queries := queries w
                             ++ [QWithAttr root_request; QWithAttr import_request] |})
    in Hc.
  assert (Ha1 : heap w1 !! a = Some (NVersions (cleared n)))
    by (apply list_lookup_insert_eq; exact Hlt).
  assert (Hdue' : After (lastQuery (cleared n)) (Add now1' (- versionsRefreshTime)) = false).
  { apply After_window_false. apply After_window_false in Hdue.
    cbn [cleared lastQuery]. lia. }
  destruct (versionsDir_ReadDir_due _ now1' now2' _ _ Ha1 Hdue') as (res & w2 & qs & Hrd2 & Hq2).
  exists w1, (cleared n), res, w2, qs.
  split.
  { rewrite (versionsDir_ReadDir_ok _ _ _ _ _ _ Hc Ha1). reflexivity. }
  split; [reflexivity |]. split; [exact Ha1 |]. split; [reflexivity |].
  split; [exact Hrd2 |].
  rewrite Hq2. cbn [w1 queries]. rewrite <- app_assoc. reflexivity.
Qed.

(** X19.  What does hold when the refresh finds a permanode:
    [lastQuery] is set, a second [ReadDir] less than a minute later
    sends nothing and returns the same listing, and one a minute later
    or more sends the searches again. *)
Lemma versionsDir_ReadDir_one_pair_per_window
    a now1 now2 now1' now2' now1'' now2'' w n rootRes c1 impRes c2 dres c3 :
  heap w !! a = Some (NVersions n) ->
  After (lastQuery n) (Add now1 (- versionsRefreshTime)) = false ->
  GetPermanodesWithAttr (client w) root_request = (Some rootRes, c1) ->
  GetPermanodesWithAttr c1 import_request = (Some impRes, c2) ->
  found_refs rootRes impRes <> [] ->
  Describe c2 (batch_request rootRes impRes) = (Some dres, c3) ->
  now1' - now2 < versionsRefreshTime ->
  versionsRefreshTime <= now1'' - now2 ->
  exists w1 ents,
    versionsDir_ReadDir a now1 now2 w = Some (Ok ents, w1)
    /\ queries w1
       = queries w ++ [QWithAttr root_request; QWithAttr import_request;
                       QDescribe (batch_request rootRes impRes)]
    /\ versionsDir_ReadDir a now1' now2' w1 = Some (Ok ents, w1)
    /\ exists res w3 qs,
         versionsDir_ReadDir a now1'' now2'' w1 = Some (res, w3)
         /\ queries w3
            = queries w1 ++ [QWithAttr root_request; QWithAttr import_request] ++ qs.
Proof.
  intros Ha Hdue Hs1 Hs2 Hne Hd Hin Hout.
  assert (Hlt : (a < length (heap w))%nat) by (eapply lookup_lt_Some; exact Ha).
  pose proof (condRefresh_done _ now1 now2 _ _ _ _ _ _ _ _ Ha Hdue Hs1 Hs2 Hne Hd) as Hc.
  set (w1 := {| heap := <[a := NVersions (refreshed n rootRes impRes dres now2)]> (heap w);
                client := c3;
                queries := queries w
                             ++ [QWithAttr root_request; QWithAttr import_request;
                                 QDescribe (batch_request rootRes impRes)] |}) in Hc.
  assert (Ha1 : heap w1 !! a = Some (NVersions (refreshed n rootRes impRes dres now2)))
    by (apply list_lookup_insert_eq; exact Hlt).
  exists w1, (listing (vd_m (refreshed n rootRes impRes dres now2))).
  split; [apply (versionsDir_ReadDir_ok _ _ _ _ _ _ Hc Ha1) |].
  split; [reflexivity |]. split.
  - apply versionsDir_ReadDir_within_window; [exact Ha1 | exact Hin].
  - apply versionsDir_ReadDir_due with (n := refreshed n rootRes impRes dres now2);
      [exact Ha1 |].
    apply After_window_false. exact Hout.
Qed.

(** ** C5: a refresh that fails *)

(** C5, as the code has it.  A refresh that is due fails exactly when
    one of the two searches errors, or both answer, find a permanode,
    and the batch Describe errors.  It then returns EIO, and so do
    [ReadDir] and [Lookup].  Everything else in the heap, the timestamp
    and every memoized child are as before, and the directory is due
    again at any later time, so the next access sends the searches
    again.  The directory is untouched when a search failed; when the
    searches succeeded and the batch Describe failed, the name map has
    already been replaced by an empty one, and an unset children map by
    an empty one. *)
Theorem condRefresh_failure_keeps a name now1 now2 now1' now2' w n r1 c1 r2 c2 :
  heap w !! a = Some (NVersions n) ->
  After (lastQuery n) (Add now1 (- versionsRefreshTime)) = false ->
  GetPermanodesWithAttr (client w) root_request = (r1, c1) ->
  GetPermanodesWithAttr c1 import_request = (r2, c2) ->
  now1 <= now1' ->
  (forall c' qs,
      refresh_fails c2 r1 r2 c' qs ->
      exists w' n',
        condRefresh a now1 now2 w = Some (Some EIO, w')
        /\ versionsDir_ReadDir a now1 now2 w = Some (Err EIO, w')
        /\ versionsDir_Lookup a name now1 now2 w = Some (Err EIO, w')
        /\ client w' = c'
        /\ queries w'
           = queries w ++ [QWithAttr root_request; QWithAttr import_request] ++ qs
        /\ heap w' !! a = Some (NVersions n')
        /\ (forall b, b <> a -> heap w' !! b = heap w !! b)
        /\ lastQuery n' = lastQuery n
        /\ default ∅ (vd_children n') = default ∅ (vd_children n)
        /\ (r1 = None \/ r2 = None -> n' = n)
        /\ (is_Some r1 -> is_Some r2 ->
            vd_m n' = Some ∅
            /\ vd_children n' = Some (default ∅ (vd_children n)))
        /\ exists e2 w2 qs2,
            condRefresh a now1' now2' w' = Some (e2, w2)
            /\ queries w2
               = queries w' ++ [QWithAttr root_request; QWithAttr import_request]
                   ++ qs2)
  /\ (forall e w',
        condRefresh a now1 now2 w = Some (Some e, w') ->
        e = EIO /\ exists c' qs, refresh_fails c2 r1 r2 c' qs).
Proof.
  intros Ha Hdue Hs1 Hs2 Hle.
  assert (Hlt : (a < length (heap w))%nat) by (eapply lookup_lt_Some; exact Ha).
  assert (Hdue' : After (lastQuery n) (Add now1' (- versionsRefreshTime)) = false).
  { apply After_window_false. apply After_window_false in Hdue. lia. }
  assert (Hretry : forall w0 n0,
             heap w0 !! a = Some (NVersions n0) -> lastQuery n0 = lastQuery n ->
             exists e2 w2 qs,
               condRefresh a now1' now2' w0 = Some (e2, w2)
               /\ queries w2
                  = queries w0 ++ [QWithAttr root_request; QWithAttr import_request] ++ qs).
  { intros w0 n0 Ha0 Hlq.
    destruct (condRefresh_due a now1' now2' w0 n0 Ha0) as (e2 & w2 & _ & qs & Hc & _ & Hq).
    - rewrite Hlq. exact Hdue'.
    - eauto. }
  split.
  - intros c' qs [Hnone | rootRes impRes c3 -> -> Hne Hd].
    + (* a search failed *)
      pose proof (condRefresh_search_error _ _ now2 _ _ _ _ _ _ Ha Hdue Hs1 Hs2 Hnone)
        as Hc.
      exists (after_searches w c2), n.
      split; [exact Hc |].
      split; [apply (versionsDir_ReadDir_err _ _ _ _ _ _ Hc) |].
      split; [apply (versionsDir_Lookup_err _ _ _ _ _ _ _ Hc) |].
      split; [reflexivity |].
      split; [cbn [after_searches queries]; rewrite app_nil_r; reflexivity |].
      split; [exact Ha |]. split; [reflexivity |]. split; [reflexivity |].
      split; [reflexivity |]. split; [reflexivity |].
      split.
      { intros [x1 Hx1] [x2 Hx2]. destruct Hnone as [Hn | Hn]; congruence. }
      eapply Hretry; [exact Ha | reflexivity].
    + (* the batch Describe failed *)
      pose proof (condRefresh_Describe_error _ _ now2 _ _ _ _ _ _ _
                    Ha Hdue Hs1 Hs2 Hne Hd) as Hc.
      eexists _, (cleared n).
      split; [exact Hc |].
      split; [apply (versionsDir_ReadDir_err _ _ _ _ _ _ Hc) |].
      split; [apply (versionsDir_Lookup_err _ _ _ _ _ _ _ Hc) |].
      cbn [heap client queries].
      assert (Ha' : <[a := NVersions (cleared n)]> (heap w) !! a
                    = Some (NVersions (cleared n)))
        by (apply list_lookup_insert_eq; exact Hlt).
      split; [reflexivity |]. split; [reflexivity |].
      split; [exact Ha' |].
      split; [intros b Hb; apply list_lookup_insert_ne; congruence |].
      split; [reflexivity |].
      split; [cbn; destruct (vd_children n); reflexivity |].
      split; [intros [Hn | Hn]; discriminate |].
      split; [intros _ _; split; reflexivity |].
      eapply Hretry; [exact Ha' | reflexivity].
  - intros e w' Hrun.
    destruct r1 as [rootRes |]; [destruct r2 as [impRes |] |].
    + destruct (found_refs rootRes impRes) as [| r l] eqn:Hrefs.
      { rewrite (condRefresh_nothing_found _ _ _ _ _ _ _ _ _ Ha Hdue Hs1 Hs2 Hrefs)
          in Hrun.
        discriminate. }
      assert (Hne : found_refs rootRes impRes <> []) by (rewrite Hrefs; discriminate).
      destruct (Describe c2 (batch_request rootRes impRes)) as [[dres |] c3] eqn:Hd.
      { rewrite (condRefresh_done _ _ _ _ _ _ _ _ _ _ _ Ha Hdue Hs1 Hs2 Hne Hd) in Hrun.
        discriminate. }
      rewrite (condRefresh_Describe_error _ _ _ _ _ _ _ _ _ _ Ha Hdue Hs1 Hs2 Hne Hd)
        in Hrun.
      injection Hrun as <- _. split; [reflexivity |].
      exists c3, [QDescribe (batch_request rootRes impRes)].
      apply (Describe_fails c2 _ _ rootRes impRes c3 eq_refl eq_refl Hne Hd).
    + rewrite (condRefresh_search_error _ _ _ _ _ _ _ _ _ Ha Hdue Hs1 Hs2) in Hrun
        by auto.
      injection Hrun as <- _. split; [reflexivity |].
      exists c2, []. apply search_fails. auto.
    + rewrite (condRefresh_search_error _ _ _ _ _ _ _ _ _ Ha Hdue Hs1 Hs2) in Hrun
        by auto.
      injection Hrun as <- _. split; [reflexivity |].
      exists c2, []. apply search_fails. auto.
Qed.

(** ** versionsDir: the names a refresh finds *)

Lemma add_root_eq dres st wi :
  add_root dres st wi
  = match root_name dres wi with
    | Some name => ({[name]} ∪ st.1, <[name := wi_Permanode wi]> st.2)
    | None => st
    end.
Proof.
  unfold add_root, root_name.
  destruct (Meta dres !! RefString (wi_Permanode wi)) as [db |]; [| reflexivity].
  destruct (Permanode db) as [p |]; [| reflexivity].
  destruct (String.eqb (Values_Get (Attr p) "camliRoot") ""); reflexivity.
Qed.

Lemma add_importer_eq dres m wi :
  add_importer dres m wi
  = match importer_name dres wi with
    | Some name => <[name := wi_Permanode wi]> m
    | None => m
    end.
Proof.
  unfold add_importer, importer_name, sanitize.
  destruct (Meta dres !! RefString (wi_Permanode wi)) as [db |]; [| reflexivity].
  destruct (Permanode db) as [p |]; [| reflexivity].
  destruct (String.eqb (Values_Get (Attr p) "camliImportRoot") ""); reflexivity.
Qed.

(** [currentRoots] holds the names of the roots found, and nothing
    else. *)
Lemma elem_of_currentRoots dres l st name :
  name ∈ (fold_left (add_root dres) l st).1
  <-> name ∈ st.1 \/ exists wi, wi ∈ l /\ root_name dres wi = Some name.
Proof.
  revert st. induction l as [| wi l IH]; intros st; cbn [fold_left].
  - split; [auto |]. intros [Hin | (wi & Hin & _)]; [exact Hin |].
    apply elem_of_nil in Hin. contradiction.
  - rewrite IH, add_root_eq. split.
    + intros [Hin | (wi' & Hin & Hn)].
      * destruct (root_name dres wi) as [name' |] eqn:Hrn; [| auto].
        cbn [fst] in Hin. apply elem_of_union in Hin as [Hin | Hin]; [| auto].
        apply elem_of_singleton in Hin as ->. right. exists wi.
        split; [apply list_elem_of_here | exact Hrn].
      * right. exists wi'. split; [apply list_elem_of_further; exact Hin | exact Hn].
    + intros [Hin | (wi' & Hin & Hn)].
      * left. destruct (root_name dres wi); [| exact Hin].
        cbn [fst]. apply elem_of_union. auto.
      * apply elem_of_cons in Hin as [-> | Hin].
        -- left. rewrite Hn. cbn [fst]. apply elem_of_union. left.
           apply elem_of_singleton. reflexivity.
        -- right. eauto.
Qed.

(** What the roots loop leaves in [n.m]. *)
Lemma lookup_roots_map dres l st name pn :
  (fold_left (add_root dres) l st).2 !! name = Some pn ->
  st.2 !! name = Some pn
  \/ exists wi, wi ∈ l /\ root_name dres wi = Some name /\ wi_Permanode wi = pn.
Proof.
  revert st. induction l as [| wi l IH]; intros st; cbn [fold_left]; [auto |].
  intros Hl. apply IH in Hl as [Hl | (wi' & Hin & Hn & Hp)].
  - rewrite add_root_eq in Hl.
    destruct (root_name dres wi) as [name' |] eqn:Hrn; [| auto].
    cbn [snd] in Hl. apply lookup_insert_Some in Hl as [[-> <-] | [_ Hl]]; [| auto].
    right. exists wi. split; [apply list_elem_of_here | auto].
  - right. exists wi'. split; [apply list_elem_of_further; exact Hin | auto].
Qed.

(** What the importers loop leaves in [n.m]. *)
Lemma lookup_importers_map dres l m name pn :
  fold_left (add_importer dres) l m !! name = Some pn ->
  m !! name = Some pn
  \/ exists wi, wi ∈ l /\ importer_name dres wi = Some name /\ wi_Permanode wi = pn.
Proof.
  revert m. induction l as [| wi l IH]; intros m; cbn [fold_left]; [auto |].
  intros Hl. apply IH in Hl as [Hl | (wi' & Hin & Hn & Hp)].
  - rewrite add_importer_eq in Hl.
    destruct (importer_name dres wi) as [name' |] eqn:Hrn; [| auto].
    apply lookup_insert_Some in Hl as [[-> <-] | [_ Hl]]; [| auto].
    right. exists wi. split; [apply list_elem_of_here | auto].
  - right. exists wi'. split; [apply list_elem_of_further; exact Hin | auto].
Qed.

(** A name that is in [n.m] stays in it through the importers loop. *)
Lemma importers_map_keeps dres l m name :
  is_Some (m !! name) ->
  is_Some (fold_left (add_importer dres) l m !! name).
Proof.
  revert m. induction l as [| wi l IH]; intros m Hm; cbn [fold_left]; [exact Hm |].
  apply IH. rewrite add_importer_eq.
  destruct (importer_name dres wi) as [name' |]; [| exact Hm].
  apply lookup_insert_is_Some. destruct (decide (name' = name)); auto.
Qed.


(** A name that is in [n.m] stays in it through the roots loop, and a
    root that is found is in [n.m] under its name. *)
Lemma roots_map_keeps dres l st name :
  is_Some (st.2 !! name) ->
  is_Some ((fold_left (add_root dres) l st).2 !! name).
Proof.
  revert st. induction l as [| wi l IH]; intros st Hm; cbn [fold_left]; [exact Hm |].
  apply IH. rewrite add_root_eq.
  destruct (root_name dres wi) as [name' |]; [| exact Hm].
  cbn [snd]. apply lookup_insert_is_Some. destruct (decide (name' = name)); auto.
Qed.

Lemma root_is_listed dres l st name wi :
  wi ∈ l ->
  root_name dres wi = Some name ->
  is_Some ((fold_left (add_root dres) l st).2 !! name).
Proof.
  revert st. induction l as [| wi0 l IH]; intros st Hin Hn.
  - apply elem_of_nil in Hin. contradiction.
  - cbn [fold_left]. apply elem_of_cons in Hin as [-> | Hin].
    + apply roots_map_keeps. rewrite add_root_eq, Hn. cbn [snd].
      rewrite lookup_insert_eq. eauto.
    + apply IH; assumption.
Qed.

(** Every ref that a refresh puts in [n.m] is one of the refs found. *)
Lemma refreshed_map_found n rootRes impRes dres now2 name br :
  default ∅ (vd_m (refreshed n rootRes impRes dres now2)) !! name = Some br ->
  br ∈ found_refs rootRes impRes.
Proof.
  cbn [refreshed vd_m default from_option id]. intros Hl.
  unfold found_refs. apply elem_of_app.
  apply lookup_importers_map in Hl as [Hl | (wi & Hin & _ & <-)].
  - apply lookup_roots_map in Hl as [Hl | (wi & Hin & _ & <-)].
    + cbn in Hl. rewrite lookup_empty in Hl. discriminate.
    + left. apply list_elem_of_fmap_2. exact Hin.
  - right. apply list_elem_of_fmap_2. exact Hin.
Qed.

(** What the eviction keeps and what it drops. *)
Lemma lookup_evict roots (ch : gmap string addr) name :
  evict roots ch !! name = (if decide (name ∈ roots) then ch !! name else None).
Proof.
  unfold evict. destruct (decide (name ∈ roots)) as [Hin | Hnin].
  - destruct (ch !! name) as [c |] eqn:Hl.
    + apply map_lookup_filter_Some. auto.
    + apply map_lookup_filter_None. left. exact Hl.
  - apply map_lookup_filter_None. right. intros c _ Hin. exact (Hnin Hin).
Qed.

(** ** C6: the eviction of children that are no longer roots *)

(** X20.  What does hold of the eviction: a refresh that goes through
    (it found a permanode and the batch Describe succeeded) drops from
    the cache every child whose name is not the name of a root it found;
    such a name is listed only if an import root carries it. *)
Lemma refresh_evicts a now1 now2 w n rootRes c1 impRes c2 dres c3 name :
  heap w !! a = Some (NVersions n) ->
  After (lastQuery n) (Add now1 (- versionsRefreshTime)) = false ->
  GetPermanodesWithAttr (client w) root_request = (Some rootRes, c1) ->
  GetPermanodesWithAttr c1 import_request = (Some impRes, c2) ->
  found_refs rootRes impRes <> [] ->
  Describe c2 (batch_request rootRes impRes) = (Some dres, c3) ->
  (forall wi, wi ∈ WithAttr rootRes -> root_name dres wi <> Some name) ->
  exists w1 n1,
    condRefresh a now1 now2 w = Some (None, w1)
    /\ heap w1 !! a = Some (NVersions n1)
    /\ default ∅ (vd_children n1) !! name = None
    /\ ((forall wi, wi ∈ WithAttr impRes -> importer_name dres wi <> Some name) ->
        default ∅ (vd_m n1) !! name = None).
Proof.
  intros Ha Hdue Hs1 Hs2 Hne Hd Hnot.
  assert (Hlt : (a < length (heap w))%nat) by (eapply lookup_lt_Some; exact Ha).
  eexists _, (refreshed n rootRes impRes dres now2).
  split; [apply (condRefresh_done _ _ _ _ _ _ _ _ _ _ _ Ha Hdue Hs1 Hs2 Hne Hd) |].
  cbn [heap]. split; [apply list_lookup_insert_eq; exact Hlt |].
  cbn [refreshed vd_children vd_m default from_option id]. split.
  - rewrite lookup_evict. destruct (decide _) as [Hin | _]; [| reflexivity].
    apply elem_of_currentRoots in Hin as [Hin | (wi & Hin & Hn)].
    + cbn in Hin. apply elem_of_empty in Hin. contradiction.
    + exfalso. exact (Hnot _ Hin Hn).
  - intros Hnoimp.
    destruct (fold_left (add_importer dres) (WithAttr impRes) _ !! name)
      as [br |] eqn:Hl; [| reflexivity].
    exfalso.
    apply lookup_importers_map in Hl as [Hl | (wi & Hin & Hn & _)].
    + apply lookup_roots_map in Hl as [Hl | (wi & Hin & Hn & _)].
      * cbn in Hl. rewrite lookup_empty in Hl. discriminate.
      * exact (Hnot _ Hin Hn).
    + exact (Hnoimp _ Hin Hn).
Qed.

(** C6, as the code has it.  The child of the root [name] is memoized.
    A refresh then succeeds without finding any permanode: it returns
    before the eviction loop.  [Lookup] of [name] answers ENOENT, but
    the child is still in the cache; and when a root of that name is
    found again by a later refresh, [Lookup] hands out the old child,
    whatever permanode the root has by then. *)
Theorem stale_child_outlives_empty_refresh
    a name c_old now1 now2 now1' now2' w n ch
    rootRes c1 impRes c2 rootRes' c3 impRes' c4 dres c5 wi :
  heap w !! a = Some (NVersions n) ->
  vd_children n = Some ch ->
  ch !! name = Some c_old ->
  After (lastQuery n) (Add now1 (- versionsRefreshTime)) = false ->
  GetPermanodesWithAttr (client w) root_request = (Some rootRes, c1) ->
  GetPermanodesWithAttr c1 import_request = (Some impRes, c2) ->
  found_refs rootRes impRes = [] ->
  Valid zeroRef = false ->
  now1 <= now1' ->
  GetPermanodesWithAttr c2 root_request = (Some rootRes', c3) ->
  GetPermanodesWithAttr c3 import_request = (Some impRes', c4) ->
  Describe c4 (batch_request rootRes' impRes') = (Some dres, c5) ->
  wi ∈ WithAttr rootRes' ->
  root_name dres wi = Some name ->
  (forall r, r ∈ found_refs rootRes' impRes' -> Valid r = true) ->
  exists w1 n1 w2,
    versionsDir_Lookup a name now1 now2 w = Some (Err ENOENT, w1)
    /\ versionsDir_ReadDir a now1 now2 w = Some (Ok [], w1)
    /\ heap w1 !! a = Some (NVersions n1)
    /\ vd_children n1 = Some ch
    /\ versionsDir_Lookup a name now1' now2' w1 = Some (Ok c_old, w2).
Proof.
  intros Ha Hch Hold Hdue Hs1 Hs2 Hnil Hz Hle Hs3 Hs4 Hd Hin Hrn Hvalid.
  assert (Hlt : (a < length (heap w))%nat) by (eapply lookup_lt_Some; exact Ha).
  pose proof (condRefresh_nothing_found _ now1 now2 _ _ _ _ _ _ Ha Hdue Hs1 Hs2 Hnil) as Hc.
  set (w1 := {| heap := <[a := NVersions (cleared n)]> (heap w); client := c2;
                queries := queries w
                             ++ [QWithAttr root_request; QWithAttr import_request] |})
    in Hc.
  assert (Ha1 : heap w1 !! a = Some (NVersions (cleared n)))
    by (apply list_lookup_insert_eq; exact Hlt).
  assert (Hdue' : After (lastQuery (cleared n)) (Add now1' (- versionsRefreshTime)) = false).
  { apply After_window_false. apply After_window_false in Hdue.
    cbn [cleared lastQuery]. lia. }
  assert (Hne : found_refs rootRes' impRes' <> []).
  { unfold found_refs. intros Hx. apply app_eq_nil in Hx as [Hx _].
    apply fmap_nil_inv in Hx. rewrite Hx in Hin.
    apply elem_of_nil in Hin. exact Hin. }
  pose proof (condRefresh_done a now1' now2' w1 (cleared n) rootRes' c3 impRes' c4 dres c5
                Ha1 Hdue' Hs3 Hs4 Hne Hd) as Hc2.
  eexists w1, (cleared n), _.
  split.
  { apply (versionsDir_Lookup_absent _ _ _ _ _ _ _ Hc Ha1).
    cbn. rewrite lookup_empty. exact Hz. }
  split; [apply (versionsDir_ReadDir_ok _ _ _ _ _ _ Hc Ha1) |].
  split; [exact Ha1 |].
  split; [cbn [cleared vd_children]; rewrite Hch; reflexivity |].
  eapply versionsDir_Lookup_memoized with
    (n1 := refreshed (cleared n) rootRes' impRes' dres now2').
  - exact Hc2.
  - cbn [heap]. apply list_lookup_insert_eq. eapply lookup_lt_Some. exact Ha1.
  - destruct (default ∅ (vd_m (refreshed (cleared n) rootRes' impRes' dres now2')) !! name)
      as [br |] eqn:Hl.
    + cbn [default from_option id]. apply Hvalid.
      eapply refreshed_map_found. exact Hl.
    + exfalso. cbn [refreshed vd_m default from_option id] in Hl.
      pose proof (importers_map_keeps dres (WithAttr impRes')
                    (fold_left (add_root dres) (WithAttr rootRes') (∅, ∅)).2 name
                    (root_is_listed _ _ _ _ _ Hin Hrn)) as [x Hx].
      rewrite Hx in Hl. discriminate.
  - cbn [refreshed vd_children cleared default from_option id]. rewrite Hch.
    cbn [default from_option id]. rewrite lookup_evict.
    destruct (decide _) as [_ | Hnin]; [exact Hold |].
    exfalso. apply Hnin. apply elem_of_currentRoots. right. eauto.
Qed.

(** ** C10: the children of import roots *)


(** ** roDirV: what populate makes of the camliPath attributes *)

Lemma dv_populate_entry_eq a res kv :
  dv_populate_entry (C := C) a res kv
  = match entry_child res kv with
    | Skipped => ret tt
    | Panics => panic
    | Child name childRef kind cp =>
        dv_add_child a name (child_node a name childRef kind) cp
    end.
Proof.
  destruct kv as [k v]. unfold dv_populate_entry, entry_child. cbn [fst snd].
  destruct (negb (String.prefix camliPathPrefix k) || (Z.of_nat (length v) <? 1));
    [reflexivity |].
  destruct v as [| childRef v']; [reflexivity |].
  destruct (Meta res !! childRef) as [child |]; [| reflexivity].
  destruct (Permanode child) as [cp |]; [| reflexivity].
  destruct (negb (String.eqb (Values_Get (Attr cp) "camliSymlinkTarget") ""));
    [reflexivity |].
  destruct (isDir cp); [reflexivity |].
  destruct (negb (String.eqb (Values_Get (Attr cp) "camliContent") ""));
    [| reflexivity].
  destruct (Meta res !! Values_Get (Attr cp) "camliContent") as [content |];
    [| reflexivity].
  destruct (negb (String.eqb (CamliType content) "file")); reflexivity.
Qed.

Lemma child_ino_node_ino h c nd :
  h !! c = Some nd -> child_ino h c = node_ino nd.
Proof. intros Hc. unfold child_ino. rewrite Hc. destruct nd; reflexivity. Qed.

Lemma node_ino_loaded nd x : node_ino (loaded nd x) = node_ino nd.
Proof. destruct nd; reflexivity. Qed.

(** The inode that [ReadDir] reports for a child of each kind. *)
Lemma node_ino_child_node a name childRef kind x :
  node_ino (loaded (child_node a name childRef kind) x)
  = match kind with
    | KDir => Sum64 (ParseOrZero childRef)
    | KSymlink _ | KFile => 0
    end.
Proof. destruct kind; reflexivity. Qed.

Lemma dv_add_child_eq a w n ch name childRef kind cp :
  heap w !! a = Some (NDirV n) ->
  dv_children n = Some ch ->
  dv_add_child a name (child_node a name childRef kind) cp w
  = Some (tt,
          {| heap := <[length (heap w) :=
                         loaded (child_node a name childRef kind) (xattr_load cp)]>
                       (<[a := NDirV (dv_with_children n
                                        (Some (<[name := length (heap w)]> ch)))]>
                          (heap w ++ [child_node a name childRef kind]));
             client := client w; queries := queries w |}).
Proof.
  intros Ha Hch.
  assert (Hlt : (a < length (heap w))%nat) by (eapply lookup_lt_Some; exact Ha).
  unfold dv_add_child. unfold bind at 1. unfold new at 1.
  unfold dv_set_child. unfold bind at 1.
  erewrite (bind_eq _ _ _ n); [| apply the_roDirV_eq; cbn [heap];
                                  rewrite lookup_app_l by exact Hlt; exact Ha].
  rewrite Hch. unfold store at 1. cbn [heap client queries].
  unfold node_load_xattrs, bind, deref. cbn [heap].
  rewrite list_lookup_insert_ne by lia.
  rewrite lookup_app_r by lia. rewrite Nat.sub_diag. cbn [lookup list_lookup].
  destruct kind; reflexivity.
Qed.

Lemma dv_populate_entry_step a res kv w sm :
  entry_child res kv <> Panics ->
  children_are a w sm ->
  exists w',
    dv_populate_entry a res kv w = Some (tt, w')
    /\ children_are a w' (note_child a res sm kv)
    /\ client w' = client w /\ queries w' = queries w.
Proof.
  intros Hnp (n & ch & Ha & Hch & Hnone & Hsome).
  rewrite dv_populate_entry_eq. unfold note_child.
  destruct (entry_child res kv) as [| | name childRef kind cp] eqn:Hec.
  - exists w. split; [reflexivity |]. split; [| auto].
    exists n, ch. auto.
  - congruence.
  - assert (Hlt : (a < length (heap w))%nat) by (eapply lookup_lt_Some; exact Ha).
    rewrite (dv_add_child_eq _ _ _ _ _ _ _ _ Ha Hch).
    eexists. split; [reflexivity |]. split; [| auto].
    exists (dv_with_children n (Some (<[name := length (heap w)]> ch))),
           (<[name := length (heap w)]> ch).
    cbn [heap]. split.
    { rewrite list_lookup_insert_ne by lia.
      apply list_lookup_insert_eq. rewrite length_app. cbn [length]. lia. }
    split; [reflexivity |]. split.
    { intros name' Hl. apply lookup_insert_None in Hl as [Hl Hne].
      rewrite lookup_insert_ne by exact Hne. auto. }
    intros name' c Hl.
    apply lookup_insert_Some in Hl as [[<- <-] | [Hne Hl]].
    + split; [lia |]. eexists. split; [apply lookup_insert_eq |].
      apply list_lookup_insert_eq. rewrite length_insert, length_app.
      cbn [length]. lia.
    + destruct (Hsome _ _ Hl) as (Hca & nd & Hsm & Hc).
      split; [exact Hca |]. exists nd.
      split; [rewrite lookup_insert_ne by exact Hne; exact Hsm |].
      assert ((c < length (heap w))%nat) by (eapply lookup_lt_Some; exact Hc).
      rewrite list_lookup_insert_ne by lia.
      rewrite list_lookup_insert_ne by congruence.
      apply lookup_app_l_Some. exact Hc.
Qed.

Lemma dv_populate_loop a res l :
  forall w sm,
    (forall kv, kv ∈ l -> entry_child res kv <> Panics) ->
    children_are a w sm ->
    exists w',
      for_each (dv_populate_entry a res) l w = Some (tt, w')
      /\ children_are a w' (fold_left (note_child a res) l sm)
      /\ client w' = client w /\ queries w' = queries w.
Proof.
  induction l as [| kv l IH]; intros w sm Hnp Hinv.
  - exists w. cbn. auto.
  - destruct (dv_populate_entry_step a res kv w sm) as (w1 & Hstep & Hinv1 & Hc1 & Hq1).
    { apply Hnp. apply list_elem_of_here. }
    { exact Hinv. }
    destruct (IH w1 (note_child a res sm kv)) as (w' & Hrun & Hinv' & Hc' & Hq').
    { intros kv' Hin. apply Hnp. apply list_elem_of_further. exact Hin. }
    { exact Hinv1. }
    exists w'. cbn [for_each fold_left]. rewrite (bind_eq _ _ _ _ _ Hstep).
    split; [exact Hrun |]. split; [exact Hinv' |]. split; congruence.
Qed.

(** The key of an attribute that becomes a child is ["camliPath:"]
    followed by the name of the child. *)
Lemma prefix_string_drop p k :
  String.prefix p k = true -> k = p +:+ string_drop (String.length p) k.
Proof.
  revert k. induction p as [| c p IH]; intros k Hp; [reflexivity |].
  destruct k as [| c' k]; [discriminate |]. cbn in Hp.
  destruct (Ascii.ascii_dec c c') as [-> | Hne]; [| discriminate].
  change (String c' k = String c' (p +:+ string_drop (String.length p) k)).
  f_equal. apply IH. exact Hp.
Qed.

Lemma entry_child_key res k v name childRef kind cp :
  entry_child res (k, v) = Child name childRef kind cp ->
  k = camliPathPrefix +:+ name /\ exists v', v = childRef :: v'.
Proof.
  unfold entry_child. cbn [fst snd].
  destruct (String.prefix camliPathPrefix k) eqn:Hp; [| discriminate].
  cbn [negb orb].
  destruct (Z.of_nat (length v) <? 1); [discriminate |].
  destruct v as [| cr v']; [discriminate |].
  destruct (Meta res !! cr) as [child |]; [| discriminate].
  destruct (Permanode child) as [cp' |]; [| discriminate].
  assert (Hk : k = camliPathPrefix
                   +:+ string_drop (String.length camliPathPrefix) k)
    by (apply prefix_string_drop; exact Hp).
  destruct (negb (String.eqb (Values_Get (Attr cp') "camliSymlinkTarget") "")).
  { intros [= <- <- _ _]. split; [exact Hk | eauto]. }
  destruct (isDir cp').
  { intros [= <- <- _ _]. split; [exact Hk | eauto]. }
  destruct (negb (String.eqb (Values_Get (Attr cp') "camliContent") ""));
    [| discriminate].
  destruct (Meta res !! Values_Get (Attr cp') "camliContent") as [content |];
    [| discriminate].
  destruct (negb (String.eqb (CamliType content) "file")); [discriminate |].
  intros [= <- <- _ _]. split; [exact Hk | eauto].
Qed.

Lemma lookup_noted a res l sm name nd :
  fold_left (note_child a res) l sm !! name = Some nd ->
  sm !! name = Some nd
  \/ exists kv childRef kind cp,
       kv ∈ l /\ entry_child res kv = Child name childRef kind cp
       /\ nd = loaded (child_node a name childRef kind) (xattr_load cp).
Proof.
  revert sm. induction l as [| kv l IH]; intros sm; cbn [fold_left]; [auto |].
  intros Hl. apply IH in Hl as [Hl | (kv' & cr & kind & cp & Hin & He & ->)].
  - unfold note_child in Hl.
    destruct (entry_child res kv) as [| | name' cr kind cp] eqn:He; [auto | auto |].
    apply lookup_insert_Some in Hl as [[-> <-] | [_ Hl]]; [| auto].
    right. exists kv, cr, kind, cp. split; [apply list_elem_of_here | auto].
  - right. exists kv', cr, kind, cp.
    split; [apply list_elem_of_further; exact Hin | auto].
Qed.

Lemma lookup_noted_other a res l sm name :
  (forall kv childRef kind cp,
      kv ∈ l -> entry_child res kv <> Child name childRef kind cp) ->
  fold_left (note_child a res) l sm !! name = sm !! name.
Proof.
  revert sm. induction l as [| kv l IH]; intros sm Hno; cbn [fold_left];
    [reflexivity |].
  rewrite IH.
  - unfold note_child.
    destruct (entry_child res kv) as [| | name' cr kind cp] eqn:He;
      [reflexivity | reflexivity |].
    apply lookup_insert_ne. intros ->.
    apply (Hno kv cr kind cp); [apply list_elem_of_here | exact He].
  - intros kv' cr kind cp Hin. apply Hno. apply list_elem_of_further. exact Hin.
Qed.

(** Over the attributes of a permanode no child is entered twice: the
    children are exactly the attributes that [entry_child] turns into a
    child. *)
Lemma lookup_noted_attrs a res (attrs : Values) name nd :
  fold_left (note_child a res) (map_to_list attrs) ∅ !! name = Some nd
  <-> exists v childRef kind cp,
        attrs !! (camliPathPrefix +:+ name) = Some v
        /\ entry_child res (camliPathPrefix +:+ name, v) = Child name childRef kind cp
        /\ nd = loaded (child_node a name childRef kind) (xattr_load cp).
Proof.
  split.
  - intros Hl. apply lookup_noted in Hl as [Hl | ([k v] & cr & kind & cp & Hin & He & ->)].
    { rewrite lookup_empty in Hl. discriminate. }
    apply elem_of_map_to_list in Hin.
    destruct (entry_child_key _ _ _ _ _ _ _ He) as [-> _].
    exists v, cr, kind, cp. auto.
  - intros (v & cr & kind & cp & Hat & He & ->).
    apply elem_of_map_to_list in Hat.
    pose proof (NoDup_fst_map_to_list attrs) as Hnd.
    revert Hat Hnd. generalize (map_to_list attrs). generalize (∅ : gmap string node).
    intros sm l. revert sm. induction l as [| kv l IH]; intros sm Hin Hnd.
    + apply elem_of_nil in Hin. contradiction.
    + cbn [fold_left]. cbn [fmap list_fmap] in Hnd. apply NoDup_cons in Hnd as [Hnin Hnd].
      apply elem_of_cons in Hin as [<- | Hin].
      * rewrite lookup_noted_other.
        -- unfold note_child. rewrite He. apply lookup_insert_eq.
        -- intros [k' v'] cr' kind' cp' Hin' He'.
           destruct (entry_child_key _ _ _ _ _ _ _ He') as [-> _].
           apply Hnin. cbn [fst]. apply list_elem_of_fmap.
           exists (camliPathPrefix +:+ name, v'). auto.
      * apply IH; assumption.
Qed.

Lemma roDirV_populate_children a w n res c db p :
  heap w !! a = Some (NDirV n) ->
  dv_children n = None ->
  Describe (client w) (dv_describe_request n) = (Some res, c) ->
  Meta res !! RefString (dv_permanode n) = Some db ->
  Permanode db = Some p ->
  (forall k v, Attr p !! k = Some v -> entry_child res (k, v) <> Panics) ->
  exists w',
    roDirV_populate a w = Some (None, w')
    /\ children_are a w' (fold_left (note_child a res) (map_to_list (Attr p)) ∅)
    /\ client w' = c
    /\ queries w' = queries w ++ [QDescribe (dv_describe_request n)].
Proof.
  intros Ha Hch Hd Hm Hp Hnp.
  assert (Hlt : (a < length (heap w))%nat) by (eapply lookup_lt_Some; exact Ha).
  set (w0 := {| heap := <[a := NDirV (dv_with_children n (Some ∅))]> (heap w);
                client := c;
                queries := queries w ++ [QDescribe (dv_describe_request n)] |}).
  destruct (dv_populate_loop a res (map_to_list (Attr p)) w0 ∅)
    as (w' & Hrun & Hinv & Hc & Hq).
  { intros [k v] Hin. apply Hnp. apply elem_of_map_to_list. exact Hin. }
  { exists (dv_with_children n (Some ∅)), ∅. cbn [w0 heap].
    split; [apply list_lookup_insert_eq; exact Hlt |].
    split; [reflexivity |]. split; [intros; apply lookup_empty |].
    intros name c0 Hl. rewrite lookup_empty in Hl. discriminate. }
  exists w'. split; [| auto].
  unfold roDirV_populate.
  rewrite (bind_eq _ _ _ _ _ (the_roDirV_eq _ _ _ Ha)).
  rewrite Hch.
  rewrite (bind_eq _ _ _ _ _ (call_Describe_eq _ _ _ _ Hd)).
  rewrite Hm. unfold bind at 1. unfold store at 1.
  cbn [heap client queries after_query]. rewrite Hp.
  fold w0. rewrite (bind_eq _ _ _ _ _ Hrun). reflexivity.
Qed.

(** ** C3: the inodes of a directory listing *)

(** C3, as the code has it.  The first [ReadDir] of a roDirV whose
    permanode is described lists exactly the camliPath attributes that
    resolve to a child, under the name after the prefix.  The inode of
    an entry is the hash of the child's ref when the child is a
    directory; when the child is a versioned file or a symlink (a
    roFileLikeDir) the type switch of [ReadDir] has no case for it and
    the inode is 0. *)
Theorem roDirV_ReadDir_inodes a w n res c db p :
  heap w !! a = Some (NDirV n) ->
  dv_children n = None ->
  Describe (client w) (dv_describe_request n) = (Some res, c) ->
  Meta res !! RefString (dv_permanode n) = Some db ->
  Permanode db = Some p ->
  (forall k v, Attr p !! k = Some v -> entry_child res (k, v) <> Panics) ->
  exists ents w',
    roDirV_ReadDir a w = Some (Ok ents, w')
    /\ queries w' = queries w ++ [QDescribe (dv_describe_request n)]
    /\ forall name ino,
         {| Name := name; Inode := ino |} ∈ ents
         <-> exists v childRef kind cp,
               Attr p !! (camliPathPrefix +:+ name) = Some v
               /\ entry_child res (camliPathPrefix +:+ name, v)
                  = Child name childRef kind cp
               /\ ino = match kind with
                        | KDir => Sum64 (ParseOrZero childRef)
                        | KSymlink _ | KFile => 0
                        end.
Proof.
  intros Ha Hch Hd Hm Hp Hnp.
  destruct (roDirV_populate_children _ _ _ _ _ _ _ Ha Hch Hd Hm Hp Hnp)
    as (w' & Hpop & (n' & ch & Ha' & Hch' & Hnone & Hsome) & _ & Hq).
  exists (dirents (heap w') (dv_children n')), w'.
  split.
  { unfold roDirV_ReadDir. rewrite (bind_eq _ _ _ _ _ Hpop). cbn beta iota.
    rewrite (bind_eq _ _ _ _ _ (the_roDirV_eq _ _ _ Ha')). reflexivity. }
  split; [exact Hq |].
  intros name ino. rewrite Hch', elem_of_dirents. split.
  - intros (name' & c0 & Hl & [= <- ->]).
    destruct (Hsome _ _ Hl) as (_ & nd & Hsm & Hc0).
    apply lookup_noted_attrs in Hsm as (v & cr & kind & cp & Hat & He & ->).
    exists v, cr, kind, cp. split; [exact Hat |]. split; [exact He |].
    rewrite (child_ino_node_ino _ _ _ Hc0). apply node_ino_child_node.
  - intros (v & cr & kind & cp & Hat & He & ->).
    assert (Hsm : fold_left (note_child a res) (map_to_list (Attr p)) ∅ !! name
                  = Some (loaded (child_node a name cr kind) (xattr_load cp))).
    { apply lookup_noted_attrs. exists v, cr, kind, cp. auto. }
    destruct (ch !! name) as [c0 |] eqn:Hl.
    + exists name, c0. split; [exact Hl |].
      destruct (Hsome _ _ Hl) as (_ & nd & Hsm' & Hc0).
      rewrite Hsm in Hsm'. injection Hsm' as <-.
      rewrite (child_ino_node_ino _ _ _ Hc0), node_ino_child_node. reflexivity.
    + rewrite (Hnone _ Hl) in Hsm. discriminate.
Qed.

Lemma no_entry_panics_spec res (attrs : Values) :
  no_entry_panics res attrs = true ->
  forall k v, attrs !! k = Some v -> entry_child res (k, v) <> Panics.
Proof.
  unfold no_entry_panics. rewrite forallb_forall. intros Hall k v Hl Hp.
  specialize (Hall (k, v)). rewrite Hp in Hall.
  assert (false = true); [| discriminate].
  apply Hall. apply list_elem_of_In. apply elem_of_map_to_list. exact Hl.
Qed.

(** * Further properties *)

(** ** roDirV: the failure that is reported, and memoization *)

(** X1.  The Describe of an unpopulated roDirV succeeds but does not
    describe the directory's own permanode: [ReadDir] and [Lookup]
    answer EIO, the heap is untouched (the children map is not made),
    and the next call sends the Describe again. *)
Theorem roDirV_not_described_is_EIO a name w n res c res2 c2 :
  heap w !! a = Some (NDirV n) ->
  dv_children n = None ->
  Describe (client w) (dv_describe_request n) = (Some res, c) ->
  Meta res !! RefString (dv_permanode n) = None ->
  Describe c (dv_describe_request n) = (Some res2, c2) ->
  Meta res2 !! RefString (dv_permanode n) = None ->
  roDirV_ReadDir a w
  = Some (Err EIO, after_query w (QDescribe (dv_describe_request n)) c)
  /\ roDirV_Lookup a name w
     = Some (Err EIO, after_query w (QDescribe (dv_describe_request n)) c)
  /\ heap (after_query w (QDescribe (dv_describe_request n)) c) = heap w
  /\ roDirV_Lookup a name (after_query w (QDescribe (dv_describe_request n)) c)
     = Some (Err EIO,
             after_query (after_query w (QDescribe (dv_describe_request n)) c)
                         (QDescribe (dv_describe_request n)) c2).
Proof.
  intros Ha Hch Hd Hm Hd2 Hm2.
  assert (Hlk : forall w1 r1 c1,
             heap w1 !! a = Some (NDirV n) ->
             Describe (client w1) (dv_describe_request n) = (Some r1, c1) ->
             Meta r1 !! RefString (dv_permanode n) = None ->
             roDirV_Lookup a name w1
             = Some (Err EIO, after_query w1 (QDescribe (dv_describe_request n)) c1)).
  { intros w1 r1 c1 Ha1 Hd1 Hm1. unfold roDirV_Lookup.
    rewrite (bind_eq _ _ _ _ _
               (roDirV_populate_not_described _ _ _ _ _ Ha1 Hch Hd1 Hm1)).
    reflexivity. }
  split; [apply (roDirV_ReadDir_not_described _ _ _ _ _ Ha Hch Hd Hm) |].
  split; [apply (Hlk _ _ _ Ha Hd Hm) |].
  split; [reflexivity |].
  apply (Hlk _ res2 c2); [exact Ha | exact Hd2 | exact Hm2].
Qed.

Lemma roDirV_Lookup_populated a name w n ch :
  heap w !! a = Some (NDirV n) ->
  dv_children n = Some ch ->
  roDirV_Lookup a name w
  = Some (match ch !! name with Some c => Ok c | None => Err ENOENT end, w).
Proof.
  intros Ha Hch. unfold roDirV_Lookup.
  rewrite (bind_eq _ _ _ _ _ (roDirV_populate_populated _ _ _ Ha
                                 (ex_intro _ ch Hch))).
  cbn beta iota.
  rewrite (bind_eq _ _ _ _ _ (the_roDirV_eq _ _ _ Ha)).
  rewrite Hch. cbn. destruct (ch !! name); reflexivity.
Qed.

(** X2.  What [Lookup] finds in a roDirV after its population.  For the
    name of a camliPath attribute that resolves to a child it returns a
    node of the kind of the child: a roFileLikeDir with [symLink] and
    the target for a symlink, a roDirV for a directory, a roFileLikeDir
    for a file; the node has the ref of the attribute as its permanode,
    the directory as its parent, no children yet, and the xattrs loaded
    from the described child.  For every other name, an attribute that
    was skipped included, it answers ENOENT and no error. *)
Theorem roDirV_Lookup_child a name w n res c db p :
  heap w !! a = Some (NDirV n) ->
  dv_children n = None ->
  Describe (client w) (dv_describe_request n) = (Some res, c) ->
  Meta res !! RefString (dv_permanode n) = Some db ->
  Permanode db = Some p ->
  (forall k v, Attr p !! k = Some v -> entry_child res (k, v) <> Panics) ->
  exists r w',
    roDirV_Lookup a name w = Some (r, w')
    /\ queries w' = queries w ++ [QDescribe (dv_describe_request n)]
    /\ (forall v childRef kind cp,
          Attr p !! (camliPathPrefix +:+ name) = Some v ->
          entry_child res (camliPathPrefix +:+ name, v) = Child name childRef kind cp ->
          exists c0, r = Ok c0
                     /\ c0 <> a
                     /\ heap w' !! c0
                        = Some (loaded (child_node a name childRef kind)
                                       (xattr_load cp)))
    /\ ((forall v, Attr p !! (camliPathPrefix +:+ name) = Some v ->
                   entry_child res (camliPathPrefix +:+ name, v) = Skipped) ->
        r = Err ENOENT).
Proof.
  intros Ha Hch Hd Hm Hp Hnp.
  destruct (roDirV_populate_children _ _ _ _ _ _ _ Ha Hch Hd Hm Hp Hnp)
    as (w' & Hpop & (n' & ch & Ha' & Hch' & Hnone & Hsome) & _ & Hq).
  exists (match ch !! name with Some c0 => Ok c0 | None => Err ENOENT end), w'.
  split.
  { unfold roDirV_Lookup. rewrite (bind_eq _ _ _ _ _ Hpop). cbn beta iota.
    rewrite (bind_eq _ _ _ _ _ (the_roDirV_eq _ _ _ Ha')).
    rewrite Hch'. cbn. destruct (ch !! name); reflexivity. }
  split; [exact Hq |]. split.
  - intros v cr kind cp Hat He.
    assert (Hsm : fold_left (note_child a res) (map_to_list (Attr p)) ∅ !! name
                  = Some (loaded (child_node a name cr kind) (xattr_load cp))).
    { apply lookup_noted_attrs. exists v, cr, kind, cp. auto. }
    destruct (ch !! name) as [c0 |] eqn:Hl.
    + destruct (Hsome _ _ Hl) as (Hne & nd & Hsm' & Hc0).
      rewrite Hsm in Hsm'. injection Hsm' as <-.
      exists c0. auto.
    + rewrite (Hnone _ Hl) in Hsm. discriminate.
  - intros Hskip. destruct (ch !! name) as [c0 |] eqn:Hl; [| reflexivity].
    exfalso. destruct (Hsome _ _ Hl) as (_ & nd & Hsm & _).
    apply lookup_noted_attrs in Hsm as (v & cr & kind & cp & Hat & He & _).
    rewrite (Hskip _ Hat) in He. discriminate.
Qed.

(** X3.  A roDirV is populated once.  After the first [ReadDir] has
    populated it with one Describe, a second [ReadDir] returns the same
    listing and every [Lookup] returns, without sending a query or
    changing the heap. *)
Theorem roDirV_populated_once a w n res c db p :
  heap w !! a = Some (NDirV n) ->
  dv_children n = None ->
  Describe (client w) (dv_describe_request n) = (Some res, c) ->
  Meta res !! RefString (dv_permanode n) = Some db ->
  Permanode db = Some p ->
  (forall k v, Attr p !! k = Some v -> entry_child res (k, v) <> Panics) ->
  exists ents w',
    roDirV_ReadDir a w = Some (Ok ents, w')
    /\ queries w' = queries w ++ [QDescribe (dv_describe_request n)]
    /\ roDirV_populate a w' = Some (None, w')
    /\ roDirV_ReadDir a w' = Some (Ok ents, w')
    /\ forall name, exists r, roDirV_Lookup a name w' = Some (r, w').
Proof.
  intros Ha Hch Hd Hm Hp Hnp.
  destruct (roDirV_populate_children _ _ _ _ _ _ _ Ha Hch Hd Hm Hp Hnp)
    as (w' & Hpop & (n' & ch & Ha' & Hch' & _) & _ & Hq).
  assert (Hsome : is_Some (dv_children n')) by (rewrite Hch'; eauto).
  exists (dirents (heap w') (dv_children n')), w'.
  split.
  { unfold roDirV_ReadDir. rewrite (bind_eq _ _ _ _ _ Hpop). cbn beta iota.
    rewrite (bind_eq _ _ _ _ _ (the_roDirV_eq _ _ _ Ha')). reflexivity. }
  split; [exact Hq |].
  split; [apply (roDirV_populate_populated _ _ _ Ha' Hsome) |].
  split; [apply (roDirV_ReadDir_populated _ _ _ Ha' Hsome) |].
  intros name. eexists. apply (roDirV_Lookup_populated _ _ _ _ _ Ha' Hch').
Qed.

(** A [for ... range] loop panics when one of its iterations panics in
    every world. *)
Lemma for_each_panics {A} (body : A -> M (C := C) unit) l x :
  (forall w, body x w = None) -> x ∈ l -> forall w, for_each body l w = None.
Proof.
  intros Hx. induction l as [| y l IH]; intros Hin w.
  - apply elem_of_nil in Hin. contradiction.
  - cbn [for_each]. unfold bind.
    destruct (body y w) as [[u w1] |] eqn:Hy; [| reflexivity].
    apply elem_of_cons in Hin as [-> | Hin].
    + rewrite Hx in Hy. discriminate.
    + apply IH. exact Hin.
Qed.

(** X4.  [roDirV.populate] reads [db.Permanode.Attr] and
    [child.Permanode.Attr] without a nil check.  When the directory's
    own blob, or the blob of a camliPath child, is described without
    permanode information, the first [ReadDir] or [Lookup] panics: it
    has no result. *)
Theorem roDirV_populate_nil_permanode_panics a name w n res c db :
  heap w !! a = Some (NDirV n) ->
  dv_children n = None ->
  Describe (client w) (dv_describe_request n) = (Some res, c) ->
  Meta res !! RefString (dv_permanode n) = Some db ->
  (Permanode db = None
   \/ exists p k childRef v child,
       Permanode db = Some p
       /\ Attr p !! k = Some (childRef :: v)
       /\ String.prefix camliPathPrefix k = true
       /\ Meta res !! childRef = Some child
       /\ Permanode child = None) ->
  roDirV_ReadDir a w = None /\ roDirV_Lookup a name w = None.
Proof.
  intros Ha Hch Hd Hm Hnil.
  assert (Hpop : roDirV_populate a w = None).
  { unfold roDirV_populate.
    rewrite (bind_eq _ _ _ _ _ (the_roDirV_eq _ _ _ Ha)).
    rewrite Hch.
    rewrite (bind_eq _ _ _ _ _ (call_Describe_eq _ _ _ _ Hd)).
    rewrite Hm. unfold bind at 1. unfold store at 1.
    destruct Hnil as [Hp | (p & k & cr & v & child & Hp & Hat & Hpre & Hmc & Hpc)];
      rewrite Hp; [reflexivity |].
    unfold bind.
    rewrite (for_each_panics (dv_populate_entry a res) (map_to_list (Attr p))
               (k, cr :: v)); [reflexivity | | apply elem_of_map_to_list; exact Hat].
    intros w0. rewrite dv_populate_entry_eq.
    unfold entry_child. cbn [fst snd]. rewrite Hpre. cbn [negb orb length].
    replace (Z.of_nat (S (length v)) <? 1) with false
      by (symmetry; apply Z.ltb_ge; lia).
    rewrite Hmc, Hpc. reflexivity. }
  unfold roDirV_ReadDir, roDirV_Lookup, bind. rewrite Hpop. split; reflexivity.
Qed.

(** ** roFileLikeDir: the failure that is retried, and a full population *)

(** X5.  GetClaims of an unpopulated roFileLikeDir fails: [ReadDir] and
    [Lookup] answer EIO, the heap is untouched (the children map is not
    made), and the next call sends GetClaims again. *)
Theorem roFileLikeDir_GetClaims_error_is_EIO a name w n c c2 :
  heap w !! a = Some (NFileLikeDir n) ->
  fl_children n = None ->
  GetClaims (client w) (fl_claims_request n) = (None, c) ->
  GetClaims c (fl_claims_request n) = (None, c2) ->
  roFileLikeDir_ReadDir a w
  = Some (Err EIO, after_query w (QGetClaims (fl_claims_request n)) c)
  /\ roFileLikeDir_Lookup a name w
     = Some (Err EIO, after_query w (QGetClaims (fl_claims_request n)) c)
  /\ heap (after_query w (QGetClaims (fl_claims_request n)) c) = heap w
  /\ roFileLikeDir_ReadDir a (after_query w (QGetClaims (fl_claims_request n)) c)
     = Some (Err EIO,
             after_query (after_query w (QGetClaims (fl_claims_request n)) c)
                         (QGetClaims (fl_claims_request n)) c2).
Proof.
  intros Ha Hch Hg Hg2.
  split; [apply (roFileLikeDir_ReadDir_GetClaims_error _ _ _ _ Ha Hch Hg) |].
  split.
  { unfold roFileLikeDir_Lookup.
    rewrite (bind_eq _ _ _ _ _
               (roFileLikeDir_populate_GetClaims_error _ _ _ _ Ha Hch Hg)).
    reflexivity. }
  split; [reflexivity |].
  apply (roFileLikeDir_ReadDir_GetClaims_error a
           (after_query w (QGetClaims (fl_claims_request n)) c) n c2 Ha Hch Hg2).
Qed.

Lemma lookup_versions_after name vs :
  forall h ch,
    versions_after h ch vs !! name
    = match last_version name vs with
      | Some i => Some (h + i)%nat
      | None => ch !! name
      end.
Proof.
  induction vs as [| [[[cl pn] db] fi] rest IH]; intros h ch.
  - reflexivity.
  - cbn [versions_after last_version]. rewrite IH.
    destruct (last_version name rest) as [i |].
    + f_equal. lia.
    + destruct (String.eqb (DateString (Date cl)) name) eqn:He.
      * apply String.eqb_eq in He. subst name.
        rewrite lookup_insert_eq. f_equal. lia.
      * apply String.eqb_neq in He. rewrite lookup_insert_ne by exact He.
        reflexivity.
Qed.

Lemma last_version_Some name vs i :
  last_version name vs = Some i ->
  exists v, vs !! i = Some v /\ DateString (Date v.1.1.1) = name.
Proof.
  revert i. induction vs as [| [[[cl pn] db] fi] rest IH]; intros i Hl.
  - discriminate.
  - cbn [last_version] in Hl. destruct (last_version name rest) as [j |].
    + injection Hl as <-. destruct (IH j eq_refl) as (v & Hv & Hn).
      exists v. split; [exact Hv | exact Hn].
    + destruct (String.eqb (DateString (Date cl)) name) eqn:He; [| discriminate].
      injection Hl as <-. apply String.eqb_eq in He.
      exists (cl, pn, db, fi). split; [reflexivity | exact He].
Qed.

Lemma last_version_None name vs :
  last_version name vs = None <->
  forall v, v ∈ vs -> DateString (Date v.1.1.1) <> name.
Proof.
  induction vs as [| [[[cl pn] db] fi] rest IH].
  - split; [intros _ v Hv; apply elem_of_nil in Hv; contradiction | reflexivity].
  - cbn [last_version]. destruct (last_version name rest) as [j |].
    + split; [discriminate |]. intros Hall. exfalso.
      assert (Hn : @None nat = None) by reflexivity.
      destruct IH as [_ IH]. enough (Some j = None) by discriminate.
      apply IH. intros v Hv. apply Hall. apply list_elem_of_further. exact Hv.
    + destruct (String.eqb (DateString (Date cl)) name) eqn:He.
      * split; [discriminate |]. intros Hall. exfalso.
        apply String.eqb_eq in He.
        apply (Hall (cl, pn, db, fi)); [apply list_elem_of_here | exact He].
      * split; [| reflexivity]. intros _ v Hv.
        apply elem_of_cons in Hv as [-> | Hv].
        -- apply String.eqb_neq in He. exact He.
        -- destruct IH as [IH _]. apply IH; [reflexivity | exact Hv].
Qed.

Lemma last_version_later name vs :
  forall i, last_version name vs = Some i ->
  forall j v, (i < j)%nat -> vs !! j = Some v -> DateString (Date v.1.1.1) <> name.
Proof.
  induction vs as [| [[[cl pn] db] fi] rest IH]; intros i Hl j v Hij Hv.
  - discriminate.
  - cbn [last_version] in Hl. destruct j as [| j]; [lia |]. cbn in Hv.
    destruct (last_version name rest) as [k |] eqn:Hrest.
    + injection Hl as <-. apply (IH k eq_refl j v); [lia | exact Hv].
    + destruct (last_version_None name rest) as [Hnone _].
      apply (Hnone Hrest). apply list_elem_of_lookup. eauto.
Qed.

(** The loop over claims that all resolve: it returns nil after one
    Describe per claim, has appended one version per claim to the heap
    and has stored each under the rendering of its date. *)
Lemma fl_populate_claims_resolved a cls :
  forall w n ch vs c',
    heap w !! a = Some (NFileLikeDir n) ->
    fl_children n = Some ch ->
    resolve_claims (client w) cls = Some (vs, c') ->
    exists w',
      (forall rest, fl_populate_claims a (cls ++ rest) w
                    = fl_populate_claims a rest w')
      /\ client w' = c'
      /\ queries w' = queries w ++ (version_request <$> vs)
      /\ heap w' !! a
         = Some (NFileLikeDir
                   (fl_with_children n
                      (Some (versions_after (length (heap w)) ch vs))))
      /\ (forall i v, vs !! i = Some v ->
            heap w' !! (length (heap w) + i)%nat
            = Some (NFileVersion (version_of a n v.1.1.1 v.1.2 v.2)))
      /\ (forall i, (i < length (heap w))%nat -> i <> a ->
            heap w' !! i = heap w !! i)
      /\ length (heap w') = (length (heap w) + length vs)%nat.
Proof.
  induction cls as [| cl rest IH]; intros w n ch vs c' Ha Hch Hres.
  - cbn in Hres. injection Hres as <- <-. exists w.
    split; [reflexivity |]. split; [reflexivity |].
    split; [cbn; rewrite app_nil_r; reflexivity |].
    split.
    { cbn [versions_after]. rewrite Ha. f_equal. f_equal.
      destruct n; cbn in *; subst; reflexivity. }
    split; [intros i v Hv; rewrite lookup_nil in Hv; discriminate |].
    split; [reflexivity | cbn; lia].
  - cbn [resolve_claims] in Hres.
    destruct (Parse (Value cl)) as [pn |] eqn:Hp; [| discriminate].
    destruct (Describe (client w) (fl_describe_request pn cl)) as [[res |] c1] eqn:Hd;
      [| discriminate].
    destruct (Meta res !! Value cl) as [db |] eqn:Hm; [| discriminate].
    destruct (File db) as [fi |] eqn:Hf; [| discriminate].
    destruct (resolve_claims c1 rest) as [[vs1 c1'] |] eqn:Hrest; [| discriminate].
    injection Hres as <- <-.
    assert (Hlt : (a < length (heap w))%nat) by (eapply lookup_lt_Some; exact Ha).
    set (w1 := after_version a w n ch cl pn db fi c1).
    assert (Hlen1 : length (heap w1) = S (length (heap w))).
    { unfold w1. cbn [after_version heap]. rewrite length_insert, length_app.
      cbn. lia. }
    assert (Ha1 : heap w1 !! a
                  = Some (NFileLikeDir
                            (fl_with_children n
                               (Some (<[DateString (Date cl) := length (heap w)]> ch))))).
    { unfold w1. cbn [after_version heap]. apply list_lookup_insert_eq.
      rewrite length_app. cbn. lia. }
    destruct (IH w1 _ (<[DateString (Date cl) := length (heap w)]> ch) vs1 c1'
                Ha1 eq_refl Hrest)
      as (w' & Hrun & Hc & Hq & Ha' & Hvs & Hold & Hlen).
    exists w'. split.
    { intros rest'. rewrite <- app_comm_cons.
      rewrite (fl_populate_claims_step _ _ _ _ _ _ _ _ _ _ _ Ha Hch Hp Hd Hm Hf).
      apply Hrun. }
    split; [exact Hc |].
    split.
    { rewrite Hq. unfold w1. cbn [after_version queries fmap list_fmap].
      rewrite <- app_assoc. reflexivity. }
    split.
    { rewrite Ha', Hlen1. reflexivity. }
    split.
    { intros [| i] v Hv.
      - cbn in Hv. injection Hv as <-. cbn [fst snd].
        rewrite Nat.add_0_r, Hold by (rewrite ?Hlen1; lia).
        unfold w1. cbn [after_version heap].
        rewrite list_lookup_insert_ne by lia.
        rewrite lookup_app_r by lia. rewrite Nat.sub_diag. reflexivity.
      - cbn in Hv. specialize (Hvs i v Hv). rewrite Hlen1 in Hvs.
        replace (length (heap w) + S i)%nat with (S (length (heap w)) + i)%nat by lia.
        exact Hvs. }
    split.
    { intros i Hi Hne. rewrite Hold by (rewrite ?Hlen1; lia).
      unfold w1. cbn [after_version heap].
      rewrite list_lookup_insert_ne by congruence.
      apply lookup_app_l. exact Hi. }
    rewrite Hlen, Hlen1. cbn [length]. lia.
Qed.

Lemma resolve_claims_claims cls :
  forall c vs c',
    resolve_claims c cls = Some (vs, c') -> (fun v => v.1.1.1) <$> vs = cls.
Proof.
  induction cls as [| cl rest IH]; intros c vs c' Hres.
  - cbn in Hres. injection Hres as <- <-. reflexivity.
  - cbn [resolve_claims] in Hres.
    destruct (Parse (Value cl)) as [pn |]; [| discriminate].
    destruct (Describe c (fl_describe_request pn cl)) as [[res |] c1]; [| discriminate].
    destruct (Meta res !! Value cl) as [db |]; [| discriminate].
    destruct (File db) as [fi |]; [| discriminate].
    destruct (resolve_claims c1 rest) as [[vs1 c1'] |] eqn:Hrest; [| discriminate].
    injection Hres as <- <-. cbn. f_equal. apply (IH _ _ _ Hrest).
Qed.

(** [populate] of an unpopulated directory whose claims all resolve. *)
Lemma roFileLikeDir_populate_all_resolved a w n res c vs c' :
  heap w !! a = Some (NFileLikeDir n) ->
  fl_children n = None ->
  GetClaims (client w) (fl_claims_request n) = (Some res, c) ->
  resolve_claims c (Claims res) = Some (vs, c') ->
  exists w',
    roFileLikeDir_populate a w = Some (None, w')
    /\ queries w'
       = queries w ++ QGetClaims (fl_claims_request n) :: (version_request <$> vs)
    /\ heap w' !! a
       = Some (NFileLikeDir
                 (fl_with_children n
                    (Some (versions_after (length (heap w)) ∅ vs))))
    /\ (forall i v, vs !! i = Some v ->
          heap w' !! (length (heap w) + i)%nat
          = Some (NFileVersion (version_of a n v.1.1.1 v.1.2 v.2))).
Proof.
  intros Ha Hch Hg Hres.
  assert (Hlt : (a < length (heap w))%nat) by (eapply lookup_lt_Some; exact Ha).
  set (w0 := {| heap := <[a := NFileLikeDir (fl_with_children n (Some ∅))]> (heap w);
                client := c;
                queries := queries w ++ [QGetClaims (fl_claims_request n)] |}).
  assert (Ha0 : heap w0 !! a = Some (NFileLikeDir (fl_with_children n (Some ∅))))
    by (apply list_lookup_insert_eq; exact Hlt).
  destruct (fl_populate_claims_resolved a (Claims res) w0 _ ∅ vs c' Ha0 eq_refl Hres)
    as (w' & Hrun & _ & Hq & Ha' & Hvs & _ & _).
  assert (Hlen : length (heap w0) = length (heap w))
    by (unfold w0; cbn [heap]; apply length_insert).
  exists w'. split.
  { rewrite (roFileLikeDir_populate_loop _ _ _ _ _ Ha Hch Hg).
    fold w0. specialize (Hrun []). rewrite app_nil_r in Hrun. rewrite Hrun.
    reflexivity. }
  split.
  { rewrite Hq. unfold w0. cbn [queries]. rewrite <- app_assoc. reflexivity. }
  split.
  { rewrite Ha', Hlen. reflexivity. }
  intros i v Hv. rewrite <- Hlen. apply (Hvs i v Hv).
Qed.

(** X6.  A roFileLikeDir whose claims all resolve.  The first [Lookup]
    sends GetClaims for the attribute camliContent and then, claim by
    claim in the order of the answer, one Describe of depth 1 for the
    claimed content as of the date of the claim.  It allocates one
    roFileVersion per claim, with the content ref and the size that the
    Describe reported.  A name is found when it is the rendering of the
    date of a claim, and then the version of the last such claim is
    returned; any other name is ENOENT.  A later [Lookup] answers the
    same from the children map, without a query. *)
Theorem roFileLikeDir_Lookup_version a name w n res c vs c' :
  heap w !! a = Some (NFileLikeDir n) ->
  fl_children n = None ->
  GetClaims (client w) (fl_claims_request n) = (Some res, c) ->
  resolve_claims c (Claims res) = Some (vs, c') ->
  exists w',
    roFileLikeDir_Lookup a name w
    = Some (match last_version name vs with
            | Some i => Ok (length (heap w) + i)%nat
            | None => Err ENOENT
            end, w')
    /\ roFileLikeDir_Lookup a name w'
       = Some (match last_version name vs with
               | Some i => Ok (length (heap w) + i)%nat
               | None => Err ENOENT
               end, w')
    /\ (fun v => v.1.1.1) <$> vs = Claims res
    /\ queries w'
       = queries w ++ QGetClaims (fl_claims_request n) :: (version_request <$> vs)
    /\ (forall i v, vs !! i = Some v ->
          heap w' !! (length (heap w) + i)%nat
          = Some (NFileVersion (version_of a n v.1.1.1 v.1.2 v.2)))
    /\ (last_version name vs = None <->
        forall cl, cl ∈ Claims res -> DateString (Date cl) <> name)
    /\ (forall i, last_version name vs = Some i ->
          (exists v, vs !! i = Some v /\ DateString (Date v.1.1.1) = name)
          /\ forall j v, (i < j)%nat -> vs !! j = Some v ->
               DateString (Date v.1.1.1) <> name).
Proof.
  intros Ha Hch Hg Hres.
  destruct (roFileLikeDir_populate_all_resolved _ _ _ _ _ _ _ Ha Hch Hg Hres)
    as (w' & Hpop & Hq & Ha' & Hvs).
  pose proof (resolve_claims_claims _ _ _ _ Hres) as Hcls.
  assert (Hlk : roFileLikeDir_Lookup a name w'
                = Some (match last_version name vs with
                        | Some i => Ok (length (heap w) + i)%nat
                        | None => Err ENOENT
                        end, w')).
  { rewrite (roFileLikeDir_Lookup_populated _ _ _ _ _ Ha' eq_refl).
    rewrite lookup_versions_after, lookup_empty.
    destruct (last_version name vs); reflexivity. }
  exists w'. split.
  { unfold roFileLikeDir_Lookup. rewrite (bind_eq _ _ _ _ _ Hpop). cbn beta iota.
    rewrite (bind_eq _ _ _ _ _ (the_roFileLikeDir_eq _ _ _ Ha')).
    cbn [fl_with_children fl_children default from_option id].
    rewrite lookup_versions_after, lookup_empty.
    destruct (last_version name vs); reflexivity. }
  split; [exact Hlk |]. split; [exact Hcls |]. split; [exact Hq |].
  split; [exact Hvs |]. split.
  - rewrite last_version_None, <- Hcls. split.
    + intros Hall cl Hcl. apply list_elem_of_fmap in Hcl as (v & -> & Hv).
      apply Hall. exact Hv.
    + intros Hall v Hv. apply Hall. apply list_elem_of_fmap. exists v. auto.
  - intros i Hi. split; [apply (last_version_Some _ _ _ Hi) |].
    apply (last_version_later _ _ _ Hi).
Qed.

(** X7.  [ReadDir] of a roFileLikeDir whose claims all resolve lists
    exactly the renderings of the dates of the claims, each under the
    hash of the permanode of the directory. *)
Theorem roFileLikeDir_ReadDir_dates a w n res c vs c' :
  heap w !! a = Some (NFileLikeDir n) ->
  fl_children n = None ->
  GetClaims (client w) (fl_claims_request n) = (Some res, c) ->
  resolve_claims c (Claims res) = Some (vs, c') ->
  exists ents w',
    roFileLikeDir_ReadDir a w = Some (Ok ents, w')
    /\ forall e, e ∈ ents <->
         exists cl, cl ∈ Claims res
                    /\ e = {| Name := DateString (Date cl);
                              Inode := Sum64 (fl_permanode n) |}.
Proof.
  intros Ha Hch Hg Hres.
  destruct (roFileLikeDir_populate_all_resolved _ _ _ _ _ _ _ Ha Hch Hg Hres)
    as (w' & Hpop & Hq & Ha' & Hvs).
  pose proof (resolve_claims_claims _ _ _ _ Hres) as Hcls.
  eexists _, w'. split.
  { unfold roFileLikeDir_ReadDir. rewrite (bind_eq _ _ _ _ _ Hpop). cbn beta iota.
    rewrite (bind_eq _ _ _ _ _ (the_roFileLikeDir_eq _ _ _ Ha')). reflexivity. }
  cbn [fl_with_children fl_children].
  intros e. rewrite elem_of_dirents. split.
  - intros (nm & c0 & Hl & ->). rewrite lookup_versions_after, lookup_empty in Hl.
    destruct (last_version nm vs) as [i |] eqn:Hlast; [| discriminate].
    injection Hl as <-.
    destruct (last_version_Some _ _ _ Hlast) as (v & Hv & Hn).
    exists v.1.1.1. split.
    { rewrite <- Hcls. apply list_elem_of_fmap. exists v. split; [reflexivity |].
      apply list_elem_of_lookup. eauto. }
    subst nm. f_equal. exact (child_ino_node_ino _ _ _ (Hvs _ _ Hv)).
  - intros (cl & Hcl & ->). rewrite <- Hcls in Hcl.
    apply list_elem_of_fmap in Hcl as (v & -> & Hv).
    destruct (last_version (DateString (Date v.1.1.1)) vs) as [i |] eqn:Hlast.
    + destruct (last_version_Some _ _ _ Hlast) as (v' & Hv' & Hn).
      exists (DateString (Date v.1.1.1)), (length (heap w) + i)%nat. split.
      { rewrite lookup_versions_after, Hlast. reflexivity. }
      f_equal. symmetry. exact (child_ino_node_ino _ _ _ (Hvs _ _ Hv')).
    + exfalso.
      destruct (last_version_None (DateString (Date v.1.1.1)) vs) as [Hnone _].
      apply (Hnone Hlast v Hv). reflexivity.
Qed.

(** X8.  [roFileLikeDir.populate] reads [db.File.Size] without a nil
    check.  When the claims before it resolve and the content of a claim
    is described without file information, the first [ReadDir] or
    [Lookup] panics: it has no result. *)
Theorem roFileLikeDir_populate_nil_File_panics
    a name w n res c pre vs c0 cl rest pn dres c1 db :
  heap w !! a = Some (NFileLikeDir n) ->
  fl_children n = None ->
  GetClaims (client w) (fl_claims_request n) = (Some res, c) ->
  Claims res = pre ++ cl :: rest ->
  resolve_claims c pre = Some (vs, c0) ->
  Parse (Value cl) = Some pn ->
  Describe c0 (fl_describe_request pn cl) = (Some dres, c1) ->
  Meta dres !! Value cl = Some db ->
  File db = None ->
  roFileLikeDir_ReadDir a w = None /\ roFileLikeDir_Lookup a name w = None.
Proof.
  intros Ha Hch Hg Hcls Hres Hp Hd Hm Hf.
  assert (Hpop : roFileLikeDir_populate a w = None).
  { rewrite (roFileLikeDir_populate_loop _ _ _ _ _ Ha Hch Hg), Hcls.
    assert (Hlt : (a < length (heap w))%nat) by (eapply lookup_lt_Some; exact Ha).
    match goal with |- fl_populate_claims _ _ ?w0 = _ => set (w0' := w0) end.
    assert (Ha0 : heap w0' !! a = Some (NFileLikeDir (fl_with_children n (Some ∅))))
      by (apply list_lookup_insert_eq; exact Hlt).
    destruct (fl_populate_claims_resolved a pre w0' _ ∅ vs c0 Ha0 eq_refl Hres)
      as (w' & Hrun & Hc & _ & Ha' & _).
    rewrite Hrun. cbn [fl_populate_claims]. rewrite Hp. rewrite <- Hc in Hd.
    rewrite (bind_eq _ _ _ _ _ (call_Describe_eq _ _ _ _ Hd)). rewrite Hm.
    assert (Ha'' : heap (after_query w' (QDescribe (fl_describe_request pn cl)) c1) !! a
                   = Some (NFileLikeDir
                             (fl_with_children (fl_with_children n (Some ∅))
                                (Some (versions_after (length (heap w0')) ∅ vs)))))
      by exact Ha'.
    rewrite (bind_eq _ _ _ _ _ (the_roFileLikeDir_eq _ _ _ Ha'')). rewrite Hf.
    reflexivity. }
  unfold roFileLikeDir_ReadDir, roFileLikeDir_Lookup, bind. rewrite Hpop.
  split; reflexivity.
Qed.

(** ** roFileVersion: Open for reading *)

(** X9.  [Open] of a roFileVersion with request flags that are no write
    flags.  When the file reader cannot be made the answer is EIO and
    the response flags are as they were.  Otherwise the handle reads
    the content blob of the version, and of the response flags (a
    uint32) exactly the bits of [OpenDirectIO] have been cleared: every
    other bit is as it was. *)
Theorem roFileVersion_Open_for_reading (v : roFileVersion) (reqFlags resFlags : Z) :
  isWriteFlags reqFlags = false ->
  0 <= resFlags < 2 ^ 32 ->
  match NewFileReader (fv_content v) with
  | None => roFileVersion_Open v reqFlags resFlags = (Err EIO, resFlags)
  | Some r =>
      exists flags,
        roFileVersion_Open v reqFlags resFlags
        = (Ok {| nr_blobref := fv_content v; nr_fr := r |}, flags)
        /\ 0 <= flags < 2 ^ 32
        /\ Z.land flags OpenDirectIO = 0
        /\ forall i, 0 <= i ->
             Z.testbit flags i
             = Z.testbit resFlags i && negb (Z.testbit OpenDirectIO i)
  end.
Proof.
  intros Hro Hres. unfold roFileVersion_Open. rewrite Hro.
  destruct (NewFileReader (fv_content v)) as [r |]; [| reflexivity].
  eexists. split; [reflexivity |].
  assert (Hhigh : forall i, 32 <= i -> Z.testbit resFlags i = false).
  { intros i Hi. rewrite <- (Z.mod_small resFlags (2 ^ 32)) by lia.
    apply Z.mod_pow2_bits_high. lia. }
  assert (Hbits : forall i, 0 <= i ->
            Z.testbit (Z.land resFlags (uint32 (Z.lnot OpenDirectIO))) i
            = Z.testbit resFlags i && negb (Z.testbit OpenDirectIO i)).
  { intros i Hi. rewrite Z.land_spec. unfold uint32.
    destruct (Z.lt_ge_cases i 32) as [Hlt | Hge].
    - rewrite Z.mod_pow2_bits_low by lia. rewrite Z.lnot_spec by lia. reflexivity.
    - rewrite Z.mod_pow2_bits_high by lia. rewrite (Hhigh i Hge). reflexivity. }
  split.
  { assert (Hmod : Z.land resFlags (uint32 (Z.lnot OpenDirectIO)) mod 2 ^ 32
                   = Z.land resFlags (uint32 (Z.lnot OpenDirectIO))).
    { apply Z.bits_inj'. intros i Hi.
      destruct (Z.lt_ge_cases i 32) as [Hlt | Hge].
      - apply Z.mod_pow2_bits_low. lia.
      - rewrite Z.mod_pow2_bits_high by lia. rewrite Hbits by exact Hi.
        rewrite (Hhigh i Hge). reflexivity. }
    rewrite <- Hmod. apply Z.mod_pos_bound. lia. }
  split.
  { apply Z.bits_inj_0. intros i. destruct (Z.neg_nonneg_cases i) as [Hn | Hi].
    - apply Z.testbit_neg_r. exact Hn.
    - rewrite Z.land_spec, Hbits by exact Hi.
      destruct (Z.testbit resFlags i), (Z.testbit OpenDirectIO i); reflexivity. }
  exact Hbits.
Qed.

(** ** versionsDir: the name map after a refresh *)

Lemma last_named_Some naming name l pn :
  last_named naming name l = Some pn ->
  exists wi, wi ∈ l /\ naming wi = Some name /\ wi_Permanode wi = pn.
Proof.
  induction l as [| wi l IH]; [discriminate |]. cbn [last_named].
  destruct (last_named naming name l) as [pn' |].
  - intros Heq. destruct (IH Heq) as (wi' & Hin & Hn & Hp).
    exists wi'. split; [apply list_elem_of_further; exact Hin | auto].
  - destruct (decide (naming wi = Some name)) as [Hn |]; [| discriminate].
    intros [= <-]. exists wi. split; [apply list_elem_of_here | auto].
Qed.

Lemma last_named_None naming name l :
  last_named naming name l = None <->
  forall wi, wi ∈ l -> naming wi <> Some name.
Proof.
  induction l as [| wi l IH]; cbn [last_named].
  - split; [intros _ wi Hin; apply elem_of_nil in Hin; contradiction | reflexivity].
  - destruct (last_named naming name l) as [pn |].
    + split; [discriminate |]. intros Hall. exfalso.
      enough (Some pn = None) by discriminate.
      apply IH. intros wi' Hin. apply Hall. apply list_elem_of_further. exact Hin.
    + destruct (decide (naming wi = Some name)) as [Hn | Hn].
      * split; [discriminate |]. intros Hall. exfalso.
        exact (Hall wi (list_elem_of_here _ _) Hn).
      * split; [| reflexivity]. intros _ wi' Hin.
        apply elem_of_cons in Hin as [-> | Hin]; [exact Hn |].
        destruct IH as [IH _]. apply IH; [reflexivity | exact Hin].
Qed.

Lemma lookup_importers_last dres l :
  forall m name,
    fold_left (add_importer dres) l m !! name
    = match last_named (importer_name dres) name l with
      | Some pn => Some pn
      | None => m !! name
      end.
Proof.
  induction l as [| wi l IH]; intros m name; [reflexivity |].
  cbn [fold_left last_named]. rewrite IH.
  destruct (last_named (importer_name dres) name l) as [pn |]; [reflexivity |].
  rewrite add_importer_eq.
  destruct (decide (importer_name dres wi = Some name)) as [Hn | Hn].
  - rewrite Hn. apply lookup_insert_eq.
  - destruct (importer_name dres wi) as [name' |]; [| reflexivity].
    apply lookup_insert_ne. congruence.
Qed.

Lemma lookup_roots_last dres l :
  forall st name,
    (fold_left (add_root dres) l st).2 !! name
    = match last_named (root_name dres) name l with
      | Some pn => Some pn
      | None => st.2 !! name
      end.
Proof.
  induction l as [| wi l IH]; intros st name; [reflexivity |].
  cbn [fold_left last_named]. rewrite IH.
  destruct (last_named (root_name dres) name l) as [pn |]; [reflexivity |].
  rewrite add_root_eq.
  destruct (decide (root_name dres wi = Some name)) as [Hn | Hn].
  - rewrite Hn. apply lookup_insert_eq.
  - destruct (root_name dres wi) as [name' |]; [| reflexivity].
    apply lookup_insert_ne. congruence.
Qed.

Lemma lookup_refreshed n rootRes impRes dres now2 name :
  default ∅ (vd_m (refreshed n rootRes impRes dres now2)) !! name
  = resolved_ref rootRes impRes dres name.
Proof.
  cbn [refreshed vd_m default from_option id]. unfold resolved_ref.
  rewrite lookup_importers_last, lookup_roots_last. cbn [snd].
  rewrite lookup_empty.
  destruct (last_named (importer_name dres) name (WithAttr impRes)); [reflexivity |].
  destruct (last_named (root_name dres) name (WithAttr rootRes)); reflexivity.
Qed.

Lemma lookup_refreshed_children n rootRes impRes dres now2 name :
  default ∅ (vd_children (refreshed n rootRes impRes dres now2)) !! name
  = match last_named (root_name dres) name (WithAttr rootRes) with
    | Some _ => default ∅ (vd_children n) !! name
    | None => None
    end.
Proof.
  cbn [refreshed vd_children default from_option id]. rewrite lookup_evict.
  destruct (last_named (root_name dres) name (WithAttr rootRes)) as [pn |] eqn:Hl.
  - apply last_named_Some in Hl as (wi & Hin & Hn & _).
    destruct (decide _) as [_ | Hnin]; [reflexivity |].
    exfalso. apply Hnin. apply elem_of_currentRoots. right. eauto.
  - destruct (decide _) as [Hin | _]; [| reflexivity]. exfalso.
    apply elem_of_currentRoots in Hin as [Hin | (wi & Hin & Hn)].
    + cbn in Hin. apply elem_of_empty in Hin. exact Hin.
    + destruct (last_named_None (root_name dres) name (WithAttr rootRes)) as [Hall _].
      exact (Hall Hl wi Hin Hn).
Qed.

(** X10.  [ReadDir] of the versionsDir with a refresh that goes through
    (the searches found a permanode and the batch Describe answered):
    three queries are sent, and the listing has exactly the names of
    the roots found (the camliRoot attribute of a described permanode,
    when not empty) and of the import roots found (["importer-"] and
    the sanitized camliImportRoot attribute), each with inode 0. *)
Theorem versionsDir_ReadDir_lists_roots_and_importers
    a now1 now2 w n rootRes c1 impRes c2 dres c3 :
  heap w !! a = Some (NVersions n) ->
  After (lastQuery n) (Add now1 (- versionsRefreshTime)) = false ->
  GetPermanodesWithAttr (client w) root_request = (Some rootRes, c1) ->
  GetPermanodesWithAttr c1 import_request = (Some impRes, c2) ->
  found_refs rootRes impRes <> [] ->
  Describe c2 (batch_request rootRes impRes) = (Some dres, c3) ->
  exists ents w',
    versionsDir_ReadDir a now1 now2 w = Some (Ok ents, w')
    /\ queries w'
       = queries w ++ [QWithAttr root_request; QWithAttr import_request;
                       QDescribe (batch_request rootRes impRes)]
    /\ forall e, e ∈ ents <->
         Inode e = 0
         /\ ((exists wi, wi ∈ WithAttr rootRes /\ root_name dres wi = Some (Name e))
             \/ (exists wi, wi ∈ WithAttr impRes
                            /\ importer_name dres wi = Some (Name e))).
Proof.
  intros Ha Hdue Hs1 Hs2 Hne Hd.
  assert (Hlt : (a < length (heap w))%nat) by (eapply lookup_lt_Some; exact Ha).
  pose proof (condRefresh_done _ now1 now2 _ _ _ _ _ _ _ _ Ha Hdue Hs1 Hs2 Hne Hd) as Hc.
  eexists _, _. split.
  { apply (versionsDir_ReadDir_ok _ _ _ _ _ (refreshed n rootRes impRes dres now2) Hc).
    cbn [heap]. apply list_lookup_insert_eq. exact Hlt. }
  split; [reflexivity |].
  intros e. unfold listing. rewrite list_elem_of_fmap. split.
  - intros ([name br] & -> & Hin). apply elem_of_map_to_list in Hin.
    rewrite lookup_refreshed in Hin. cbn [Name Inode fst]. split; [reflexivity |].
    unfold resolved_ref in Hin.
    destruct (last_named (importer_name dres) name (WithAttr impRes)) as [pn |] eqn:Hi.
    + right. apply last_named_Some in Hi as (wi & Hwi & Hn & _). eauto.
    + left. apply last_named_Some in Hin as (wi & Hwi & Hn & _). eauto.
  - intros (Hino & Hfound). destruct e as [name ino]. cbn [Name Inode] in *. subst ino.
    assert (Hsome : is_Some (resolved_ref rootRes impRes dres name)).
    { unfold resolved_ref.
      destruct (last_named (importer_name dres) name (WithAttr impRes))
        as [pn |] eqn:Hi; [eauto |].
      destruct (last_named (root_name dres) name (WithAttr rootRes))
        as [pn |] eqn:Hr; [eauto |].
      exfalso. destruct Hfound as [(wi & Hwi & Hn) | (wi & Hwi & Hn)].
      - destruct (last_named_None (root_name dres) name (WithAttr rootRes)) as [Hall _].
        exact (Hall Hr wi Hwi Hn).
      - destruct (last_named_None (importer_name dres) name (WithAttr impRes))
          as [Hall _].
        exact (Hall Hi wi Hwi Hn). }
    destruct Hsome as [br Hbr]. exists (name, br). split; [reflexivity |].
    apply elem_of_map_to_list. rewrite lookup_refreshed. exact Hbr.
Qed.

(** X11.  [Lookup] in the versionsDir with a refresh that goes through.
    The name is looked up in the refreshed name map: the permanode of
    the last import root found under that name or else of the last root
    found under it.  When there is none, or the ref is not valid, the
    answer is ENOENT.  When the ref is valid and no child of that name
    survived the eviction, a new unpopulated roDirV for that permanode
    is allocated and memoized; a second [Lookup] within the refresh
    window returns that same node, sends no query and changes
    nothing. *)
Theorem versionsDir_Lookup_after_refresh
    a name now1 now2 now1' now2' w n rootRes c1 impRes c2 dres c3 :
  heap w !! a = Some (NVersions n) ->
  After (lastQuery n) (Add now1 (- versionsRefreshTime)) = false ->
  GetPermanodesWithAttr (client w) root_request = (Some rootRes, c1) ->
  GetPermanodesWithAttr c1 import_request = (Some impRes, c2) ->
  found_refs rootRes impRes <> [] ->
  Describe c2 (batch_request rootRes impRes) = (Some dres, c3) ->
  default ∅ (vd_children (refreshed n rootRes impRes dres now2)) !! name = None ->
  Valid zeroRef = false ->
  now1' - now2 < versionsRefreshTime ->
  exists r w',
    versionsDir_Lookup a name now1 now2 w = Some (r, w')
    /\ queries w'
       = queries w ++ [QWithAttr root_request; QWithAttr import_request;
                       QDescribe (batch_request rootRes impRes)]
    /\ versionsDir_Lookup a name now1' now2' w' = Some (r, w')
    /\ match resolved_ref rootRes impRes dres name with
       | Some br =>
           if Valid br
           then r = Ok (length (heap w))
                /\ heap w' !! length (heap w) = Some (NDirV (newRODirV br name))
                /\ length (heap w') = S (length (heap w))
           else r = Err ENOENT /\ length (heap w') = length (heap w)
       | None => r = Err ENOENT /\ length (heap w') = length (heap w)
       end.
Proof.
  intros Ha Hdue Hs1 Hs2 Hne Hd Hnochild Hzero Hin.
  assert (Hlt : (a < length (heap w))%nat) by (eapply lookup_lt_Some; exact Ha).
  pose proof (condRefresh_done _ now1 now2 _ _ _ _ _ _ _ _ Ha Hdue Hs1 Hs2 Hne Hd) as Hc.
  set (n1 := refreshed n rootRes impRes dres now2) in *.
  set (w1 := {| heap := <[a := NVersions n1]> (heap w); client := c3;
                queries := queries w
                             ++ [QWithAttr root_request; QWithAttr import_request;
                                 QDescribe (batch_request rootRes impRes)] |}) in Hc.
  assert (Ha1 : heap w1 !! a = Some (NVersions n1))
    by (apply list_lookup_insert_eq; exact Hlt).
  assert (Hlen1 : length (heap w1) = length (heap w)) by apply length_insert.
  assert (Hwin : After (lastQuery n1) (Add now1' (- versionsRefreshTime)) = true)
    by (apply After_window; exact Hin).
  pose proof (lookup_refreshed n rootRes impRes dres now2 name) as Hm. fold n1 in Hm.
  assert (Habsent :
            Valid (default zeroRef (resolved_ref rootRes impRes dres name)) = false ->
            versionsDir_Lookup a name now1 now2 w = Some (Err ENOENT, w1)
            /\ versionsDir_Lookup a name now1' now2' w1 = Some (Err ENOENT, w1)).
  { intros Hv. rewrite <- Hm in Hv. split.
    - apply (versionsDir_Lookup_absent _ _ _ _ _ _ _ Hc Ha1 Hv).
    - apply (versionsDir_Lookup_absent _ _ _ _ _ _ n1
               (condRefresh_not_due _ _ _ _ _ Ha1 Hwin) Ha1 Hv). }
  destruct (resolved_ref rootRes impRes dres name) as [br |] eqn:Hres.
  2:{ destruct (Habsent Hzero) as [H1 H2].
      exists (Err ENOENT), w1. split; [exact H1 |]. split; [reflexivity |].
      split; [exact H2 |]. split; [reflexivity | exact Hlen1]. }
  destruct (Valid br) eqn:Hv.
  2:{ destruct (Habsent Hv) as [H1 H2].
      exists (Err ENOENT), w1. split; [exact H1 |]. split; [reflexivity |].
      split; [exact H2 |]. split; [reflexivity | exact Hlen1]. }
  clear Habsent.
  assert (Hch1 : vd_children n1 = Some (evict (fold_left (add_root dres) (WithAttr rootRes) (∅, ∅)).1
                                          (default ∅ (vd_children n))))
    by reflexivity.
  rewrite Hch1 in Hnochild. cbn [default from_option id] in Hnochild.
  pose proof (versionsDir_Lookup_new _ name _ _ _ _ _ _ _ Hc Ha1 Hm Hv Hch1 Hnochild)
    as Hnew.
  rewrite Hlen1 in Hnew.
  match type of Hnew with _ = Some (_, ?w2') => set (w2 := w2') in Hnew end.
  exists (Ok (length (heap w))), w2. split; [exact Hnew |]. split; [reflexivity |].
  assert (Ha2 : heap w2 !! a
                = Some (NVersions
                          {| lastQuery := lastQuery n1; vd_m := vd_m n1;
                             vd_children :=
                               Some (<[name := length (heap w)]>
                                       (evict (fold_left (add_root dres)
                                                 (WithAttr rootRes) (∅, ∅)).1
                                              (default ∅ (vd_children n)))) |})).
  { unfold w2. cbn [heap]. apply list_lookup_insert_eq.
    rewrite length_app, Hlen1. lia. }
  split.
  { apply (versionsDir_Lookup_memoized _ _ _ _ _ _ _ _
             (condRefresh_not_due _ _ now2' _ _ Ha2 Hwin) Ha2).
    - cbn [vd_m]. rewrite Hm. exact Hv.
    - cbn [vd_children default from_option id]. apply lookup_insert_eq. }
  split; [reflexivity |]. split.
  - unfold w2. cbn [heap]. rewrite list_lookup_insert_ne by lia.
    rewrite lookup_app_r by lia. rewrite Hlen1, Nat.sub_diag. reflexivity.
  - unfold w2. cbn [heap]. rewrite length_insert, length_app, Hlen1. cbn. lia.
Qed.

(** X12.  The memoized child of a name that a refresh finds as a root
    again is kept, and [Lookup] returns it without allocating a node,
    whichever valid permanode the name is mapped to by then. *)
Theorem versionsDir_Lookup_keeps_root_child
    a name c_old now1 now2 w n ch rootRes c1 impRes c2 dres c3 wi br :
  heap w !! a = Some (NVersions n) ->
  vd_children n = Some ch ->
  ch !! name = Some c_old ->
  After (lastQuery n) (Add now1 (- versionsRefreshTime)) = false ->
  GetPermanodesWithAttr (client w) root_request = (Some rootRes, c1) ->
  GetPermanodesWithAttr c1 import_request = (Some impRes, c2) ->
  Describe c2 (batch_request rootRes impRes) = (Some dres, c3) ->
  wi ∈ WithAttr rootRes ->
  root_name dres wi = Some name ->
  resolved_ref rootRes impRes dres name = Some br ->
  Valid br = true ->
  exists w',
    versionsDir_Lookup a name now1 now2 w = Some (Ok c_old, w')
    /\ length (heap w') = length (heap w)
    /\ (forall b, b <> a -> heap w' !! b = heap w !! b)
    /\ queries w'
       = queries w ++ [QWithAttr root_request; QWithAttr import_request;
                       QDescribe (batch_request rootRes impRes)].
Proof.
  intros Ha Hch Hold Hdue Hs1 Hs2 Hd Hwi Hn Hres Hv.
  assert (Hlt : (a < length (heap w))%nat) by (eapply lookup_lt_Some; exact Ha).
  assert (Hne : found_refs rootRes impRes <> []).
  { unfold found_refs. intros Heq. apply app_eq_nil in Heq as [Heq _].
    apply fmap_nil_inv in Heq. rewrite Heq in Hwi.
    apply elem_of_nil in Hwi. exact Hwi. }
  pose proof (condRefresh_done _ now1 now2 _ _ _ _ _ _ _ _ Ha Hdue Hs1 Hs2 Hne Hd) as Hc.
  eexists. split.
  { apply (versionsDir_Lookup_memoized _ _ _ _ _ _
             (refreshed n rootRes impRes dres now2) _ Hc).
    - cbn [heap]. apply list_lookup_insert_eq. exact Hlt.
    - rewrite lookup_refreshed, Hres. exact Hv.
    - rewrite lookup_refreshed_children.
      destruct (last_named (root_name dres) name (WithAttr rootRes)) as [pn |] eqn:Hl.
      + rewrite Hch. exact Hold.
      + exfalso.
        destruct (last_named_None (root_name dres) name (WithAttr rootRes)) as [Hall _].
        exact (Hall Hl wi Hwi Hn). }
  cbn [heap queries]. split; [apply length_insert |].
  split; [| reflexivity].
  intros b Hb. apply list_lookup_insert_ne. congruence.
Qed.

(** ** versionsDir: the children map is made with the name map *)

Lemma condRefresh_keeps_maps a now1 now2 w n :
  heap w !! a = Some (NVersions n) ->
  maps_made_together n ->
  exists e w' n',
    condRefresh a now1 now2 w = Some (e, w')
    /\ heap w' !! a = Some (NVersions n')
    /\ maps_made_together n'.
Proof.
  intros Ha Hinv.
  assert (Hlt : (a < length (heap w))%nat) by (eapply lookup_lt_Some; exact Ha).
  destruct (After (lastQuery n) (Add now1 (- versionsRefreshTime))) eqn:Hdue.
  { exists None, w, n. rewrite (condRefresh_not_due _ _ _ _ _ Ha Hdue). auto. }
  destruct (GetPermanodesWithAttr (client w) root_request) as [r1 c1] eqn:Hs1.
  destruct (GetPermanodesWithAttr c1 import_request) as [r2 c2] eqn:Hs2.
  destruct r1 as [rootRes |].
  2:{ exists (Some EIO), (after_searches w c2), n.
      rewrite (condRefresh_search_error _ _ _ _ _ _ _ _ _ Ha Hdue Hs1 Hs2) by auto.
      auto. }
  destruct r2 as [impRes |].
  2:{ exists (Some EIO), (after_searches w c2), n.
      rewrite (condRefresh_search_error _ _ _ _ _ _ _ _ _ Ha Hdue Hs1 Hs2) by auto.
      auto. }
  destruct (found_refs rootRes impRes) as [| r rs] eqn:Hrefs.
  { eexists None, _, (cleared n).
    rewrite (condRefresh_nothing_found _ _ _ _ _ _ _ _ _ Ha Hdue Hs1 Hs2 Hrefs).
    split; [reflexivity |]. cbn [heap].
    split; [apply list_lookup_insert_eq; exact Hlt | intros Hx; cbn in Hx; discriminate Hx]. }
  assert (Hne : found_refs rootRes impRes <> []) by (rewrite Hrefs; discriminate).
  destruct (Describe c2 (batch_request rootRes impRes)) as [[dres |] c3] eqn:Hd.
  - eexists None, _, (refreshed n rootRes impRes dres now2).
    rewrite (condRefresh_done _ _ _ _ _ _ _ _ _ _ _ Ha Hdue Hs1 Hs2 Hne Hd).
    split; [reflexivity |]. cbn [heap].
    split; [apply list_lookup_insert_eq; exact Hlt | intros Hx; cbn in Hx; discriminate Hx].
  - eexists (Some EIO), _, (cleared n).
    rewrite (condRefresh_Describe_error _ _ _ _ _ _ _ _ _ _ Ha Hdue Hs1 Hs2 Hne Hd).
    split; [reflexivity |]. cbn [heap].
    split; [apply list_lookup_insert_eq; exact Hlt | intros Hx; cbn in Hx; discriminate Hx].
Qed.

(** X13.  [versionsDir.Lookup] writes to [n.children] without a nil
    check of its own.  On a directory whose children map is made
    whenever its name map is (as on a freshly mounted one, where both
    are nil, and after every [condRefresh] that makes the name map),
    [Lookup] and [ReadDir] always return, whatever the client answers,
    and leave a directory of which the same holds. *)
Theorem versionsDir_handlers_return a name now1 now2 w n :
  heap w !! a = Some (NVersions n) ->
  maps_made_together n ->
  Valid zeroRef = false ->
  (exists r w' n',
      versionsDir_Lookup a name now1 now2 w = Some (r, w')
      /\ heap w' !! a = Some (NVersions n')
      /\ maps_made_together n')
  /\ (exists r w' n',
        versionsDir_ReadDir a now1 now2 w = Some (r, w')
        /\ heap w' !! a = Some (NVersions n')
        /\ maps_made_together n').
Proof.
  intros Ha Hinv Hzero.
  destruct (condRefresh_keeps_maps a now1 now2 w n Ha Hinv)
    as (e & w1 & n1 & Hc & Ha1 & Hinv1).
  split.
  - destruct e as [e |].
    { exists (Err e), w1, n1.
      rewrite (versionsDir_Lookup_err _ _ _ _ _ _ _ Hc). auto. }
    destruct (Valid (default zeroRef (default ∅ (vd_m n1) !! name))) eqn:Hv.
    2:{ exists (Err ENOENT), w1, n1.
        rewrite (versionsDir_Lookup_absent _ _ _ _ _ _ _ Hc Ha1 Hv). auto. }
    destruct (default ∅ (vd_children n1) !! name) as [nod |] eqn:Hl.
    { exists (Ok nod), w1, n1.
      rewrite (versionsDir_Lookup_memoized _ _ _ _ _ _ _ _ Hc Ha1 Hv Hl). auto. }
    destruct (vd_children n1) as [ch |] eqn:Hch.
    + destruct (default ∅ (vd_m n1) !! name) as [br |] eqn:Hm.
      2:{ cbn in Hv. congruence. }
      cbn [default from_option id] in Hv, Hl.
      eexists _, _, _.
      rewrite (versionsDir_Lookup_new _ _ _ _ _ _ _ _ _ Hc Ha1 Hm Hv Hch Hl).
      split; [reflexivity |]. cbn [heap]. split.
      * apply list_lookup_insert_eq. rewrite length_app.
        apply lookup_lt_Some in Ha1. lia.
      * intros Hx. discriminate Hx.
    + exfalso. rewrite (Hinv1 Hch) in Hv. cbn in Hv.
      rewrite lookup_empty in Hv. cbn in Hv. congruence.
  - destruct e as [e |].
    + exists (Err EIO), w1, n1.
      rewrite (versionsDir_ReadDir_err _ _ _ _ _ _ Hc). auto.
    + eexists _, w1, n1.
      rewrite (versionsDir_ReadDir_ok _ _ _ _ _ _ Hc Ha1). auto.
Qed.

(** ** versionsDir: the names of import roots *)

Lemma without_byte_replaced old new s :
  new <> old -> without_byte old (replace_byte old new s) = true.
Proof.
  intros Hne. induction s as [| c s IH]; [reflexivity |].
  cbn [replace_byte without_byte]. rewrite IH, andb_true_r.
  destruct (Ascii.eqb c old) eqn:He.
  - apply negb_true_iff. apply Ascii.eqb_neq. exact Hne.
  - rewrite He. reflexivity.
Qed.

Lemma without_byte_replace_byte c old new s :
  new <> c -> without_byte c s = true ->
  without_byte c (replace_byte old new s) = true.
Proof.
  intros Hne. induction s as [| c' s IH]; [reflexivity |].
  cbn [replace_byte without_byte]. intros Hs.
  apply andb_true_iff in Hs as [Hc Hs]. rewrite (IH Hs), andb_true_r.
  destruct (Ascii.eqb c' old); [| exact Hc].
  apply negb_true_iff. apply Ascii.eqb_neq. exact Hne.
Qed.

Lemma length_replace_byte old new s :
  String.length (replace_byte old new s) = String.length s.
Proof. induction s as [| c s IH]; [reflexivity |]. cbn. rewrite IH. reflexivity. Qed.

(** X14.  One iteration of the loop under [// Importers] either leaves
    the name map as it is, or enters the permanode under one name: the
    text ["importer-"] followed by a text as long as the
    camliImportRoot value, in which there is no [":"] and no ["/"]. *)
Theorem add_importer_name_has_no_separator dres (m : gmap string Ref) wi :
  add_importer dres m wi = m
  \/ exists p s,
       (Meta dres !! RefString (wi_Permanode wi)) ≫= Permanode = Some p
       /\ add_importer dres m wi = <["importer-" +:+ s := wi_Permanode wi]> m
       /\ without_byte ":"%char s = true
       /\ without_byte "/"%char s = true
       /\ String.length s
          = String.length (Values_Get (Attr p) "camliImportRoot")
       /\ s <> "".
Proof.
  unfold add_importer.
  destruct (Meta dres !! RefString (wi_Permanode wi)) as [db |]; [| auto].
  destruct (Permanode db) as [p |] eqn:Hp; [| auto].
  destruct (String.eqb (Values_Get (Attr p) "camliImportRoot") "") eqn:He; [auto |].
  right. exists p, (replace_byte "/"%char "-"%char
                      (replace_byte ":"%char "-"%char
                         (Values_Get (Attr p) "camliImportRoot"))).
  split; [exact Hp |]. split; [reflexivity |]. split.
  { apply without_byte_replace_byte; [discriminate |].
    apply without_byte_replaced. discriminate. }
  split; [apply without_byte_replaced; discriminate |].
  split; [rewrite !length_replace_byte; reflexivity |].
  apply String.eqb_neq in He. intros Hs. apply He.
  destruct (Values_Get (Attr p) "camliImportRoot"); [reflexivity | discriminate].
Qed.

(** ** What the directory handlers keep of the heap *)

Lemma same_identity_refl nd : same_identity nd nd.
Proof. destruct nd; cbn; auto 10. Qed.

Lemma same_identity_trans nd1 nd2 nd3 :
  same_identity nd1 nd2 -> same_identity nd2 nd3 -> same_identity nd1 nd3.
Proof.
  destruct nd1, nd2; cbn; try contradiction; destruct nd3; cbn;
    try contradiction; try tauto.
  - intros (-> & -> & -> & ->) (-> & -> & -> & ->). auto.
  - intros (-> & -> & -> & -> & -> & ->) (-> & -> & -> & -> & -> & ->). auto 10.
  - intros -> ->. reflexivity.
Qed.

Lemma same_identity_Attr nd nd' :
  same_identity nd nd' -> node_Attr nd' = node_Attr nd.
Proof.
  destruct nd, nd'; cbn; try contradiction.
  - reflexivity.
  - intros (Hp & _). unfold roDirV_Attr. rewrite Hp. reflexivity.
  - intros (Hp & _). unfold roFileLikeDir_Attr. rewrite Hp. reflexivity.
  - intros ->. reflexivity.
Qed.

Lemma touches_only_refl a w : touches_only a w w.
Proof.
  split; [auto |]. split.
  - intros nd Ha. exists nd. split; [exact Ha | apply same_identity_refl].
  - exists []. rewrite app_nil_r. reflexivity.
Qed.

Lemma touches_only_trans a w1 w2 w3 :
  touches_only a w1 w2 -> touches_only a w2 w3 -> touches_only a w1 w3.
Proof.
  intros (Ho1 & Hs1 & qs1 & Hq1) (Ho2 & Hs2 & qs2 & Hq2). split; [auto |]. split.
  - intros nd Ha. destruct (Hs1 _ Ha) as (nd2 & Ha2 & Hi2).
    destruct (Hs2 _ Ha2) as (nd3 & Ha3 & Hi3).
    exists nd3. split; [exact Ha3 |]. eapply same_identity_trans; eassumption.
  - exists (qs1 ++ qs2). rewrite Hq2, Hq1, app_assoc. reflexivity.
Qed.

Lemma touches_only_after_query a w q c : touches_only a w (after_query w q c).
Proof.
  split; [auto |]. split.
  - intros nd Ha. exists nd. split; [exact Ha | apply same_identity_refl].
  - exists [q]. reflexivity.
Qed.

(** A store into the node at [a] that keeps its identity. *)
Lemma touches_only_store a w nd nd' c qs :
  heap w !! a = Some nd ->
  same_identity nd nd' ->
  touches_only a w {| heap := <[a := nd']> (heap w); client := c;
                      queries := queries w ++ qs |}.
Proof.
  intros Ha Hi. cbn. split; [| split].
  - intros b ndb Hb Hl. cbn [heap]. rewrite list_lookup_insert_ne by congruence.
    exact Hl.
  - intros nd0 Ha0. rewrite Ha in Ha0. injection Ha0 as <-.
    exists nd'. split; [| exact Hi]. cbn [heap].
    apply list_lookup_insert_eq. eapply lookup_lt_Some. exact Ha.
  - exists qs. reflexivity.
Qed.

(** Allocations and a store into the node at [a]. *)
Lemma touches_only_alloc a w nd nd' h c qs :
  heap w !! a = Some nd ->
  same_identity nd nd' ->
  (forall b ndb, b <> a -> heap w !! b = Some ndb -> h !! b = Some ndb) ->
  h !! a = Some nd' ->
  touches_only a w {| heap := h; client := c; queries := queries w ++ qs |}.
Proof.
  intros Ha Hi Hother Ha'. split; [exact Hother |]. split.
  - intros nd0 Ha0. rewrite Ha in Ha0. injection Ha0 as <-. eauto.
  - exists qs. reflexivity.
Qed.

Lemma the_roDirV_inv a w n w' :
  the_roDirV a w = Some (n, w') -> w' = w /\ heap w !! a = Some (NDirV n).
Proof.
  unfold the_roDirV, bind, deref, panic, ret.
  destruct (heap w !! a) as [[] |]; try discriminate.
  intros [= <- <-]. auto.
Qed.

Lemma the_roFileLikeDir_inv a w n w' :
  the_roFileLikeDir a w = Some (n, w') ->
  w' = w /\ heap w !! a = Some (NFileLikeDir n).
Proof.
  unfold the_roFileLikeDir, bind, deref, panic, ret.
  destruct (heap w !! a) as [[] |]; try discriminate.
  intros [= <- <-]. auto.
Qed.

Lemma the_versionsDir_inv a w n w' :
  the_versionsDir a w = Some (n, w') ->
  w' = w /\ heap w !! a = Some (NVersions n).
Proof.
  unfold the_versionsDir, bind, deref, panic, ret.
  destruct (heap w !! a) as [[] |]; try discriminate.
  intros [= <- <-]. auto.
Qed.

Lemma dv_populate_entry_touches a res kv w w' n ch :
  heap w !! a = Some (NDirV n) ->
  dv_children n = Some ch ->
  dv_populate_entry a res kv w = Some (tt, w') ->
  touches_only a w w'
  /\ exists ch', heap w' !! a = Some (NDirV (dv_with_children n (Some ch'))).
Proof.
  intros Ha Hch Hrun. rewrite dv_populate_entry_eq in Hrun.
  assert (Hlt : (a < length (heap w))%nat) by (eapply lookup_lt_Some; exact Ha).
  destruct (entry_child res kv) as [| | name childRef kind cp].
  - injection Hrun as <-. split; [apply touches_only_refl |].
    exists ch. rewrite Ha. destruct n; cbn in *; subst; reflexivity.
  - discriminate.
  - rewrite (dv_add_child_eq _ _ _ _ _ _ _ _ Ha Hch) in Hrun. injection Hrun as <-.
    assert (Ha' : <[length (heap w) :=
                      loaded (child_node a name childRef kind) (xattr_load cp)]>
                    (<[a := NDirV (dv_with_children n
                                     (Some (<[name := length (heap w)]> ch)))]>
                       (heap w ++ [child_node a name childRef kind])) !! a
                  = Some (NDirV (dv_with_children n
                                   (Some (<[name := length (heap w)]> ch))))).
    { rewrite list_lookup_insert_ne by lia.
      apply list_lookup_insert_eq. rewrite length_app. cbn [length]. lia. }
    split; [| eauto].
    rewrite <- (app_nil_r (queries w)).
    eapply touches_only_alloc; [exact Ha | | | exact Ha'].
    + cbn. auto.
    + intros b ndb Hb Hl.
      assert ((b < length (heap w))%nat) by (eapply lookup_lt_Some; exact Hl).
      rewrite list_lookup_insert_ne by lia.
      rewrite list_lookup_insert_ne by congruence.
      apply lookup_app_l_Some. exact Hl.
Qed.

Lemma dv_populate_loop_touches a res l :
  forall w w' n ch,
    heap w !! a = Some (NDirV n) ->
    dv_children n = Some ch ->
    for_each (dv_populate_entry a res) l w = Some (tt, w') ->
    touches_only a w w'.
Proof.
  induction l as [| kv l IH]; intros w w' n ch Ha Hch Hrun.
  - injection Hrun as <-. apply touches_only_refl.
  - cbn [for_each] in Hrun. unfold bind in Hrun.
    destruct (dv_populate_entry a res kv w) as [[[] w1] |] eqn:Hstep; [| discriminate].
    destruct (dv_populate_entry_touches _ _ _ _ _ _ _ Ha Hch Hstep)
      as (Ht & ch' & Ha1).
    eapply touches_only_trans; [exact Ht |].
    apply (IH w1 w' _ ch' Ha1 eq_refl Hrun).
Qed.

Lemma roDirV_populate_touches a w err w' :
  roDirV_populate a w = Some (err, w') -> touches_only a w w'.
Proof.
  intros Hrun.
  assert (Hn : exists n, heap w !! a = Some (NDirV n)).
  { unfold roDirV_populate in Hrun. unfold bind at 1 in Hrun.
    destruct (the_roDirV a w) as [[n w0] |] eqn:Hthe; [| discriminate].
    apply the_roDirV_inv in Hthe as [_ Ha]. eauto. }
  destruct Hn as [n Ha].
  assert (Hlt : (a < length (heap w))%nat) by (eapply lookup_lt_Some; exact Ha).
  destruct (dv_children n) as [ch |] eqn:Hch.
  { rewrite (roDirV_populate_populated _ _ _ Ha) in Hrun by (rewrite Hch; eauto).
    injection Hrun as _ <-. apply touches_only_refl. }
  destruct (Describe (client w) (dv_describe_request n)) as [[res |] c] eqn:Hd.
  2:{ rewrite (roDirV_populate_Describe_error _ _ _ _ Ha Hch Hd) in Hrun.
      injection Hrun as _ <-. apply touches_only_after_query. }
  destruct (Meta res !! RefString (dv_permanode n)) as [db |] eqn:Hm.
  2:{ rewrite (roDirV_populate_not_described _ _ _ _ _ Ha Hch Hd Hm) in Hrun.
      injection Hrun as _ <-. apply touches_only_after_query. }
  unfold roDirV_populate in Hrun.
  rewrite (bind_eq _ _ _ _ _ (the_roDirV_eq _ _ _ Ha)) in Hrun.
  rewrite Hch in Hrun.
  rewrite (bind_eq _ _ _ _ _ (call_Describe_eq _ _ _ _ Hd)) in Hrun.
  rewrite Hm in Hrun. unfold bind at 1 in Hrun. unfold store at 1 in Hrun.
  cbn [heap client queries] in Hrun.
  destruct (Permanode db) as [p |]; [| discriminate].
  unfold bind in Hrun.
  match type of Hrun with
  | match for_each _ _ ?w0 with _ => _ end = _ => set (w1 := w0) in Hrun
  end.
  destruct (for_each (dv_populate_entry a res) (map_to_list (Attr p)) w1)
    as [[[] w2] |] eqn:Hloop; [| discriminate].
  injection Hrun as _ <-.
  apply touches_only_trans with w1.
  - unfold w1.
    apply (touches_only_store a w (NDirV n) (NDirV (dv_with_children n (Some ∅))) c
             [QDescribe (dv_describe_request n)]); [exact Ha |].
    cbn. auto.
  - apply (dv_populate_loop_touches a res (map_to_list (Attr p)) w1 w2
             (dv_with_children n (Some ∅)) ∅);
      [| reflexivity | exact Hloop].
    unfold w1. cbn [heap]. apply list_lookup_insert_eq. exact Hlt.
Qed.

Lemma fl_populate_claims_touches a cls :
  forall w n ch err w',
    heap w !! a = Some (NFileLikeDir n) ->
    fl_children n = Some ch ->
    fl_populate_claims a cls w = Some (err, w') ->
    touches_only a w w'.
Proof.
  induction cls as [| cl rest IH]; intros w n ch err w' Ha Hch Hrun.
  - cbn in Hrun. injection Hrun as _ <-. apply touches_only_refl.
  - destruct (Parse (Value cl)) as [pn |] eqn:Hp.
    2:{ rewrite (fl_populate_claims_unparseable _ _ _ _ Hp) in Hrun.
        injection Hrun as _ <-. apply touches_only_refl. }
    destruct (Describe (client w) (fl_describe_request pn cl)) as [[res |] c] eqn:Hd.
    2:{ rewrite (fl_populate_claims_Describe_error _ _ _ _ _ _ Hp Hd) in Hrun.
        injection Hrun as _ <-. apply touches_only_after_query. }
    destruct (Meta res !! Value cl) as [db |] eqn:Hm.
    2:{ rewrite (fl_populate_claims_not_described _ _ _ _ _ _ _ Hp Hd Hm) in Hrun.
        injection Hrun as _ <-. apply touches_only_after_query. }
    assert (Hlt : (a < length (heap w))%nat) by (eapply lookup_lt_Some; exact Ha).
    destruct (File db) as [fi |] eqn:Hf.
    + rewrite (fl_populate_claims_step _ _ _ _ _ _ _ _ _ _ _ Ha Hch Hp Hd Hm Hf) in Hrun.
      assert (Ha1 : heap (after_version a w n ch cl pn db fi c) !! a
                    = Some (NFileLikeDir
                              (fl_with_children n
                                 (Some (<[DateString (Date cl) := length (heap w)]> ch))))).
      { cbn [after_version heap]. apply list_lookup_insert_eq.
        rewrite length_app. cbn [length]. lia. }
      eapply touches_only_trans; [| apply (IH _ _ _ _ _ Ha1 eq_refl Hrun)].
      unfold after_version.
      eapply touches_only_alloc; [exact Ha | | | exact Ha1].
      * cbn. auto 10.
      * intros b ndb Hb Hl. rewrite list_lookup_insert_ne by congruence.
        apply lookup_app_l_Some. exact Hl.
    + exfalso. cbn [fl_populate_claims] in Hrun. rewrite Hp in Hrun.
      rewrite (bind_eq _ _ _ _ _ (call_Describe_eq _ _ _ _ Hd)) in Hrun.
      rewrite Hm in Hrun.
      assert (Ha' : heap (after_query w (QDescribe (fl_describe_request pn cl)) c) !! a
                    = Some (NFileLikeDir n)) by exact Ha.
      rewrite (bind_eq _ _ _ _ _ (the_roFileLikeDir_eq _ _ _ Ha')) in Hrun.
      rewrite Hf in Hrun. discriminate.
Qed.

Lemma roFileLikeDir_populate_touches a w err w' :
  roFileLikeDir_populate a w = Some (err, w') -> touches_only a w w'.
Proof.
  intros Hrun.
  assert (Hn : exists n, heap w !! a = Some (NFileLikeDir n)).
  { unfold roFileLikeDir_populate in Hrun. unfold bind at 1 in Hrun.
    destruct (the_roFileLikeDir a w) as [[n w0] |] eqn:Hthe; [| discriminate].
    apply the_roFileLikeDir_inv in Hthe as [_ Ha]. eauto. }
  destruct Hn as [n Ha].
  assert (Hlt : (a < length (heap w))%nat) by (eapply lookup_lt_Some; exact Ha).
  destruct (fl_children n) as [ch |] eqn:Hch.
  { rewrite (roFileLikeDir_populate_populated _ _ _ Ha) in Hrun by (rewrite Hch; eauto).
    injection Hrun as _ <-. apply touches_only_refl. }
  destruct (GetClaims (client w) (fl_claims_request n)) as [[res |] c] eqn:Hg.
  2:{ rewrite (roFileLikeDir_populate_GetClaims_error _ _ _ _ Ha Hch Hg) in Hrun.
      injection Hrun as _ <-. apply touches_only_after_query. }
  rewrite (roFileLikeDir_populate_loop _ _ _ _ _ Ha Hch Hg) in Hrun.
  match type of Hrun with fl_populate_claims _ _ ?w0 = _ => set (w1 := w0) in Hrun end.
  apply touches_only_trans with w1.
  - unfold w1.
    apply (touches_only_store a w (NFileLikeDir n)
             (NFileLikeDir (fl_with_children n (Some ∅))) c
             [QGetClaims (fl_claims_request n)]); [exact Ha |].
    cbn. auto 10.
  - apply (fl_populate_claims_touches a (Claims res) w1
             (fl_with_children n (Some ∅)) ∅ err w');
      [| reflexivity | exact Hrun].
    unfold w1. cbn [heap]. apply list_lookup_insert_eq. exact Hlt.
Qed.

Lemma condRefresh_touches a now1 now2 w e w' :
  condRefresh a now1 now2 w = Some (e, w') ->
  touches_only a w w' /\ exists n', heap w' !! a = Some (NVersions n').
Proof.
  intros Hrun.
  assert (Hn : exists n, heap w !! a = Some (NVersions n)).
  { unfold condRefresh in Hrun. unfold bind at 1 in Hrun.
    destruct (the_versionsDir a w) as [[n w0] |] eqn:Hthe; [| discriminate].
    apply the_versionsDir_inv in Hthe as [_ Ha]. eauto. }
  destruct Hn as [n Ha].
  assert (Hlt : (a < length (heap w))%nat) by (eapply lookup_lt_Some; exact Ha).
  assert (Hstore : forall n' c qs,
             touches_only a w {| heap := <[a := NVersions n']> (heap w);
                                 client := c; queries := queries w ++ qs |}
             /\ exists n'', <[a := NVersions n']> (heap w) !! a = Some (NVersions n'')).
  { intros n' c qs. split.
    - apply (touches_only_store a w (NVersions n)); [exact Ha | exact I].
    - exists n'. apply list_lookup_insert_eq. exact Hlt. }
  destruct (After (lastQuery n) (Add now1 (- versionsRefreshTime))) eqn:Hdue.
  { rewrite (condRefresh_not_due _ _ _ _ _ Ha Hdue) in Hrun. injection Hrun as _ <-.
    split; [apply touches_only_refl | eauto]. }
  destruct (GetPermanodesWithAttr (client w) root_request) as [r1 c1] eqn:Hs1.
  destruct (GetPermanodesWithAttr c1 import_request) as [r2 c2] eqn:Hs2.
  assert (Hsearch : touches_only a w (after_searches w c2)
                    /\ exists n', heap (after_searches w c2) !! a = Some (NVersions n')).
  { split; [| exists n; exact Ha]. split; [auto |]. split.
    - intros nd Hnd. exists nd. split; [exact Hnd | apply same_identity_refl].
    - eexists. reflexivity. }
  destruct r1 as [rootRes |].
  2:{ rewrite (condRefresh_search_error _ _ _ _ _ _ _ _ _ Ha Hdue Hs1 Hs2) in Hrun
        by auto.
      injection Hrun as _ <-. exact Hsearch. }
  destruct r2 as [impRes |].
  2:{ rewrite (condRefresh_search_error _ _ _ _ _ _ _ _ _ Ha Hdue Hs1 Hs2) in Hrun
        by auto.
      injection Hrun as _ <-. exact Hsearch. }
  destruct (found_refs rootRes impRes) as [| r rs] eqn:Hrefs.
  { rewrite (condRefresh_nothing_found _ _ _ _ _ _ _ _ _ Ha Hdue Hs1 Hs2 Hrefs) in Hrun.
    injection Hrun as _ <-. apply Hstore. }
  assert (Hne : found_refs rootRes impRes <> []) by (rewrite Hrefs; discriminate).
  destruct (Describe c2 (batch_request rootRes impRes)) as [[dres |] c3] eqn:Hd.
  - rewrite (condRefresh_done _ _ _ _ _ _ _ _ _ _ _ Ha Hdue Hs1 Hs2 Hne Hd) in Hrun.
    injection Hrun as _ <-. apply Hstore.
  - rewrite (condRefresh_Describe_error _ _ _ _ _ _ _ _ _ _ Ha Hdue Hs1 Hs2 Hne Hd)
      in Hrun.
    injection Hrun as _ <-. apply Hstore.
Qed.

Lemma versionsDir_Lookup_touches a name now1 now2 w r w' :
  versionsDir_Lookup a name now1 now2 w = Some (r, w') -> touches_only a w w'.
Proof.
  intros Hrun.
  destruct (condRefresh a now1 now2 w) as [[e w1] |] eqn:Hc.
  2:{ unfold versionsDir_Lookup, bind in Hrun. rewrite Hc in Hrun. discriminate. }
  destruct (condRefresh_touches _ _ _ _ _ _ Hc) as (Ht & n1 & Ha1).
  destruct e as [e |].
  { rewrite (versionsDir_Lookup_err _ _ _ _ _ _ _ Hc) in Hrun.
    injection Hrun as _ <-. exact Ht. }
  destruct (Valid (default zeroRef (default ∅ (vd_m n1) !! name))) eqn:Hv.
  2:{ rewrite (versionsDir_Lookup_absent _ _ _ _ _ _ _ Hc Ha1 Hv) in Hrun.
      injection Hrun as _ <-. exact Ht. }
  destruct (default ∅ (vd_children n1) !! name) as [nod |] eqn:Hl.
  { rewrite (versionsDir_Lookup_memoized _ _ _ _ _ _ _ _ Hc Ha1 Hv Hl) in Hrun.
    injection Hrun as _ <-. exact Ht. }
  unfold versionsDir_Lookup in Hrun.
  rewrite (bind_eq _ _ _ _ _ Hc) in Hrun. cbn beta iota in Hrun.
  rewrite (bind_eq _ _ _ _ _ (the_versionsDir_eq _ _ _ Ha1)) in Hrun.
  rewrite Hv, Hl in Hrun. cbn [negb] in Hrun.
  unfold bind at 1 in Hrun. unfold new at 1 in Hrun.
  destruct (vd_children n1) as [ch |]; [| discriminate].
  unfold bind, store, ret in Hrun. cbn [heap client queries] in Hrun.
  injection Hrun as _ <-.
  eapply touches_only_trans; [exact Ht |].
  assert (Hlt : (a < length (heap w1))%nat) by (eapply lookup_lt_Some; exact Ha1).
  rewrite <- (app_nil_r (queries w1)).
  eapply (touches_only_alloc a w1 (NVersions n1)
            (NVersions {| lastQuery := lastQuery n1; vd_m := vd_m n1;
                          vd_children :=
                            Some (<[name := length (heap w1)]> ch) |}));
    [exact Ha1 | exact I | |].
  - intros b ndb Hb Hlb. rewrite list_lookup_insert_ne by congruence.
    apply lookup_app_l_Some. exact Hlb.
  - apply list_lookup_insert_eq. rewrite length_app. lia.
Qed.

Lemma handler_step_touches w w' :
  handler_step w w' -> exists a, touches_only a w w'.
Proof.
  intros [a r w0 w0' Hrun | a name r w0 w0' Hrun | a r w0 w0' Hrun
         | a name r w0 w0' Hrun | a now1 now2 r w0 w0' Hrun
         | a name now1 now2 r w0 w0' Hrun]; exists a.
  - unfold roDirV_ReadDir in Hrun. unfold bind at 1 in Hrun.
    destruct (roDirV_populate a w0) as [[err w1] |] eqn:Hpop; [| discriminate].
    pose proof (roDirV_populate_touches _ _ _ _ Hpop) as Ht.
    destruct err; [injection Hrun as _ <-; exact Ht |].
    unfold bind at 1 in Hrun.
    destruct (the_roDirV a w1) as [[n w2] |] eqn:Hthe; [| discriminate].
    apply the_roDirV_inv in Hthe as [-> _]. injection Hrun as _ <-. exact Ht.
  - unfold roDirV_Lookup in Hrun. unfold bind at 1 in Hrun.
    destruct (roDirV_populate a w0) as [[err w1] |] eqn:Hpop; [| discriminate].
    pose proof (roDirV_populate_touches _ _ _ _ Hpop) as Ht.
    destruct err; [injection Hrun as _ <-; exact Ht |].
    unfold bind at 1 in Hrun.
    destruct (the_roDirV a w1) as [[n w2] |] eqn:Hthe; [| discriminate].
    apply the_roDirV_inv in Hthe as [-> _].
    destruct (default ∅ (dv_children n) !! name); injection Hrun as _ <-; exact Ht.
  - unfold roFileLikeDir_ReadDir in Hrun. unfold bind at 1 in Hrun.
    destruct (roFileLikeDir_populate a w0) as [[err w1] |] eqn:Hpop; [| discriminate].
    pose proof (roFileLikeDir_populate_touches _ _ _ _ Hpop) as Ht.
    destruct err; [injection Hrun as _ <-; exact Ht |].
    unfold bind at 1 in Hrun.
    destruct (the_roFileLikeDir a w1) as [[n w2] |] eqn:Hthe; [| discriminate].
    apply the_roFileLikeDir_inv in Hthe as [-> _]. injection Hrun as _ <-. exact Ht.
  - unfold roFileLikeDir_Lookup in Hrun. unfold bind at 1 in Hrun.
    destruct (roFileLikeDir_populate a w0) as [[err w1] |] eqn:Hpop; [| discriminate].
    pose proof (roFileLikeDir_populate_touches _ _ _ _ Hpop) as Ht.
    destruct err; [injection Hrun as _ <-; exact Ht |].
    unfold bind at 1 in Hrun.
    destruct (the_roFileLikeDir a w1) as [[n w2] |] eqn:Hthe; [| discriminate].
    apply the_roFileLikeDir_inv in Hthe as [-> _].
    destruct (default ∅ (fl_children n) !! name); injection Hrun as _ <-; exact Ht.
  - unfold versionsDir_ReadDir in Hrun. unfold bind at 1 in Hrun.
    destruct (condRefresh a now1 now2 w0) as [[e w1] |] eqn:Hc; [| discriminate].
    destruct (condRefresh_touches _ _ _ _ _ _ Hc) as (Ht & _).
    destruct e; [injection Hrun as _ <-; exact Ht |].
    unfold bind at 1 in Hrun.
    destruct (the_versionsDir a w1) as [[n w2] |] eqn:Hthe; [| discriminate].
    apply the_versionsDir_inv in Hthe as [-> _]. injection Hrun as _ <-. exact Ht.
  - exact (versionsDir_Lookup_touches _ _ _ _ _ _ _ Hrun).
Qed.

(** X15.  Whatever the client answers, over any sequence of [ReadDir]
    and [Lookup] calls on any directory nodes of the mount, no node is
    removed or replaced by a node of another type, no node changes its
    permanode, parent, name or xattrs (a roFileVersion does not change
    at all), so the [Attr] of every node, its inode included, stays
    what it was; and the log of queries only grows at its end. *)
Theorem handlers_keep_every_node w w' b nd :
  rtc handler_step w w' ->
  heap w !! b = Some nd ->
  (exists nd', heap w' !! b = Some nd'
               /\ same_identity nd nd'
               /\ node_Attr nd' = node_Attr nd)
  /\ exists qs, queries w' = queries w ++ qs.
Proof.
  intros Hsteps. revert nd. induction Hsteps as [w | w w1 w2 Hstep _ IH]; intros nd Hb.
  - split.
    + exists nd. split; [exact Hb |]. split; [apply same_identity_refl | reflexivity].
    + exists []. rewrite app_nil_r. reflexivity.
  - destruct (handler_step_touches _ _ Hstep) as (a & Hother & Hself & qs1 & Hq1).
    assert (Hb1 : exists nd1, heap w1 !! b = Some nd1 /\ same_identity nd nd1).
    { destruct (decide (b = a)) as [-> | Hne].
      - apply Hself. exact Hb.
      - exists nd. split; [apply (Hother _ _ Hne Hb) | apply same_identity_refl]. }
    destruct Hb1 as (nd1 & Hb1 & Hi1).
    destruct (IH _ Hb1) as [(nd2 & Hb2 & Hi2 & _) (qs2 & Hq2)].
    split.
    + exists nd2. split; [exact Hb2 |].
      pose proof (same_identity_trans _ _ _ Hi1 Hi2) as Hi.
      split; [exact Hi | apply same_identity_Attr; exact Hi].
    + exists (qs1 ++ qs2). rewrite Hq2, Hq1, app_assoc. reflexivity.
Qed.

(** ** roFileLikeDir: the names of the children are dates of claims *)

Lemma fl_populate_claims_names a cls :
  forall w n ch err w',
    heap w !! a = Some (NFileLikeDir n) ->
    fl_children n = Some ch ->
    fl_populate_claims a cls w = Some (err, w') ->
    exists ch',
      heap w' !! a = Some (NFileLikeDir (fl_with_children n (Some ch')))
      /\ forall name, is_Some (ch' !! name) ->
           is_Some (ch !! name)
           \/ exists cl, cl ∈ cls /\ DateString (Date cl) = name.
Proof.
  induction cls as [| cl rest IH]; intros w n ch err w' Ha Hch Hrun.
  - cbn in Hrun. injection Hrun as _ <-. exists ch. split; [| auto].
    rewrite Ha. destruct n; cbn in *; subst; reflexivity.
  - assert (Hsame : heap w !! a = Some (NFileLikeDir (fl_with_children n (Some ch))))
      by (rewrite Ha; destruct n; cbn in *; subst; reflexivity).
    destruct (Parse (Value cl)) as [pn |] eqn:Hp.
    2:{ rewrite (fl_populate_claims_unparseable _ _ _ _ Hp) in Hrun.
        injection Hrun as _ <-. exists ch. auto. }
    destruct (Describe (client w) (fl_describe_request pn cl)) as [[res |] c] eqn:Hd.
    2:{ rewrite (fl_populate_claims_Describe_error _ _ _ _ _ _ Hp Hd) in Hrun.
        injection Hrun as _ <-. exists ch. auto. }
    destruct (Meta res !! Value cl) as [db |] eqn:Hm.
    2:{ rewrite (fl_populate_claims_not_described _ _ _ _ _ _ _ Hp Hd Hm) in Hrun.
        injection Hrun as _ <-. exists ch. auto. }
    assert (Hlt : (a < length (heap w))%nat) by (eapply lookup_lt_Some; exact Ha).
    destruct (File db) as [fi |] eqn:Hf.
    + rewrite (fl_populate_claims_step _ _ _ _ _ _ _ _ _ _ _ Ha Hch Hp Hd Hm Hf) in Hrun.
      assert (Ha1 : heap (after_version a w n ch cl pn db fi c) !! a
                    = Some (NFileLikeDir
                              (fl_with_children n
                                 (Some (<[DateString (Date cl) := length (heap w)]> ch))))).
      { cbn [after_version heap]. apply list_lookup_insert_eq.
        rewrite length_app. cbn [length]. lia. }
      destruct (IH _ _ _ _ _ Ha1 eq_refl Hrun) as (ch' & Ha' & Hnames).
      exists ch'. split; [exact Ha' |].
      intros name Hname. destruct (Hnames name Hname) as [Hin | (cl' & Hin & Hn)].
      * apply lookup_insert_is_Some in Hin as [<- | [_ Hin]]; [| auto].
        right. exists cl. split; [apply list_elem_of_here | reflexivity].
      * right. exists cl'. split; [apply list_elem_of_further; exact Hin | exact Hn].
    + exfalso. cbn [fl_populate_claims] in Hrun. rewrite Hp in Hrun.
      rewrite (bind_eq _ _ _ _ _ (call_Describe_eq _ _ _ _ Hd)) in Hrun.
      rewrite Hm in Hrun.
      assert (Ha' : heap (after_query w (QDescribe (fl_describe_request pn cl)) c) !! a
                    = Some (NFileLikeDir n)) by exact Ha.
      rewrite (bind_eq _ _ _ _ _ (the_roFileLikeDir_eq _ _ _ Ha')) in Hrun.
      rewrite Hf in Hrun. discriminate.
Qed.

(** Whenever the first [ReadDir] of a roFileLikeDir lists anything, it
    has sent GetClaims first, and every name it lists is the rendering
    of the date of a claim of the answer. *)
Lemma roFileLikeDir_ReadDir_names a w n res c ents w' :
  heap w !! a = Some (NFileLikeDir n) ->
  fl_children n = None ->
  GetClaims (client w) (fl_claims_request n) = (Some res, c) ->
  roFileLikeDir_ReadDir a w = Some (Ok ents, w') ->
  (exists qs, queries w' = queries w ++ QGetClaims (fl_claims_request n) :: qs)
  /\ forall e, e ∈ ents ->
       exists cl, cl ∈ Claims res /\ Name e = DateString (Date cl).
Proof.
  intros Ha Hch Hg Hrun.
  assert (Hlt : (a < length (heap w))%nat) by (eapply lookup_lt_Some; exact Ha).
  unfold roFileLikeDir_ReadDir in Hrun. unfold bind at 1 in Hrun.
  destruct (roFileLikeDir_populate a w) as [[err w1] |] eqn:Hpop; [| discriminate].
  destruct err; [discriminate |].
  rewrite (roFileLikeDir_populate_loop _ _ _ _ _ Ha Hch Hg) in Hpop.
  match type of Hpop with fl_populate_claims _ _ ?w0' = _ => set (w0 := w0') in Hpop end.
  assert (Ha0 : heap w0 !! a = Some (NFileLikeDir (fl_with_children n (Some ∅))))
    by (apply list_lookup_insert_eq; exact Hlt).
  destruct (fl_populate_claims_names _ _ _ _ _ _ _ Ha0 eq_refl Hpop)
    as (ch' & Ha1 & Hnames).
  destruct (fl_populate_claims_touches _ _ _ _ _ _ _ Ha0 eq_refl Hpop)
    as (_ & _ & qs & Hq).
  rewrite (bind_eq _ _ _ _ _ (the_roFileLikeDir_eq _ _ _ Ha1)) in Hrun.
  unfold bind, get_heap, ret in Hrun. injection Hrun as <- <-.
  split.
  { exists qs. rewrite Hq. unfold w0. cbn [queries]. rewrite <- app_assoc.
    reflexivity. }
  intros e He. cbn [fl_with_children fl_children] in He.
  apply elem_of_dirents in He as (name & c0 & Hl & ->). cbn [Name].
  destruct (Hnames name (ex_intro _ c0 Hl)) as [[x Hx] | (cl & Hin & Hn)].
  - rewrite lookup_empty in Hx. discriminate.
  - exists cl. auto.
Qed.

(** ** Listings *)

Lemma dirents_names h ch :
  Name <$> dirents h ch = (map_to_list (default ∅ ch)).*1.
Proof.
  unfold dirents. rewrite <- list_fmap_compose. apply list_fmap_ext.
  intros i [name c] _. reflexivity.
Qed.

Lemma listing_names m :
  Name <$> listing m = (map_to_list (default ∅ m)).*1.
Proof.
  unfold listing. rewrite <- list_fmap_compose. apply list_fmap_ext.
  intros i [name c] _. reflexivity.
Qed.

(** X21.  No listing has two entries of one name: whatever [ReadDir]
    of a roDirV, a roFileLikeDir or the versionsDir returns as its
    listing, the names in it are pairwise distinct (two claims of one
    date, or a root and an import root of one name, give one entry). *)
Theorem listings_have_distinct_names w ents :
  lists w ents -> NoDup (Name <$> ents).
Proof.
  intros [a w0 w' ents0 Hrun | a w0 w' ents0 Hrun | a now1 now2 w0 w' ents0 Hrun].
  - unfold roDirV_ReadDir in Hrun. unfold bind at 1 in Hrun.
    destruct (roDirV_populate a w0) as [[[err |] w1] |]; try discriminate.
    unfold bind at 1 in Hrun.
    destruct (the_roDirV a w1) as [[n w2] |]; [| discriminate].
    unfold bind, get_heap, ret in Hrun. injection Hrun as <- _.
    rewrite dirents_names. apply NoDup_fst_map_to_list.
  - unfold roFileLikeDir_ReadDir in Hrun. unfold bind at 1 in Hrun.
    destruct (roFileLikeDir_populate a w0) as [[[err |] w1] |]; try discriminate.
    unfold bind at 1 in Hrun.
    destruct (the_roFileLikeDir a w1) as [[n w2] |]; [| discriminate].
    unfold bind, get_heap, ret in Hrun. injection Hrun as <- _.
    rewrite dirents_names. apply NoDup_fst_map_to_list.
  - unfold versionsDir_ReadDir in Hrun. unfold bind at 1 in Hrun.
    destruct (condRefresh a now1 now2 w0) as [[[err |] w1] |]; try discriminate.
    unfold bind at 1 in Hrun.
    destruct (the_versionsDir a w1) as [[n w2] |]; [| discriminate].
    unfold ret in Hrun. injection Hrun as <- _.
    fold (listing (vd_m n)). rewrite listing_names. apply NoDup_fst_map_to_list.
Qed.

(** X22.  Within the refresh window the versionsDir answers from its
    name map alone, and [Lookup] finds what [ReadDir] lists: when every
    ref in the name map is valid, a name is in the listing exactly when
    [Lookup] returns a node for it, and it is not in the listing
    exactly when [Lookup] answers ENOENT; neither call sends a query. *)
Theorem versionsDir_Lookup_finds_what_ReadDir_lists a name now1 now2 w n :
  heap w !! a = Some (NVersions n) ->
  now1 - lastQuery n < versionsRefreshTime ->
  maps_made_together n ->
  Valid zeroRef = false ->
  (forall nm br, default ∅ (vd_m n) !! nm = Some br -> Valid br = true) ->
  exists ents r w',
    versionsDir_ReadDir a now1 now2 w = Some (Ok ents, w)
    /\ versionsDir_Lookup a name now1 now2 w = Some (r, w')
    /\ queries w' = queries w
    /\ (name ∈ Name <$> ents <-> exists c, r = Ok c)
    /\ (name ∉ Name <$> ents <-> r = Err ENOENT).
Proof.
  intros Ha Hin Hinv Hzero Hvalid.
  assert (Hwin : After (lastQuery n) (Add now1 (- versionsRefreshTime)) = true)
    by (apply After_window; exact Hin).
  pose proof (condRefresh_not_due _ _ now2 _ _ Ha Hwin) as Hc.
  assert (Hnames : name ∈ Name <$> listing (vd_m n)
                   <-> is_Some (default ∅ (vd_m n) !! name)).
  { rewrite listing_names. rewrite list_elem_of_fmap. split.
    - intros ([nm br] & -> & Hel). apply elem_of_map_to_list in Hel. eauto.
    - intros [br Hbr]. exists (name, br). split; [reflexivity |].
      apply elem_of_map_to_list. exact Hbr. }
  exists (listing (vd_m n)).
  destruct (default ∅ (vd_m n) !! name) as [br |] eqn:Hm.
  - pose proof (Hvalid _ _ Hm) as Hv.
    assert (Hlisted : name ∈ Name <$> listing (vd_m n)) by (apply Hnames; eauto).
    destruct (default ∅ (vd_children n) !! name) as [nod |] eqn:Hl.
    + exists (Ok nod), w.
      split; [apply (versionsDir_ReadDir_ok _ _ _ _ _ _ Hc Ha) |].
      split.
      { apply (versionsDir_Lookup_memoized _ _ _ _ _ _ _ _ Hc Ha); [| exact Hl].
        rewrite Hm. exact Hv. }
      split; [reflexivity |]. split.
      * split; eauto.
      * split; [intros Hn; contradiction | discriminate].
    + destruct (vd_children n) as [ch |] eqn:Hch.
      2:{ exfalso. rewrite (Hinv Hch) in Hm. cbn in Hm.
          rewrite lookup_empty in Hm. discriminate. }
      eexists (Ok _), _.
      split; [apply (versionsDir_ReadDir_ok _ _ _ _ _ _ Hc Ha) |].
      split; [apply (versionsDir_Lookup_new _ _ _ _ _ _ _ _ _ Hc Ha Hm Hv Hch Hl) |].
      split; [reflexivity |]. split.
      * split; eauto.
      * split; [intros Hn; contradiction | discriminate].
  - assert (Hunlisted : name ∉ Name <$> listing (vd_m n)).
    { intros Hl. apply Hnames in Hl as [br Hbr]. discriminate. }
    exists (Err ENOENT), w.
    split; [apply (versionsDir_ReadDir_ok _ _ _ _ _ _ Hc Ha) |].
    split.
    { apply (versionsDir_Lookup_absent _ _ _ _ _ _ _ Hc Ha).
      rewrite Hm. exact Hzero. }
    split; [reflexivity |]. split.
    + split; [intros Hl; contradiction | intros [c Hc']; discriminate].
    + split; auto.
Qed.

End FsFacts.

(** * camtool versions *)

Section CamtoolFacts.
Context `{FsEnv} {C : Type} `{!SearchClient C} `{!CmdEnv C}.
Implicit Types w : @World _ C.

(** What [RunCommand] does, path by path. *)
Lemma RunCommand_cases (c : versionsCmd) args :
  (returned (RunCommand c args) = Some (UsageError "requires permanode")
   /\ sent (RunCommand c args) = [] /\ written (RunCommand c args) = []
   /\ forall arg, args <> [arg])
  \/ exists arg pn,
       args = [arg]
       /\ (if String.eqb arg "-" then Stdin_ReadAll else Some arg) = pn
       /\ match pn with
          | None =>
              RunCommand c args
              = {| returned := Some ErrReadAll; sent := []; written := [] |}
          | Some pn =>
              match Parse (TrimSpace pn) with
              | None =>
                  RunCommand c args
                  = {| returned :=
                         Some (UsageError ("invalid blobref "
                                             +:+ Sprintf_q (TrimSpace pn)));
                       sent := []; written := [] |}
              | Some br =>
                  let req := {| cr_Permanode := br;
                                cr_AttrFilter := "camliContent" |} in
                  sent (RunCommand c args) = [QGetClaims req]
                  /\ match (GetClaims (newClient (server c)) req).1 with
                     | None =>
                         returned (RunCommand c args) = Some ErrGetClaims
                         /\ written (RunCommand c args) = []
                     | Some res =>
                         match MarshalIndent res with
                         | None =>
                             returned (RunCommand c args) = Some ErrMarshalIndent
                             /\ written (RunCommand c args) = []
                         | Some resj =>
                             written (RunCommand c args) = [resj +:+ newline]
                             /\ returned (RunCommand c args)
                                = (if Stdout_Write (resj +:+ newline) then None
                                   else Some ErrWrite)
                         end
                     end
              end
          end.
Proof.
  destruct args as [| arg [| arg2 rest]].
  - left. cbn. repeat split. intros x. discriminate.
  - right. exists arg, (if String.eqb arg "-" then Stdin_ReadAll else Some arg).
    split; [reflexivity |]. split; [reflexivity |].
    unfold RunCommand.
    destruct (if String.eqb arg "-" then Stdin_ReadAll else Some arg) as [pn |];
      [| reflexivity].
    destruct (Parse (TrimSpace pn)) as [br |]; [| reflexivity].
    cbn zeta.
    destruct (GetClaims (newClient (server c))
                {| cr_Permanode := br; cr_AttrFilter := "camliContent" |})
      as [[res |] c'].
    + cbn [fst]. destruct (MarshalIndent res) as [resj |]; cbn; auto.
    + cbn. auto.
  - left. cbn. repeat split. intros x. discriminate.
Qed.

(** X16.  Whatever its arguments, standard input and the server:
    [camtool versions] sends at most one query, and that is a GetClaims
    for the attribute camliContent; it writes at most once to standard
    output, only after the query, and what it writes ends with a
    newline; when it returns a usage error it has sent nothing and
    written nothing; and it returns nil only when it has written. *)
Theorem RunCommand_sends_and_writes_at_most_once (c : versionsCmd) args :
  (sent (RunCommand c args) = []
   \/ exists br, sent (RunCommand c args)
                 = [QGetClaims {| cr_Permanode := br;
                                  cr_AttrFilter := "camliContent" |}])
  /\ (written (RunCommand c args) = []
      \/ (exists s, written (RunCommand c args) = [s +:+ newline])
         /\ sent (RunCommand c args) <> [])
  /\ (forall msg, returned (RunCommand c args) = Some (UsageError msg) ->
        sent (RunCommand c args) = [] /\ written (RunCommand c args) = [])
  /\ (returned (RunCommand c args) = None -> written (RunCommand c args) <> []).
Proof.
  destruct (RunCommand_cases c args)
    as [(Hr & Hs & Hw & _) | (arg & pn & -> & <- & Hrun)].
  { rewrite Hr, Hs, Hw. split; [auto |]. split; [auto |]. split; [auto |].
    discriminate. }
  destruct (if String.eqb arg "-" then Stdin_ReadAll else Some arg) as [pn |].
  2:{ rewrite Hrun. cbn. split; [auto |]. split; [auto |]. split; [auto |].
      discriminate. }
  destruct (Parse (TrimSpace pn)) as [br |].
  2:{ rewrite Hrun. cbn. split; [auto |]. split; [auto |]. split; [auto |].
      discriminate. }
  cbn zeta in Hrun. destruct Hrun as [Hs Hrun]. rewrite Hs.
  split; [right; eauto |].
  destruct (GetClaims (newClient (server c)) _).1 as [res |].
  2:{ destruct Hrun as [-> ->]. split; [auto |]. split; discriminate. }
  destruct (MarshalIndent res) as [resj |].
  2:{ destruct Hrun as [-> ->]. split; [auto |]. split; discriminate. }
  destruct Hrun as [-> ->]. split.
  { right. split; [eauto | discriminate]. }
  split; [| discriminate].
  intros msg. destruct (Stdout_Write (resj +:+ newline)); discriminate.
Qed.

(** X17.  The permanode piped on standard input is treated as the
    permanode given as the argument: with the argument ["-"] and the
    text [s] on standard input the command does what it does with the
    argument [s], unless [s] is itself ["-"]; and two arguments that
    [strings.TrimSpace] maps to the same text give the same run. *)
Theorem RunCommand_reads_the_permanode_from_stdin (c : versionsCmd) s s' :
  Stdin_ReadAll = Some s ->
  s <> "-" -> s' <> "-" ->
  TrimSpace s' = TrimSpace s ->
  RunCommand c ["-"] = RunCommand c [s]
  /\ RunCommand c [s'] = RunCommand c [s].
Proof.
  intros Hin Hs Hs' Htrim. unfold RunCommand.
  apply String.eqb_neq in Hs, Hs'. rewrite Hs, Hs'. cbn [String.eqb Ascii.eqb].
  rewrite Hin, Htrim.
  change (String.eqb "-" "-") with true. cbn iota. auto.
Qed.

(** X18.  [camtool versions] of a permanode and the versioned-file
    directory of that permanode ask the same question.  When the
    command returns nil it has written the JSON of the answer to
    GetClaims for camliContent, followed by a newline; and on a client
    in the state in which the command found it, the first [ReadDir] of
    an unpopulated roFileLikeDir of that permanode sends that same
    request first, and every name it lists is the rendering of the date
    of a claim of that answer. *)
Theorem RunCommand_prints_the_claims_of_the_directory
    (c : versionsCmd) arg a w n :
  returned (RunCommand c [arg]) = None ->
  exists pn br res c' resj,
    (if String.eqb arg "-" then Stdin_ReadAll else Some arg) = Some pn
    /\ Parse (TrimSpace pn) = Some br
    /\ GetClaims (newClient (server c))
         {| cr_Permanode := br; cr_AttrFilter := "camliContent" |} = (Some res, c')
    /\ MarshalIndent res = Some resj
    /\ written (RunCommand c [arg]) = [resj +:+ newline]
    /\ (heap w !! a = Some (NFileLikeDir n) ->
        fl_children n = None ->
        fl_permanode n = br ->
        client w = newClient (server c) ->
        sent (RunCommand c [arg]) = [QGetClaims (fl_claims_request n)]
        /\ forall ents w',
             roFileLikeDir_ReadDir a w = Some (Ok ents, w') ->
             (exists qs, queries w'
                         = queries w ++ QGetClaims (fl_claims_request n) :: qs)
             /\ forall e, e ∈ ents ->
                  exists cl, cl ∈ Claims res /\ Name e = DateString (Date cl)).
Proof.
  intros Hnil.
  destruct (RunCommand_cases c [arg])
    as [(Hr & _) | (arg' & pn & [= <-] & <- & Hrun)].
  { rewrite Hr in Hnil. discriminate. }
  destruct (if String.eqb arg "-" then Stdin_ReadAll else Some arg) as [pn |].
  2:{ rewrite Hrun in Hnil. discriminate. }
  destruct (Parse (TrimSpace pn)) as [br |] eqn:Hp.
  2:{ rewrite Hrun in Hnil. discriminate. }
  cbn zeta in Hrun. destruct Hrun as [Hs Hrun].
  destruct (GetClaims (newClient (server c))
              {| cr_Permanode := br; cr_AttrFilter := "camliContent" |})
    as [[res |] c'] eqn:Hg; cbn [fst] in Hrun.
  2:{ destruct Hrun as [Hr _]. rewrite Hr in Hnil. discriminate. }
  destruct (MarshalIndent res) as [resj |] eqn:Hj.
  2:{ destruct Hrun as [Hr _]. rewrite Hr in Hnil. discriminate. }
  destruct Hrun as [Hw Hr].
  exists pn, br, res, c', resj.
  split; [reflexivity |]. split; [exact Hp |]. split; [exact Hg |].
  split; [exact Hj |]. split; [exact Hw |].
  intros Ha Hch Hbr Hcl. subst br.
  split; [exact Hs |].
  intros ents w' Hrd.
  apply (roFileLikeDir_ReadDir_names a w n res c' ents w' Ha Hch); [| exact Hrd].
  rewrite Hcl. exact Hg.
Qed.

End CamtoolFacts.

(** * Worked examples *)

Section Examples.

#[local] Existing Instance td_blob.
#[local] Existing Instance td_env.
#[local] Existing Instance td_client.
#[local] Existing Instance td_cmd.

(** The two failed calls: an empty listing and ENOENT, no EIO, and the
    Describe sent twice. *)
Lemma roDirV_Describe_error_swallowed_example :
  exists w1 w2,
    roDirV_ReadDir 0%nat w_dirP_down = Some (Ok [], w1)
    /\ roDirV_Lookup 0%nat "a" w_dirP_down = Some (Err ENOENT, w1)
    /\ heap w1 = heap w_dirP_down
    /\ roDirV_ReadDir 0%nat w1 = Some (Ok [], w2)
    /\ queries w2 = [QDescribe (dv_describe_request dirP);
                     QDescribe (dv_describe_request dirP)].
Proof.
  destruct (roDirV_Describe_error_swallowed 0%nat "a" w_dirP_down dirP
              (script [None] [] []) (script [] [] [])
              ltac:(reflexivity) ltac:(reflexivity)
              ltac:(reflexivity) ltac:(reflexivity))
    as (H1 & H2 & H3 & H4).
  eexists _, _.
  split; [exact H1 |]. split; [exact H2 |]. split; [exact H3 |].
  split; [exact H4 |]. reflexivity.
Defined.

(** With an unparseable second claim the first [ReadDir] fails with
    EIO, and the second lists the first version without a query; with a
    failing Describe even the first [ReadDir] lists the first version. *)
Lemma roFileLikeDir_failed_populate_is_kept_example :
  (exists w1,
      roFileLikeDir_ReadDir 0%nat w_fileF_bad = Some (Err EIO, w1)
      /\ roFileLikeDir_ReadDir 0%nat w1
         = Some (Ok [{| Name := DateString t1; Inode := Sum64 "sha1-F" |}], w1)
      /\ roFileLikeDir_Lookup 0%nat (DateString t1) w1 = Some (Ok 1%nat, w1))
  /\ (exists w1,
        roFileLikeDir_ReadDir 0%nat w_fileF_down
        = Some (Ok [{| Name := DateString t1; Inode := Sum64 "sha1-F" |}], w1)
        /\ roFileLikeDir_ReadDir 0%nat w1
           = Some (Ok [{| Name := DateString t1; Inode := Sum64 "sha1-F" |}], w1)).
Proof.
  split.
  - destruct (roFileLikeDir_failed_populate_is_kept 0%nat w_fileF_bad fileF
                {| Claims := [claimA; claim_bad] |} (script [Some describedA] [] [])
                claimA claim_bad [] "sha1-A" describedA (script [] [] [])
                (td_file "sha1-A" 10) {| Size := 10 |}
                (Some "invalid blobref") (script [] [] []) []
                ltac:(reflexivity) ltac:(reflexivity) ltac:(reflexivity)
                ltac:(reflexivity) ltac:(reflexivity) ltac:(reflexivity)
                ltac:(reflexivity) ltac:(reflexivity)
                ltac:(apply fails_unparseable; reflexivity))
      as (w1 & n1 & H1 & _ & _ & H4 & H5).
    exists w1. split; [exact H1 |]. split; [exact H4 | exact H5].
  - destruct (roFileLikeDir_failed_populate_is_kept 0%nat w_fileF_down fileF
                {| Claims := [claimA; claimB] |} (script [Some describedA; None] [] [])
                claimA claimB [] "sha1-A" describedA (script [None] [] [])
                (td_file "sha1-A" 10) {| Size := 10 |}
                None (script [] [] [])
                [QDescribe (fl_describe_request (H := td_blob) "sha1-B" claimB)]
                ltac:(reflexivity) ltac:(reflexivity) ltac:(reflexivity)
                ltac:(reflexivity) ltac:(reflexivity) ltac:(reflexivity)
                ltac:(reflexivity) ltac:(reflexivity)
                ltac:(apply fails_Describe_error; reflexivity))
      as (w1 & n1 & H1 & _ & _ & H4 & _).
    exists w1. split; [exact H1 | exact H4].
Defined.

(** The listing has the three names; the subdirectory [a] has the hash
    of its ref, the versioned file [b] and the symlink [c] have inode 0,
    which is not the hash of their refs. *)
Lemma roDirV_ReadDir_inodes_example :
  exists ents w',
    roDirV_ReadDir 0%nat w_dirP = Some (Ok ents, w')
    /\ {| Name := "a"; Inode := Sum64 "sha1-X" |} ∈ ents
    /\ {| Name := "b"; Inode := 0 |} ∈ ents
    /\ {| Name := "c"; Inode := 0 |} ∈ ents
    /\ (forall ino, {| Name := "title"; Inode := ino |} ∈ ents -> False)
    /\ Sum64 "sha1-Y" = 3391336849 /\ Sum64 "sha1-L" = 3391336836.
Proof.
  destruct (roDirV_ReadDir_inodes 0%nat w_dirP dirP describedP (script [] [] [])
              (td_permanode "sha1-P"
                 [("camliPath:a", ["sha1-X"]); ("camliPath:b", ["sha1-Y"]);
                  ("camliPath:c", ["sha1-L"]); ("title", ["pictures"])])
              {| Attr := attrsP |}
              ltac:(reflexivity) ltac:(reflexivity) ltac:(reflexivity)
              ltac:(reflexivity) ltac:(reflexivity)
              ltac:(apply no_entry_panics_spec; vm_compute; reflexivity))
    as (ents & w' & Hrd & _ & Hents).
  exists ents, w'. split; [exact Hrd |].
  split.
  { apply Hents. exists ["sha1-X"], "sha1-X", KDir, {| Attr := list_to_map [("camliNodeType", ["directory"])] |}.
    split; [reflexivity |]. split; reflexivity. }
  split.
  { apply Hents. exists ["sha1-Y"], "sha1-Y", KFile, {| Attr := list_to_map [("camliContent", ["sha1-C"])] |}.
    split; [reflexivity |]. split; reflexivity. }
  split.
  { apply Hents. exists ["sha1-L"], "sha1-L", (KSymlink "../a"), {| Attr := list_to_map [("camliSymlinkTarget", ["../a"])] |}.
    split; [reflexivity |]. split; reflexivity. }
  split.
  { intros ino Hin. apply Hents in Hin as (v & cr & kind & cp & Hat & _).
    vm_compute in Hat. discriminate. }
  split; reflexivity.
Defined.

(** Two [ReadDir]s one second apart on a store without roots: both
    succeed, and four searches have been sent. *)
Lemma versionsDir_empty_refresh_is_not_timestamped_example :
  exists w1 n1 res w2 qs,
    versionsDir_ReadDir 0%nat noon noon w_empty_store = Some (Ok [], w1)
    /\ heap w1 !! 0%nat = Some (NVersions n1)
    /\ lastQuery n1 = 0
    /\ versionsDir_ReadDir 0%nat (noon + second) (noon + second) w1 = Some (res, w2)
    /\ queries w2
       = [QWithAttr root_request; QWithAttr import_request;
          QWithAttr root_request; QWithAttr import_request] ++ qs.
Proof.
  destruct (versionsDir_empty_refresh_is_not_timestamped
              0%nat noon noon (noon + second) (noon + second) w_empty_store rootsDir0
              {| WithAttr := [] |} (script [] [] [found []; found []; found []])
              {| WithAttr := [] |} (script [] [] [found []; found []])
              ltac:(reflexivity) ltac:(reflexivity) ltac:(reflexivity)
              ltac:(reflexivity) ltac:(reflexivity) ltac:(vm_compute; discriminate))
    as (w1 & n1 & res & w2 & qs & H1 & _ & H3 & H4 & H5 & H6).
  exists w1, n1, res, w2, qs.
  split; [exact H1 |]. split; [exact H3 |]. split; [exact H4 |].
  split; [exact H5 | exact H6].
Defined.

(** The batch Describe fails: the refresh, [ReadDir] and [Lookup]
    answer EIO; the timestamp and the memoized child are kept; the name
    map is empty afterwards; the next call sends the searches again. *)
Lemma condRefresh_failure_keeps_example :
  exists w' n',
    condRefresh 0%nat noon noon w_describe_down = Some (Some EIO, w')
    /\ versionsDir_ReadDir 0%nat noon noon w_describe_down = Some (Err EIO, w')
    /\ versionsDir_Lookup 0%nat "photos" noon noon w_describe_down
       = Some (Err EIO, w')
    /\ heap w' !! 0%nat = Some (NVersions n')
    /\ heap w' !! 1%nat = Some (NDirV photos_old)
    /\ lastQuery n' = noon - 2 * Minute
    /\ default ∅ (vd_children n') = {[ "photos" := 1%nat ]}
    /\ vd_m n' = Some ∅
    /\ exists e2 w2 qs,
        condRefresh 0%nat (noon + second) (noon + second) w' = Some (e2, w2)
        /\ queries w2
           = queries w' ++ [QWithAttr root_request; QWithAttr import_request] ++ qs.
Proof.
  destruct (condRefresh_failure_keeps
              0%nat "photos" noon noon (noon + second) (noon + second)
              w_describe_down rootsDir_photos
              (found ["sha1-R"]) (script [None] [] [found []; None; None])
              (found []) (script [None] [] [None; None])
              ltac:(reflexivity) ltac:(reflexivity) ltac:(reflexivity)
              ltac:(reflexivity) ltac:(vm_compute; discriminate))
    as [Hfails _].
  destruct (Hfails (script [] [] [None; None])
              [QDescribe (batch_request {| WithAttr := [td_item "sha1-R"] |}
                                        {| WithAttr := [] |})]
              (Describe_fails (script [None] [] [None; None]) _ _
                 {| WithAttr := [td_item "sha1-R"] |}
                 {| WithAttr := [] |} (script [] [] [None; None])
                 ltac:(reflexivity) ltac:(reflexivity) ltac:(discriminate)
                 ltac:(reflexivity)))
    as (w' & n' & Hrun & Hrd & Hlk & _ & _ & Ha' & Hframe & Hlq & Hch & _ & Hm & Hretry).
  exists w', n'.
  split; [exact Hrun |]. split; [exact Hrd |]. split; [exact Hlk |].
  split; [exact Ha' |].
  split; [exact (Hframe 1%nat ltac:(discriminate)) |].
  split; [exact Hlq |]. split; [exact Hch |].
  split; [| exact Hretry].
  apply (Hm ltac:(eexists; reflexivity) ltac:(eexists; reflexivity)).
Defined.

(** The claim of C5 fails on this input: the name map before the failed
    refresh holds "photos", the name map after it is empty. *)
Lemma condRefresh_Describe_error_clears_map :
  exists w',
    condRefresh 0%nat noon noon w_describe_down = Some (Some EIO, w')
    /\ heap w_describe_down !! 0%nat = Some (NVersions rootsDir_photos)
    /\ vd_m rootsDir_photos = Some {[ "photos" := "sha1-R" ]}
    /\ heap w' !! 0%nat
       = Some (NVersions {| lastQuery := noon - 2 * Minute;
                            vd_m := Some ∅;
                            vd_children := Some {[ "photos" := 1%nat ]} |})
    /\ heap w' !! 0%nat <> heap w_describe_down !! 0%nat.
Proof.
  evaluated Hrun (condRefresh 0%nat noon noon w_describe_down).
  eexists. split; [exact Hrun |].
  split; [reflexivity |]. split; [reflexivity |].
  split; [reflexivity |].
  intros Heq.
  apply (f_equal (fun o => match o with
                           | Some (NVersions d) => default ∅ (vd_m d) !! "photos"
                           | _ => None
                           end)) in Heq.
  discriminate Heq.
Defined.

(** After the empty refresh "photos" is not found, and the cache still
    holds its child; after the next refresh [Lookup] hands out that old
    child, the roDirV of the permanode "sha1-R", for the root that is
    now on "sha1-R2". *)
Lemma stale_child_outlives_empty_refresh_example :
  exists w1 n1 w2 n2,
    versionsDir_Lookup 0%nat "photos" noon noon w_photos_gone
    = Some (Err ENOENT, w1)
    /\ versionsDir_ReadDir 0%nat noon noon w_photos_gone = Some (Ok [], w1)
    /\ heap w1 !! 0%nat = Some (NVersions n1)
    /\ vd_children n1 = Some {[ "photos" := 1%nat ]}
    /\ versionsDir_Lookup 0%nat "photos" (noon + second) (noon + second) w1
       = Some (Ok 1%nat, w2)
    /\ heap w2 !! 1%nat = Some (NDirV photos_old)
    /\ heap w2 !! 0%nat = Some (NVersions n2)
    /\ vd_m n2 = Some {[ "photos" := "sha1-R2" ]}.
Proof.
  destruct (stale_child_outlives_empty_refresh
              0%nat "photos" 1%nat noon noon (noon + second) (noon + second)
              w_photos_gone rootsDir_photos {[ "photos" := 1%nat ]}
              {| WithAttr := [] |}
              (script [Some describedR2] [] [found []; found ["sha1-R2"]; found []])
              {| WithAttr := [] |}
              (script [Some describedR2] [] [found ["sha1-R2"]; found []])
              {| WithAttr := [td_item "sha1-R2"] |}
              (script [Some describedR2] [] [found []])
              {| WithAttr := [] |} (script [Some describedR2] [] [])
              describedR2 (script [] [] []) (td_item "sha1-R2")
              ltac:(reflexivity) ltac:(reflexivity) ltac:(reflexivity)
              ltac:(reflexivity) ltac:(reflexivity) ltac:(reflexivity)
              ltac:(reflexivity) ltac:(reflexivity)
              ltac:(vm_compute; discriminate)
              ltac:(reflexivity) ltac:(reflexivity) ltac:(reflexivity)
              ltac:(apply list_elem_of_here) ltac:(reflexivity)
              ltac:(intros r Hin; apply list_elem_of_singleton in Hin as ->;
                    reflexivity))
    as (w1 & n1 & w2 & H1 & H2 & H3 & H4 & H5).
  exists w1, n1, w2.
  assert (Hw2 : exists n2, heap w2 !! 1%nat = Some (NDirV photos_old)
                           /\ heap w2 !! 0%nat = Some (NVersions n2)
                           /\ vd_m n2 = Some {[ "photos" := "sha1-R2" ]}).
  { evaluate_in H1. injection H1 as <-.
    evaluate_in H5. injection H5 as <-.
    eexists. split; [reflexivity |]. split; reflexivity. }
  destruct Hw2 as (n2 & H6 & H7 & H8).
  exists n2. repeat (split; [assumption |]). assumption.
Defined.

Lemma mutation_is_denied_example :
  node_Open (NFileVersion versionA) O_WRONLY 1 = Some (Err EPERM, 1)
  /\ node_Setxattr (NFileVersion versionA) = Some EPERM
  /\ node_Removexattr (NFileVersion versionA) = Some EPERM
  /\ node_Setxattr (NVersions rootsDir0) = Some EPERM
  /\ node_Removexattr (NVersions rootsDir0) = Some EPERM.
Proof.
  exact (mutation_is_denied (H0 := td_env) versionA rootsDir0 O_WRONLY 1
           ltac:(reflexivity)).
Defined.

(** The claim of C7 fails on the two directory types of rover.go: a
    roDirV and a roFileLikeDir have no handler that answers
    [Setxattr], [Removexattr] or a write [Open] with EPERM. *)
Lemma directories_do_not_deny_mutation :
  node_Setxattr (NDirV dirP) = None
  /\ node_Removexattr (NDirV dirP) = None
  /\ node_Open (NDirV dirP) O_WRONLY 1 = None
  /\ node_Setxattr (NFileLikeDir fileF) = None
  /\ node_Removexattr (NFileLikeDir fileF) = None
  /\ node_Open (NFileLikeDir fileF) O_RDWR 1 = None
  /\ (node_Setxattr (NDirV dirP) = Some EPERM -> False).
Proof. repeat split; try reflexivity. discriminate. Defined.

Lemma w_fileF_populate :
  roFileLikeDir_populate 0%nat w_fileF = Some (None, w_fileF_populated).
Proof. reflexivity. Qed.

(** Both versions report the inode of the directory, in [Attr] and in
    the listing. *)
Lemma versions_share_the_directory_inode_example :
  exists ents,
    roFileLikeDir_ReadDir 0%nat w_fileF_populated = Some (Ok ents, w_fileF_populated)
    /\ (forall e, e ∈ ents -> Inode e = Sum64 "sha1-F")
    /\ (exists ino, {| Name := DateString t1; Inode := ino |} ∈ ents)
    /\ (exists ino, {| Name := DateString t2; Inode := ino |} ∈ ents)
    /\ a_Inode (roFileVersion_Attr versionA) = a_Inode (roFileLikeDir_Attr fileF)
    /\ a_Inode (roFileVersion_Attr versionB) = a_Inode (roFileLikeDir_Attr fileF).
Proof.
  destruct (versions_share_the_directory_inode 0%nat w_fileF fileF
              {| Claims := [claimA; claimB] |}
              (script [Some describedA; Some describedB] [] [])
              None w_fileF_populated
              ltac:(reflexivity) ltac:(reflexivity) ltac:(reflexivity)
              w_fileF_populate)
    as (n' & ch & Ha' & Hch' & Hino & Hall & ents & Hrd & Hnames & Hinodes).
  injection Ha' as <-. injection Hch' as <-.
  exists ents. split; [exact Hrd |].
  split; [intros e He; rewrite (Hinodes e He); exact Hino |].
  split; [apply Hnames; eexists; reflexivity |].
  split; [apply Hnames; eexists; reflexivity |].
  split; reflexivity.
Defined.

(** The attributes of the first version: read-only, 10 bytes in one
    block, and both times are the start of the server. *)
Lemma roFileVersion_Attr_as_coded_example :
  (a_Mode (roFileVersion_Attr versionA) = perm_0400
   /\ a_Size (roFileVersion_Attr versionA) = 10
   /\ a_Blocks (roFileVersion_Attr versionA) = 1)
  /\ exists v,
      heap w_fileF_populated !! 1%nat = Some (NFileVersion v)
      /\ a_Mtime (roFileVersion_Attr v) = serverStart
      /\ a_Atime (roFileVersion_Attr v) = serverStart.
Proof.
  destruct roFileVersion_Attr_as_coded as [Hattr Hpop].
  split.
  - assert (Hsz : is_int64 (fv_size versionA)) by (unfold is_int64; cbn; lia).
    destruct (Hattr versionA Hsz) as ((Hmode & _) & (_ & Hsize & Hblocks) & _).
    split; [exact Hmode |].
    split; [apply Hsize; cbn; lia | exact Hblocks].
  - apply (Hpop 0%nat w_fileF fileF {| Claims := [claimA; claimB] |}
             (script [Some describedA; Some describedB] [] [])
             None w_fileF_populated _
             (<[DateString t2 := 2%nat]> {[ DateString t1 := 1%nat ]})
             (DateString t1) 1%nat
             ltac:(reflexivity) ltac:(reflexivity) ltac:(reflexivity)
             w_fileF_populate ltac:(reflexivity) ltac:(reflexivity)
             ltac:(reflexivity)).
Defined.

(** The claim of C8 fails on this input: the version made from the
    claim of date [t1] is named after [t1], and its modification time
    is not [t1] but the start of the server. *)
Lemma version_mtime_is_not_the_claim_date :
  roFileLikeDir_populate 0%nat w_fileF = Some (None, w_fileF_populated)
  /\ Date claimA = t1
  /\ heap w_fileF_populated !! 1%nat = Some (NFileVersion versionA)
  /\ fv_name versionA = DateString (Date claimA)
  /\ fv_content versionA = "sha1-A"
  /\ a_Mtime (roFileVersion_Attr versionA) = serverStart
  /\ (a_Mtime (roFileVersion_Attr versionA) = Date claimA -> False).
Proof.
  split; [exact w_fileF_populate |].
  repeat (split; [reflexivity |]).
  intros Heq. discriminate Heq.
Defined.




(** ** Further examples *)

(** The permanode of the directory is not in the answer: EIO, twice,
    with two Describes. *)
Lemma roDirV_not_described_is_EIO_example :
  exists w1 w2,
    roDirV_ReadDir 0%nat w_dirP_other = Some (Err EIO, w1)
    /\ roDirV_Lookup 0%nat "a" w_dirP_other = Some (Err EIO, w1)
    /\ heap w1 = heap w_dirP_other
    /\ roDirV_Lookup 0%nat "a" w1 = Some (Err EIO, w2)
    /\ queries w2 = [QDescribe (dv_describe_request dirP);
                     QDescribe (dv_describe_request dirP)].
Proof.
  destruct (roDirV_not_described_is_EIO 0%nat "a" w_dirP_other dirP
              describedA (script [Some describedA] [] [])
              describedA (script [] [] [])
              ltac:(reflexivity) ltac:(reflexivity) ltac:(reflexivity)
              ltac:(reflexivity) ltac:(reflexivity) ltac:(reflexivity))
    as (H1 & H2 & H3 & H4).
  eexists _, _.
  split; [exact H1 |]. split; [exact H2 |]. split; [exact H3 |].
  split; [exact H4 |]. reflexivity.
Defined.

(** [Lookup] of the subdirectory [a] of the directory of [w_dirP]. *)
Lemma roDirV_Lookup_child_example :
  exists c0 w',
    roDirV_Lookup 0%nat "a" w_dirP = Some (Ok c0, w')
    /\ queries w' = [QDescribe (dv_describe_request dirP)]
    /\ heap w' !! c0
       = Some (NDirV {| dv_permanode := "sha1-X"; dv_parent := Some 0%nat;
                        dv_name := "a"; dv_children := None;
                        dv_xattrs := Some ∅ |}).
Proof.
  destruct (roDirV_Lookup_child 0%nat "a" w_dirP dirP describedP (script [] [] [])
              (td_permanode "sha1-P"
                 [("camliPath:a", ["sha1-X"]); ("camliPath:b", ["sha1-Y"]);
                  ("camliPath:c", ["sha1-L"]); ("title", ["pictures"])])
              {| Attr := attrsP |}
              ltac:(reflexivity) ltac:(reflexivity) ltac:(reflexivity)
              ltac:(reflexivity) ltac:(reflexivity)
              ltac:(apply no_entry_panics_spec; vm_compute; reflexivity))
    as (r & w' & Hl & Hq & Hch & _).
  destruct (Hch ["sha1-X"] "sha1-X" KDir
              {| Attr := list_to_map [("camliNodeType", ["directory"])] |}
              ltac:(reflexivity) ltac:(reflexivity))
    as (c0 & -> & _ & Hh).
  exists c0, w'. split; [exact Hl |]. split; [exact Hq | exact Hh].
Defined.

(** The second [ReadDir] of [w_dirP] and a [Lookup] after it leave the
    world as the first [ReadDir] left it. *)
Lemma roDirV_populated_once_example :
  exists ents w' r,
    roDirV_ReadDir 0%nat w_dirP = Some (Ok ents, w')
    /\ queries w' = [QDescribe (dv_describe_request dirP)]
    /\ roDirV_ReadDir 0%nat w' = Some (Ok ents, w')
    /\ roDirV_Lookup 0%nat "b" w' = Some (r, w').
Proof.
  destruct (roDirV_populated_once 0%nat w_dirP dirP describedP (script [] [] [])
              (td_permanode "sha1-P"
                 [("camliPath:a", ["sha1-X"]); ("camliPath:b", ["sha1-Y"]);
                  ("camliPath:c", ["sha1-L"]); ("title", ["pictures"])])
              {| Attr := attrsP |}
              ltac:(reflexivity) ltac:(reflexivity) ltac:(reflexivity)
              ltac:(reflexivity) ltac:(reflexivity)
              ltac:(apply no_entry_panics_spec; vm_compute; reflexivity))
    as (ents & w' & H1 & H2 & _ & H4 & H5).
  destruct (H5 "b") as (r & Hr).
  exists ents, w', r.
  split; [exact H1 |]. split; [exact H2 |]. split; [exact H4 | exact Hr].
Defined.

(** A path that names a file blob: the listing of the directory
    panics. *)
Lemma roDirV_populate_nil_permanode_panics_example :
  roDirV_ReadDir 0%nat w_dirP_file = None
  /\ roDirV_Lookup 0%nat "a" w_dirP_file = None.
Proof.
  apply (roDirV_populate_nil_permanode_panics 0%nat "a" w_dirP_file dirP
           describedP_file (script [] [] [])
           (td_permanode "sha1-P" [("camliPath:a", ["sha1-C"])])
           ltac:(reflexivity) ltac:(reflexivity) ltac:(reflexivity)
           ltac:(reflexivity)).
  right.
  exists {| Attr := list_to_map [("camliPath:a", ["sha1-C"])] |},
         "camliPath:a", "sha1-C", [], (td_file "sha1-C" 10).
  repeat split; reflexivity.
Defined.

(** GetClaims fails twice: EIO twice, and two requests. *)
Lemma roFileLikeDir_GetClaims_error_is_EIO_example :
  exists w1 w2,
    roFileLikeDir_ReadDir 0%nat w_fileF_claims_down = Some (Err EIO, w1)
    /\ roFileLikeDir_Lookup 0%nat "x" w_fileF_claims_down = Some (Err EIO, w1)
    /\ heap w1 = heap w_fileF_claims_down
    /\ roFileLikeDir_ReadDir 0%nat w1 = Some (Err EIO, w2)
    /\ queries w2 = [QGetClaims (fl_claims_request fileF);
                     QGetClaims (fl_claims_request fileF)].
Proof.
  destruct (roFileLikeDir_GetClaims_error_is_EIO 0%nat "x" w_fileF_claims_down fileF
              (script [] [None] []) (script [] [] [])
              ltac:(reflexivity) ltac:(reflexivity) ltac:(reflexivity)
              ltac:(reflexivity))
    as (H1 & H2 & H3 & H4).
  eexists _, _.
  split; [exact H1 |]. split; [exact H2 |]. split; [exact H3 |].
  split; [exact H4 |]. reflexivity.
Defined.

(** Two claims of one date: the name of the date finds the version of
    the second claim, with its content and size. *)
Lemma roFileLikeDir_Lookup_version_example :
  exists w',
    roFileLikeDir_Lookup 0%nat (DateString t1) w_fileF_same_date
    = Some (Ok 2%nat, w')
    /\ roFileLikeDir_Lookup 0%nat (DateString t1) w' = Some (Ok 2%nat, w')
    /\ queries w'
       = [QGetClaims (fl_claims_request fileF);
          QDescribe (fl_describe_request (H := td_blob) "sha1-A" claimA);
          QDescribe (fl_describe_request (H := td_blob) "sha1-B" claimA2)]
    /\ heap w' !! 2%nat
       = Some (NFileVersion
                 {| fv_permanode := "sha1-F"; fv_parent := Some 0%nat;
                    fv_name := DateString t1; fv_symLink := false;
                    fv_target := ""; fv_content := "sha1-B"; fv_size := 20;
                    fv_mtime := 0; fv_atime := 0; fv_xattrs := None |}).
Proof.
  destruct (roFileLikeDir_Lookup_version 0%nat (DateString t1) w_fileF_same_date
              fileF {| Claims := [claimA; claimA2] |}
              (script [Some describedA; Some describedB] [] [])
              [(claimA, "sha1-A", td_file "sha1-A" 10, {| Size := 10 |});
               (claimA2, "sha1-B", td_file "sha1-B" 20, {| Size := 20 |})]
              (script [] [] [])
              ltac:(reflexivity) ltac:(reflexivity) ltac:(reflexivity)
              ltac:(reflexivity))
    as (w' & H1 & H2 & _ & H4 & H5 & _).
  exists w'. split; [exact H1 |]. split; [exact H2 |]. split; [exact H4 |].
  exact (H5 1%nat _ eq_refl).
Defined.

(** The two versions of [w_fileF] are listed under their dates and
    under the one inode of the directory. *)
Lemma roFileLikeDir_ReadDir_dates_example :
  exists ents w',
    roFileLikeDir_ReadDir 0%nat w_fileF = Some (Ok ents, w')
    /\ {| Name := DateString t1; Inode := Sum64 "sha1-F" |} ∈ ents
    /\ {| Name := DateString t2; Inode := Sum64 "sha1-F" |} ∈ ents.
Proof.
  destruct (roFileLikeDir_ReadDir_dates 0%nat w_fileF fileF
              {| Claims := [claimA; claimB] |}
              (script [Some describedA; Some describedB] [] [])
              [(claimA, "sha1-A", td_file "sha1-A" 10, {| Size := 10 |});
               (claimB, "sha1-B", td_file "sha1-B" 20, {| Size := 20 |})]
              (script [] [] [])
              ltac:(reflexivity) ltac:(reflexivity) ltac:(reflexivity)
              ltac:(reflexivity))
    as (ents & w' & H1 & H2).
  exists ents, w'. split; [exact H1 |]. split.
  - apply H2. exists claimA. split; [apply list_elem_of_here | reflexivity].
  - apply H2. exists claimB.
    split; [apply list_elem_of_further, list_elem_of_here | reflexivity].
Defined.

(** The content of the second claim is a permanode: no listing. *)
Lemma roFileLikeDir_populate_nil_File_panics_example :
  roFileLikeDir_ReadDir 0%nat w_fileF_no_file = None
  /\ roFileLikeDir_Lookup 0%nat (DateString t1) w_fileF_no_file = None.
Proof.
  apply (roFileLikeDir_populate_nil_File_panics 0%nat (DateString t1)
           w_fileF_no_file fileF {| Claims := [claimA; claimB] |}
           (script [Some describedA; Some describedB_permanode] [] [])
           [claimA] [(claimA, "sha1-A", td_file "sha1-A" 10, {| Size := 10 |})]
           (script [Some describedB_permanode] [] [])
           claimB [] "sha1-B" describedB_permanode (script [] [] [])
           (td_permanode "sha1-B" []));
    reflexivity.
Defined.

(** [Open] for reading with the response flags 3: the handle reads the
    content of the version, and the flag 2 is left. *)
Lemma roFileVersion_Open_for_reading_example :
  exists flags,
    roFileVersion_Open versionA 0 3
    = (Ok {| nr_blobref := "sha1-A"; nr_fr := tt |}, flags)
    /\ 0 <= flags < 2 ^ 32
    /\ Z.land flags 1 = 0
    /\ forall i, 0 <= i ->
         Z.testbit flags i = Z.testbit 3 i && negb (Z.testbit 1 i).
Proof.
  exact (roFileVersion_Open_for_reading versionA 0 3 eq_refl ltac:(lia)).
Defined.

(** The listing of [w_flickr] has the root and the import root. *)
Lemma versionsDir_ReadDir_lists_roots_and_importers_example :
  exists ents w',
    versionsDir_ReadDir 0%nat noon noon w_flickr = Some (Ok ents, w')
    /\ {| Name := "photos"; Inode := 0 |} ∈ ents
    /\ {| Name := "importer-flickr-user-1"; Inode := 0 |} ∈ ents
    /\ ({| Name := "flickr:user/1"; Inode := 0 |} ∈ ents -> False).
Proof.
  destruct (versionsDir_ReadDir_lists_roots_and_importers
              0%nat noon noon w_flickr rootsDir_flickr
              {| WithAttr := [td_item "sha1-R"] |}
              (script [Some describedRI] [] [found ["sha1-I"]])
              {| WithAttr := [td_item "sha1-I"] |}
              (script [Some describedRI] [] [])
              describedRI (script [] [] [])
              ltac:(reflexivity) ltac:(reflexivity) ltac:(reflexivity)
              ltac:(reflexivity) ltac:(discriminate) ltac:(reflexivity))
    as (ents & w' & H1 & _ & H3).
  exists ents, w'. split; [exact H1 |]. split.
  { apply H3. split; [reflexivity |]. left. exists (td_item "sha1-R").
    split; [apply list_elem_of_here | reflexivity]. }
  split.
  { apply H3. split; [reflexivity |]. right. exists (td_item "sha1-I").
    split; [apply list_elem_of_here | reflexivity]. }
  intros Hin. apply H3 in Hin as [_ [(wi & Hwi & Hn) | (wi & Hwi & Hn)]];
    apply list_elem_of_singleton in Hwi; subst wi; discriminate Hn.
Defined.

(** [Lookup] of the root "photos" of [w_flickr], which has no memoized
    child: a new roDirV of its permanode, returned again a second
    later. *)
Lemma versionsDir_Lookup_after_refresh_example :
  exists w',
    versionsDir_Lookup 0%nat "photos" noon noon w_flickr = Some (Ok 2%nat, w')
    /\ versionsDir_Lookup 0%nat "photos" (noon + second) (noon + second) w'
       = Some (Ok 2%nat, w')
    /\ heap w' !! 2%nat = Some (NDirV (newRODirV (H := td_blob) "sha1-R" "photos"))
    /\ queries w'
       = [QWithAttr root_request; QWithAttr import_request;
          QDescribe (batch_request {| WithAttr := [td_item "sha1-R"] |}
                                   {| WithAttr := [td_item "sha1-I"] |})].
Proof.
  destruct (versionsDir_Lookup_after_refresh
              0%nat "photos" noon noon (noon + second) (noon + second)
              w_flickr rootsDir_flickr
              {| WithAttr := [td_item "sha1-R"] |}
              (script [Some describedRI] [] [found ["sha1-I"]])
              {| WithAttr := [td_item "sha1-I"] |}
              (script [Some describedRI] [] [])
              describedRI (script [] [] [])
              ltac:(reflexivity) ltac:(reflexivity) ltac:(reflexivity)
              ltac:(reflexivity) ltac:(discriminate) ltac:(reflexivity)
              ltac:(reflexivity) ltac:(reflexivity) ltac:(reflexivity))
    as (r & w' & H1 & H2 & H3 & H4).
  assert (E : resolved_ref {| WithAttr := [td_item "sha1-R"] |}
                           {| WithAttr := [td_item "sha1-I"] |} describedRI "photos"
              = Some "sha1-R") by reflexivity.
  rewrite E in H4. cbn in H4. destruct H4 as (-> & H4 & _).
  exists w'. split; [exact H1 |]. split; [exact H3 |]. split; [exact H4 | exact H2].
Defined.

(** The root "photos" has moved to the permanode sha1-R2: [Lookup]
    returns the memoized roDirV of sha1-R. *)
Lemma versionsDir_Lookup_keeps_root_child_example :
  exists w',
    versionsDir_Lookup 0%nat "photos" noon noon w_photos_moved = Some (Ok 1%nat, w')
    /\ heap w' !! 1%nat = Some (NDirV photos_old)
    /\ dv_permanode photos_old = "sha1-R".
Proof.
  destruct (versionsDir_Lookup_keeps_root_child
              0%nat "photos" 1%nat noon noon w_photos_moved rootsDir_photos
              {[ "photos" := 1%nat ]}
              {| WithAttr := [td_item "sha1-R2"] |}
              (script [Some describedR2] [] [found []])
              {| WithAttr := [] |}
              (script [Some describedR2] [] [])
              describedR2 (script [] [] [])
              (td_item "sha1-R2") "sha1-R2"
              ltac:(reflexivity) ltac:(reflexivity) ltac:(reflexivity)
              ltac:(reflexivity) ltac:(reflexivity) ltac:(reflexivity)
              ltac:(reflexivity) ltac:(apply list_elem_of_here)
              ltac:(reflexivity) ltac:(reflexivity) ltac:(reflexivity))
    as (w' & H1 & _ & H3 & _).
  exists w'. split; [exact H1 |]. split; [| reflexivity].
  exact (H3 1%nat ltac:(discriminate)).
Defined.

(** A freshly mounted directory on a store without roots: both handlers
    return. *)
Lemma versionsDir_handlers_return_example :
  (exists r w', versionsDir_Lookup 0%nat "photos" noon noon w_empty_store
                = Some (r, w'))
  /\ (exists r w', versionsDir_ReadDir 0%nat noon noon w_empty_store
                   = Some (r, w')).
Proof.
  destruct (versionsDir_handlers_return 0%nat "photos" noon noon
              w_empty_store rootsDir0
              ltac:(reflexivity) ltac:(intros _; reflexivity) ltac:(reflexivity))
    as [(r & w' & n' & H1 & _) (r2 & w2 & n2 & H2 & _)].
  split; [exists r, w'; exact H1 | exists r2, w2; exact H2].
Defined.

(** A [ReadDir] and a [Lookup] on the directory of [w_dirP]: the
    directory is still at its address, with the same [Attr]. *)
Lemma handlers_keep_every_node_example :
  exists w',
    rtc handler_step w_dirP w'
    /\ (exists nd', heap w' !! 0%nat = Some nd'
                    /\ node_Attr nd' = node_Attr (NDirV dirP))
    /\ queries w' = [QDescribe (dv_describe_request dirP)].
Proof.
  evaluated E1 (roDirV_ReadDir 0%nat w_dirP).
  match type of E1 with
  | _ = Some (_, ?w1) =>
      evaluated E2 (roDirV_Lookup 0%nat "a" w1);
      match type of E2 with
      | _ = Some (_, ?w2) =>
          assert (Hsteps : rtc handler_step w_dirP w2)
            by (eapply rtc_l; [exact (step_roDirV_ReadDir _ _ _ _ E1) |];
                eapply rtc_l; [exact (step_roDirV_Lookup _ _ _ _ _ E2) |];
                apply rtc_refl);
          destruct (handlers_keep_every_node w_dirP w2 0%nat (NDirV dirP)
                      Hsteps ltac:(reflexivity))
            as [(nd' & H1 & _ & H3) _];
          exists w2; split; [exact Hsteps |]; split; [| reflexivity];
          exists nd'; split; [exact H1 | exact H3]
      end
  end.
Defined.

(** The permanode on standard input, with a blank before it and a
    newline after it, and the same permanode as the argument. *)
Lemma RunCommand_reads_the_permanode_from_stdin_example :
  RunCommand versions_cmd ["-"] = RunCommand versions_cmd [" sha1-F" +:+ newline]
  /\ RunCommand versions_cmd ["sha1-F"]
     = RunCommand versions_cmd [" sha1-F" +:+ newline]
  /\ returned (RunCommand versions_cmd ["-"]) = None
  /\ written (RunCommand versions_cmd ["-"]) = ["sha1-A,sha1-B" +:+ newline].
Proof.
  destruct (RunCommand_reads_the_permanode_from_stdin (CmdEnv0 := td_cmd)
              versions_cmd (" sha1-F" +:+ newline) "sha1-F"
              ltac:(reflexivity) ltac:(discriminate) ltac:(discriminate)
              ltac:(reflexivity))
    as [H1 H2].
  split; [exact H1 |]. split; [exact H2 |]. split; reflexivity.
Defined.

(** The command prints the two claimed values, and the directory of
    the permanode lists the two dates. *)
Lemma RunCommand_prints_the_claims_of_the_directory_example :
  exists ents w',
    written (RunCommand versions_cmd ["sha1-F"]) = ["sha1-A,sha1-B" +:+ newline]
    /\ sent (RunCommand versions_cmd ["sha1-F"])
       = [QGetClaims (fl_claims_request fileF)]
    /\ roFileLikeDir_ReadDir 0%nat w_fileF = Some (Ok ents, w')
    /\ forall e, e ∈ ents -> Name e = DateString t1 \/ Name e = DateString t2.
Proof.
  destruct (RunCommand_prints_the_claims_of_the_directory
              (H0 := td_env) (SearchClient0 := td_client) (CmdEnv0 := td_cmd)
              versions_cmd "sha1-F"
              0%nat w_fileF fileF ltac:(reflexivity))
    as (pn & br & res & c' & resj & H1 & H2 & H3 & H4 & H5 & H6).
  injection H1 as <-.
  evaluate_in H2. injection H2 as <-.
  evaluate_in H3. injection H3 as <- <-.
  destruct (H6 ltac:(reflexivity) ltac:(reflexivity) ltac:(reflexivity)
               ltac:(reflexivity)) as [Hs Hrd].
  evaluated E (roFileLikeDir_ReadDir 0%nat w_fileF).
  match type of E with
  | _ = Some (Ok ?ents, ?w1) =>
      exists ents, w1; split; [reflexivity |]; split; [exact Hs |];
      split; [exact E |];
      intros e He; destruct (Hrd ents w1 E) as [_ Hnames];
      destruct (Hnames e He) as (cl & Hcl & ->);
      apply elem_of_cons in Hcl as [-> | Hcl]; [left; reflexivity |];
      apply list_elem_of_singleton in Hcl as ->; right; reflexivity
  end.
Defined.

(** Three [ReadDir]s of [w_flickr]: at noon, a second later and two
    minutes later. *)
Lemma versionsDir_ReadDir_one_pair_per_window_example :
  exists w1 ents res w3 qs,
    versionsDir_ReadDir 0%nat noon noon w_flickr = Some (Ok ents, w1)
    /\ versionsDir_ReadDir 0%nat (noon + second) (noon + second) w1
       = Some (Ok ents, w1)
    /\ versionsDir_ReadDir 0%nat (noon + 2 * Minute) (noon + 2 * Minute) w1
       = Some (res, w3)
    /\ queries w3
       = queries w1 ++ [QWithAttr root_request; QWithAttr import_request] ++ qs.
Proof.
  destruct (versionsDir_ReadDir_one_pair_per_window
              0%nat noon noon (noon + second) (noon + second)
              (noon + 2 * Minute) (noon + 2 * Minute)
              w_flickr rootsDir_flickr
              {| WithAttr := [td_item "sha1-R"] |}
              (script [Some describedRI] [] [found ["sha1-I"]])
              {| WithAttr := [td_item "sha1-I"] |}
              (script [Some describedRI] [] [])
              describedRI (script [] [] [])
              ltac:(reflexivity) ltac:(reflexivity) ltac:(reflexivity)
              ltac:(reflexivity) ltac:(discriminate) ltac:(reflexivity)
              ltac:(reflexivity) ltac:(vm_compute; discriminate))
    as (w1 & ents & H1 & _ & H3 & res & w3 & qs & H4 & H5).
  exists w1, ents, res, w3, qs.
  split; [exact H1 |]. split; [exact H3 |]. split; [exact H4 | exact H5].
Defined.

(** The root "photos" has been replaced by the root "music": the
    memoized child of "photos" is dropped, and the name is gone. *)
Lemma refresh_evicts_example :
  exists w1 n1,
    condRefresh 0%nat noon noon w_photos_replaced = Some (None, w1)
    /\ heap w1 !! 0%nat = Some (NVersions n1)
    /\ default ∅ (vd_children n1) !! "photos" = None
    /\ default ∅ (vd_m n1) !! "photos" = None
    /\ default ∅ (vd_children rootsDir_photos) !! "photos" = Some 1%nat.
Proof.
  destruct (refresh_evicts 0%nat noon noon w_photos_replaced rootsDir_photos
              {| WithAttr := [td_item "sha1-M"] |}
              (script [Some describedM] [] [found []])
              {| WithAttr := [] |}
              (script [Some describedM] [] [])
              describedM (script [] [] []) "photos"
              ltac:(reflexivity) ltac:(reflexivity) ltac:(reflexivity)
              ltac:(reflexivity) ltac:(discriminate) ltac:(reflexivity)
              ltac:(intros wi Hwi; apply list_elem_of_singleton in Hwi; subst wi;
                    discriminate))
    as (w1 & n1 & H1 & H2 & H3 & H4).
  exists w1, n1. split; [exact H1 |]. split; [exact H2 |]. split; [exact H3 |].
  split; [| reflexivity].
  apply H4. intros wi Hwi. apply elem_of_nil in Hwi. contradiction.
Defined.

(** Two claims of one date give one entry. *)
Lemma listings_have_distinct_names_example :
  exists ents,
    lists w_fileF_same_date ents
    /\ NoDup (Name <$> ents)
    /\ Name <$> ents = [DateString t1].
Proof.
  evaluated E (roFileLikeDir_ReadDir 0%nat w_fileF_same_date).
  match type of E with
  | _ = Some (Ok ?ents, ?w1) =>
      exists ents;
      assert (Hl : lists w_fileF_same_date ents)
        by exact (lists_roFileLikeDir _ _ _ _ E);
      split; [exact Hl |]; split;
      [exact (listings_have_distinct_names _ _ Hl) | reflexivity]
  end.
Defined.

(** A second after its refresh the directory of [w_describe_down] lists
    "photos", and [Lookup] finds its memoized child. *)
Lemma versionsDir_Lookup_finds_what_ReadDir_lists_example :
  exists ents w',
    versionsDir_ReadDir 0%nat (noon - 2 * Minute + second) noon w_describe_down
    = Some (Ok ents, w_describe_down)
    /\ versionsDir_Lookup 0%nat "photos" (noon - 2 * Minute + second) noon
         w_describe_down
       = Some (Ok 1%nat, w')
    /\ queries w' = []
    /\ "photos" ∈ Name <$> ents.
Proof.
  destruct (versionsDir_Lookup_finds_what_ReadDir_lists
              0%nat "photos" (noon - 2 * Minute + second) noon
              w_describe_down rootsDir_photos
              ltac:(reflexivity) ltac:(reflexivity)
              ltac:(intros Hx; discriminate Hx) ltac:(reflexivity)
              ltac:(intros nm br Hl;
                    change (({[ "photos" := "sha1-R" ]} : gmap string string) !! nm
                            = Some br) in Hl;
                    apply lookup_singleton_Some in Hl as [_ <-]; reflexivity))
    as (ents & r & w' & H1 & H2 & H3 & H4 & _).
  evaluated E (versionsDir_Lookup 0%nat "photos" (noon - 2 * Minute + second) noon
                 w_describe_down).
  pose proof H2 as H2'. rewrite E in H2'. injection H2' as <- _.
  exists ents, w'. split; [exact H1 |]. split; [exact H2 |]. split; [exact H3 |].
  apply H4. eauto.
Defined.

End Examples.
